(** * Reliable file transfer over UDP: frame codec, drop policy, client and
      server engines

    A shallow embedding of the Go packages [protocol], [clientudp] and
    [serverudp], followed by the properties established about them.

    Conventions of the embedding:
    - a Go [byte] is an [ascii]; a [[]byte] is a [list byte]; a Go [string]
      is a [string] (both are plain byte sequences);
    - fixed-width integers are [Z] with the wrap-around written out
      ([uint16], [uint32], [uint64], [int64]);
    - a Go function returning [(v, err)] returns a pair whose second
      component is an [error] ([None] is [nil]);
    - code that indexes or re-slices runs in the [outcome] monad, whose
      [Panic] is the Go runtime fault for an index or slice out of range. *)

From Stdlib Require Import ZArith List String Ascii Lia Bool.
From Stdlib Require Import Floats Sorted.
From stdpp Require Import gmap strings list pretty.

Local Open Scope Z_scope.

(* ===================================================================== *)
(** * The Go runtime fragment used by the code                            *)
(* ===================================================================== *)

Definition byte := ascii.

(** [byte(x)]: conversion of an integer to a byte keeps the low 8 bits. *)
Definition byte_of_Z (z : Z) : byte := ascii_of_N (Z.to_N (z mod 256)).
Definition Z_of_byte (b : byte) : Z := Z.of_N (N_of_ascii b).
Global Arguments byte_of_Z : simpl never.
Global Arguments Z_of_byte : simpl never.

Definition uint16 (z : Z) : Z := z mod 2 ^ 16.
Definition uint32 (z : Z) : Z := z mod 2 ^ 32.
Definition uint64 (z : Z) : Z := z mod 2 ^ 64.
(** [int64(x)] and [int(x)] on a 64-bit platform: two's complement. *)
Definition int64 (z : Z) : Z := (z + 2 ^ 63) mod 2 ^ 64 - 2 ^ 63.

Definition is_uint16 (z : Z) : Prop := 0 <= z < 2 ^ 16.
Definition is_uint32 (z : Z) : Prop := 0 <= z < 2 ^ 32.
Definition is_uint64 (z : Z) : Prop := 0 <= z < 2 ^ 64.
Definition is_int64 (z : Z) : Prop := - 2 ^ 63 <= z < 2 ^ 63.

Definition len {A : Type} (l : list A) : Z := Z.of_nat (length l).

(** [[]byte(s)] and [string(b)]. *)
Definition bytes_of_string (s : string) : list byte := list_ascii_of_string s.
Definition string_of_bytes (b : list byte) : string := string_of_list_ascii b.

(** [make([]byte, n)]: a zero-filled buffer. *)
Definition zero_byte : byte := byte_of_Z 0.
Definition make (n : Z) : list byte := repeat zero_byte (Z.to_nat n).

(** A Go [error] value; [None] is [nil]. *)
Definition error : Type := option string.

(** Result of code that may fault at run time. *)
Inductive outcome (A : Type) : Type :=
| Ret (a : A)
| Panic.
Arguments Ret {A} a.
Arguments Panic {A}.

Global Instance outcome_ret : MRet outcome := @Ret.
Global Instance outcome_bind : MBind outcome := fun A B k m =>
  match m with
  | Ret a => k a
  | Panic => Panic
  end.

(** [b[i]]: faults unless [0 <= i < len(b)]. *)
Definition index {A : Type} (b : list A) (i : Z) : outcome A :=
  if (0 <=? i) && (i <? len b) then
    match b !! Z.to_nat i with
    | Some x => Ret x
    | None => Panic
    end
  else Panic.

(** [b[lo:hi]] on a slice whose capacity equals its length: faults unless
    [0 <= lo <= hi <= len(b)]. *)
Definition sub {A : Type} (b : list A) (lo hi : Z) : outcome (list A) :=
  if (0 <=? lo) && (lo <=? hi) && (hi <=? len b) then
    Ret (take (Z.to_nat (hi - lo)) (drop (Z.to_nat lo) b))
  else Panic.

(** [copy(dst[lo:hi], src)]: copies [min(hi - lo, len(src))] bytes. *)
Definition copy (dst : list byte) (lo hi : Z) (src : list byte) : list byte :=
  list_inserts (Z.to_nat lo) (take (Z.to_nat (hi - lo)) src) dst.

(** A slice together with the part of its backing array that lies between
    its length and its capacity.  Re-slicing may reach into [spare]. *)
Record slice : Type := mkSlice {
  visible : list byte;
  spare : list byte
}.

Definition slice_len (s : slice) : Z := len (visible s).
Definition slice_cap (s : slice) : Z := len (visible s) + len (spare s).

(** [s[lo:hi]] with both bounds written: legal while [hi <= cap(s)]. *)
Definition reslice (s : slice) (lo hi : Z) : outcome slice :=
  if (0 <=? lo) && (lo <=? hi) && (hi <=? slice_cap s) then
    let arr := (visible s ++ spare s)%list in
    Ret (mkSlice (take (Z.to_nat (hi - lo)) (drop (Z.to_nat lo) arr))
                 (drop (Z.to_nat hi) arr))
  else Panic.

(** [s[:hi]]. *)
Definition reslice_to (s : slice) (hi : Z) : outcome slice := reslice s 0 hi.

(** [s[lo:]]: the missing upper bound is [len(s)], so [lo] may not exceed
    the length even when the capacity is larger. *)
Definition reslice_from (s : slice) (lo : Z) : outcome slice :=
  reslice s lo (slice_len s).

(* ===================================================================== *)
(** * encoding/binary, big endian                                         *)
(* ===================================================================== *)

Module binary.

Definition be16 (v : Z) : list byte :=
  [byte_of_Z (Z.shiftr v 8); byte_of_Z v].

Definition be32 (v : Z) : list byte :=
  [byte_of_Z (Z.shiftr v 24); byte_of_Z (Z.shiftr v 16);
   byte_of_Z (Z.shiftr v 8); byte_of_Z v].

Definition be64 (v : Z) : list byte :=
  [byte_of_Z (Z.shiftr v 56); byte_of_Z (Z.shiftr v 48);
   byte_of_Z (Z.shiftr v 40); byte_of_Z (Z.shiftr v 32);
   byte_of_Z (Z.shiftr v 24); byte_of_Z (Z.shiftr v 16);
   byte_of_Z (Z.shiftr v 8); byte_of_Z v].

(** [binary.BigEndian.PutUintN(buf[off:off+N/8], v)]. *)
Definition PutUint16 (buf : list byte) (off : Z) (v : Z) : list byte :=
  list_inserts (Z.to_nat off) (be16 v) buf.
Definition PutUint32 (buf : list byte) (off : Z) (v : Z) : list byte :=
  list_inserts (Z.to_nat off) (be32 v) buf.
Definition PutUint64 (buf : list byte) (off : Z) (v : Z) : list byte :=
  list_inserts (Z.to_nat off) (be64 v) buf.

(** [binary.BigEndian.UintN(b)]: reads the first N/8 bytes of [b]. *)
Definition Uint16 (b : list byte) : outcome Z :=
  b1 ← index b 1;
  b0 ← index b 0;
  Ret (Z.lor (Z_of_byte b1) (Z.shiftl (Z_of_byte b0) 8)).

Definition Uint32 (b : list byte) : outcome Z :=
  b3 ← index b 3;
  b2 ← index b 2;
  b1 ← index b 1;
  b0 ← index b 0;
  Ret (Z.lor (Z.lor (Z.lor (Z_of_byte b3) (Z.shiftl (Z_of_byte b2) 8))
                    (Z.shiftl (Z_of_byte b1) 16))
             (Z.shiftl (Z_of_byte b0) 24)).

Definition Uint64 (b : list byte) : outcome Z :=
  b7 ← index b 7;
  b6 ← index b 6;
  b5 ← index b 5;
  b4 ← index b 4;
  b3 ← index b 3;
  b2 ← index b 2;
  b1 ← index b 1;
  b0 ← index b 0;
  Ret (Z.lor (Z.lor (Z.lor (Z.lor (Z.lor (Z.lor (Z.lor
        (Z_of_byte b7)
        (Z.shiftl (Z_of_byte b6) 8))
        (Z.shiftl (Z_of_byte b5) 16))
        (Z.shiftl (Z_of_byte b4) 24))
        (Z.shiftl (Z_of_byte b3) 32))
        (Z.shiftl (Z_of_byte b2) 40))
        (Z.shiftl (Z_of_byte b1) 48))
        (Z.shiftl (Z_of_byte b0) 56)).

End binary.

(* ===================================================================== *)
(** * internal/config: protocol constants                                 *)
(* ===================================================================== *)

Module config.
Definition ProtocolVersion : Z := 1.
Definition ChunkSize : Z := 1024.
End config.

(* ===================================================================== *)
(** * hash/crc32 and crypto/sha256 (Go standard library)                  *)
(* ===================================================================== *)

(** The two checksums are library code; they are written out here so that
    the embedding runs.  [crc32.ChecksumIEEE] is the reflected CRC-32 with
    polynomial 0xedb88320; [sha256.Sum256] is FIPS 180-4 SHA-256.  The
    examples further down check both against known digests. *)

Module crc32.

Definition IEEE : Z := 0xedb88320.

Fixpoint shift_bits (n : nat) (c : Z) : Z :=
  match n with
  | O => c
  | S n' =>
      shift_bits n'
        (if Z.odd c then Z.lxor (Z.shiftr c 1) IEEE else Z.shiftr c 1)
  end.

Definition update (c : Z) (b : byte) : Z :=
  shift_bits 8 (Z.lxor c (Z_of_byte b)).

Definition ChecksumIEEE (data : list byte) : Z :=
  Z.lxor (fold_left update data 0xffffffff) 0xffffffff.

End crc32.

Module sha256.

Definition add32 (a b : Z) : Z := (a + b) mod 2 ^ 32.

Definition rotr (n : Z) (x : Z) : Z :=
  Z.lor (Z.shiftr x n) (Z.shiftl x (32 - n) mod 2 ^ 32).

(** The round constants and the initial state are the first 32 bits of the
    fractional parts of the cube roots of the first 64 primes, and of the
    square roots of the first 8. *)
Definition is_prime (n : Z) : bool :=
  forallb (fun d => negb (n mod d =? 0)) (seqZ 2 (n - 2)).

Definition primes : list Z := filter (fun n => is_prime n = true) (seqZ 2 310).

Fixpoint cube_root_bits (k : nat) (n r : Z) : Z :=
  match k with
  | O => r
  | S k' =>
      let c := r + 2 ^ Z.of_nat k' in
      cube_root_bits k' n (if c * c * c <=? n then c else r)
  end.

Definition K : list Z :=
  Eval vm_compute in
    map (fun p => cube_root_bits 36 (p * 2 ^ 96) 0 mod 2 ^ 32) (take 64 primes).

Definition init : list Z :=
  Eval vm_compute in
    map (fun p => Z.sqrt (p * 2 ^ 64) mod 2 ^ 32) (take 8 primes).

Definition word_at (w : list Z) (i : nat) : Z := nth i w 0.

Definition be_word (b : list byte) : Z :=
  fold_left (fun acc x => acc * 256 + Z_of_byte x) b 0.

Fixpoint words (n : nat) (b : list byte) : list Z :=
  match n with
  | O => []
  | S n' => be_word (take 4 b) :: words n' (drop 4 b)
  end.

Definition ssig0 (x : Z) : Z :=
  Z.lxor (Z.lxor (rotr 7 x) (rotr 18 x)) (Z.shiftr x 3).
Definition ssig1 (x : Z) : Z :=
  Z.lxor (Z.lxor (rotr 17 x) (rotr 19 x)) (Z.shiftr x 10).
Definition bsig0 (x : Z) : Z :=
  Z.lxor (Z.lxor (rotr 2 x) (rotr 13 x)) (rotr 22 x).
Definition bsig1 (x : Z) : Z :=
  Z.lxor (Z.lxor (rotr 6 x) (rotr 11 x)) (rotr 25 x).
Definition ch (x y z : Z) : Z :=
  Z.lxor (Z.land x y) (Z.land (Z.lxor x 0xffffffff) z).
Definition maj (x y z : Z) : Z :=
  Z.lxor (Z.lxor (Z.land x y) (Z.land x z)) (Z.land y z).

Fixpoint schedule (n : nat) (w : list Z) : list Z :=
  match n with
  | O => w
  | S n' =>
      let i := length w in
      let x := add32 (add32 (ssig1 (word_at w (i - 2))) (word_at w (i - 7)))
                     (add32 (ssig0 (word_at w (i - 15))) (word_at w (i - 16))) in
      schedule n' (w ++ [x])
  end.

Definition round (s : list Z) (kw : Z * Z) : list Z :=
  match s with
  | [a; b; c; d; e; f; g; h] =>
      let t1 := add32 (add32 (add32 h (bsig1 e)) (add32 (ch e f g) (fst kw)))
                      (snd kw) in
      let t2 := add32 (bsig0 a) (maj a b c) in
      [add32 t1 t2; a; b; c; add32 d t1; e; f; g]
  | _ => s
  end.

Definition block (s : list Z) (blk : list byte) : list Z :=
  let w := schedule 48 (words 16 blk) in
  let s' := fold_left round (combine K w) s in
  zip_with add32 s s'.

Definition padding (n : Z) : list byte :=
  let k := (55 - n) mod 64 in
  (byte_of_Z 0x80 :: repeat zero_byte (Z.to_nat k)) ++ binary.be64 (8 * n).

Fixpoint blocks (fuel : nat) (s : list Z) (b : list byte) : list Z :=
  match fuel with
  | O => s
  | S fuel' =>
      match b with
      | [] => s
      | _ => blocks fuel' (block s (take 64 b)) (drop 64 b)
      end
  end.

Definition Sum256 (data : list byte) : list byte :=
  let m := data ++ padding (len data) in
  flat_map binary.be32 (blocks (length m) init m).

End sha256.

(* ===================================================================== *)
(** * Package protocol: DATA header and control frames                    *)
(* ===================================================================== *)

Module protocol.

Definition dataMagic0 : byte := "U"%char.
Definition dataMagic1 : byte := "D"%char.

Module DataHeader.
Record t : Type := mk {
  Seq : Z;    (* uint32 *)
  Total : Z;  (* uint32 *)
  Size : Z;   (* uint16 *)
  CRC32 : Z   (* uint32 *)
}.
Definition zero : t := mk 0 0 0 0.
Definition valid (h : t) : Prop :=
  is_uint32 (Seq h) /\ is_uint32 (Total h) /\ is_uint16 (Size h)
  /\ is_uint32 (CRC32 h).
End DataHeader.

Definition dataHeaderSize : Z := 2 + 1 + 1 + 4 + 4 + 2 + 4.

Definition PackHeader (h : DataHeader.t) : list byte :=
  let buf := make dataHeaderSize in
  let buf := <[0%nat := dataMagic0]> buf in
  let buf := <[1%nat := dataMagic1]> buf in
  let buf := <[2%nat := byte_of_Z config.ProtocolVersion]> buf in
  let buf := <[3%nat := byte_of_Z 0]> buf in
  let buf := binary.PutUint32 buf 4 (DataHeader.Seq h) in
  let buf := binary.PutUint32 buf 8 (DataHeader.Total h) in
  let buf := binary.PutUint16 buf 12 (DataHeader.Size h) in
  let buf := binary.PutUint32 buf 14 (DataHeader.CRC32 h) in
  buf.

Definition UnpackHeader (b : list byte) : outcome (DataHeader.t * error) :=
  if len b <? dataHeaderSize then
    Ret (DataHeader.zero, Some "buffer curto para header"%string)
  else
    b0 ← index b 0;
    b1 ← index b 1;
    b2 ← index b 2;
    if negb (Ascii.eqb b0 dataMagic0) || negb (Ascii.eqb b1 dataMagic1)
       || negb (Ascii.eqb b2 (byte_of_Z config.ProtocolVersion)) then
      Ret (DataHeader.zero, Some "header inválido"%string)
    else
      s ← sub b 4 8;
      seq ← binary.Uint32 s;
      s ← sub b 8 12;
      total ← binary.Uint32 s;
      s ← sub b 12 14;
      size ← binary.Uint16 s;
      s ← sub b 14 18;
      crc ← binary.Uint32 s;
      Ret (DataHeader.mk seq total size crc, None).

Definition HeaderSize : Z := dataHeaderSize.

(** ** Control frames *)

Definition TypeREQ : string := "REQ".
Definition TypeMETA : string := "META".
Definition TypeERR : string := "ERR".
Definition TypeEOF : string := "EOF".
Definition TypeNACK : string := "NACK".
Definition TypeLIST : string := "LIST".
Definition TypeLST : string := "LST".

Definition ctrlMagic0 : byte := "U"%char.
Definition ctrlMagic1 : byte := "C"%char.

Definition ctrlTypeREQ : Z := 1.
Definition ctrlTypeMETA : Z := 2.
Definition ctrlTypeERR : Z := 3.
Definition ctrlTypeEOF : Z := 4.
Definition ctrlTypeNACK : Z := 5.
Definition ctrlTypeLIST : Z := 6.
Definition ctrlTypeLST : Z := 7.

Record Req : Type := mkReq { Path : string }.

Module Meta.
Record t : Type := mk {
  Filename : string;
  Total : Z;       (* uint32 *)
  Size : Z;        (* int64 *)
  SHA256 : string; (* 64 hex characters *)
  Chunk : Z        (* int *)
}.
Definition zero : t := mk "" 0 0 "" 0.
End Meta.

Record ErrMsg : Type := mkErrMsg { Message : string }.
Record Nack : Type := mkNack { Missing : list Z }.
Record Lst : Type := mkLst { Names : list string }.

(** The dynamically typed value returned by [DecodeCtrl]. *)
Inductive any : Type :=
| any_nil
| any_Req (q : Req)
| any_Meta (m : Meta.t)
| any_ErrMsg (e : ErrMsg)
| any_EOFMsg
| any_Nack (n : Nack)
| any_List
| any_Lst (l : Lst).

(** [parseHexSha]: the closure [hexval] and the loop over the 32 pairs. *)
Definition hexval (r : byte) : byte * bool :=
  let v := Z_of_byte r in
  if (48 <=? v) && (v <=? 57) then (byte_of_Z (v - 48), true)
  else if (97 <=? v) && (v <=? 102) then (byte_of_Z (v - 97 + 10), true)
  else if (65 <=? v) && (v <=? 70) then (byte_of_Z (v - 65 + 10), true)
  else (byte_of_Z 0, false).

(** [s[i]] for an index that the caller keeps in range. *)
Definition at_index (s : list byte) (i : Z) : byte :=
  nth (Z.to_nat i) s zero_byte.

Fixpoint parseHexSha_loop (n : nat) (i : Z) (s : list byte) (b : list byte)
  : list byte :=
  match n with
  | O => b
  | S n' =>
      let '(hi, ok1) := hexval (at_index s (i * 2)) in
      let '(lo, ok2) := hexval (at_index s (i * 2 + 1)) in
      if negb ok1 || negb ok2 then b
      else
        let v := byte_of_Z (Z.lor (Z.shiftl (Z_of_byte hi) 4) (Z_of_byte lo)) in
        parseHexSha_loop n' (i + 1) s (<[Z.to_nat i := v]> b)
  end.

Definition parseHexSha (s : string) : list byte :=
  let b := make 32 in
  if negb (len (bytes_of_string s) =? 64) then b
  else parseHexSha_loop 32 0 (bytes_of_string s) b.

Definition hexdigits : list byte := bytes_of_string "0123456789abcdef".

(** The two characters that the loop of [fmtHash] writes for one byte. *)
Definition hex_of_byte (v : byte) : list byte :=
  [at_index hexdigits (Z.shiftr (Z_of_byte v) 4);
   at_index hexdigits (Z.land (Z_of_byte v) 0x0f)].

Definition fmtHash (b : list byte) : string :=
  string_of_bytes (flat_map hex_of_byte b).

Definition ctrlHeader (t : Z) (payloadLen : Z) : list byte :=
  let b := make (2 + 1 + 1 + 2) in
  let b := <[0%nat := ctrlMagic0]> b in
  let b := <[1%nat := ctrlMagic1]> b in
  let b := <[2%nat := byte_of_Z config.ProtocolVersion]> b in
  let b := <[3%nat := byte_of_Z t]> b in
  binary.PutUint16 b 4 (uint16 payloadLen).

Definition packREQ (path : string) : list byte :=
  let p := bytes_of_string path in
  let h := ctrlHeader ctrlTypeREQ (len p) in
  h ++ p.

Definition packMETA (m : Meta.t) : list byte :=
  let fn := bytes_of_string (Meta.Filename m) in
  let sha := parseHexSha (Meta.SHA256 m) in
  let payload := make (4 + 8 + 2 + 2 + len fn + 32) in
  let payload := binary.PutUint32 payload 0 (Meta.Total m) in
  let payload := binary.PutUint64 payload 4 (uint64 (Meta.Size m)) in
  let payload := binary.PutUint16 payload 12 (uint16 (Meta.Chunk m)) in
  let payload := binary.PutUint16 payload 14 (uint16 (len fn)) in
  let payload := copy payload 16 (16 + len fn) fn in
  let payload := copy payload (16 + len fn) (len payload) sha in
  let h := ctrlHeader ctrlTypeMETA (len payload) in
  h ++ payload.

Definition packERR (msg : string) : list byte :=
  let b := bytes_of_string msg in
  let payload := make (2 + 2 + len b) in
  let payload := binary.PutUint16 payload 0 1 in
  let payload := binary.PutUint16 payload 2 (uint16 (len b)) in
  let payload := copy payload 4 (len payload) b in
  let h := ctrlHeader ctrlTypeERR (len payload) in
  h ++ payload.

Definition packEOF : list byte := ctrlHeader ctrlTypeEOF 0.

Fixpoint packNACK_loop (missing : list Z) (off : Z) (payload : list byte)
  : list byte :=
  match missing with
  | [] => payload
  | s :: rest => packNACK_loop rest (off + 4) (binary.PutUint32 payload off s)
  end.

Definition packNACK (missing : list Z) : list byte :=
  let payload := make (2 + 4 * len missing) in
  let payload := binary.PutUint16 payload 0 (uint16 (len missing)) in
  let payload := packNACK_loop missing 2 payload in
  let h := ctrlHeader ctrlTypeNACK (len payload) in
  h ++ payload.

Definition packLIST : list byte := ctrlHeader ctrlTypeLIST 0.

Fixpoint packLST_plen (names : list string) (plen : Z) : Z :=
  match names with
  | [] => plen
  | n :: rest => packLST_plen rest (plen + (2 + len (bytes_of_string n)))
  end.

Fixpoint packLST_loop (names : list string) (off : Z) (payload : list byte)
  : list byte :=
  match names with
  | [] => payload
  | n :: rest =>
      let b := bytes_of_string n in
      let payload := binary.PutUint16 payload off (uint16 (len b)) in
      let off := off + 2 in
      let payload := copy payload off (off + len b) b in
      packLST_loop rest (off + len b) payload
  end.

Definition packLST (names : list string) : list byte :=
  let count := len names in
  let plen := packLST_plen names 2 in
  let payload := make plen in
  let payload := binary.PutUint16 payload 0 (uint16 count) in
  let payload := packLST_loop names 2 payload in
  let h := ctrlHeader ctrlTypeLST (len payload) in
  h ++ payload.

Definition parseCtrl (b : list byte) : outcome (Z * list byte * error) :=
  let invalid := Ret (0, [], Some "ctrl header inválido"%string) in
  if len b <? 6 then invalid
  else
    b0 ← index b 0;
    if negb (Ascii.eqb b0 ctrlMagic0) then invalid
    else
      b1 ← index b 1;
      if negb (Ascii.eqb b1 ctrlMagic1) then invalid
      else
        b2 ← index b 2;
        if negb (Ascii.eqb b2 (byte_of_Z config.ProtocolVersion)) then invalid
        else
          t ← index b 3;
          s ← sub b 4 6;
          l ← binary.Uint16 s;
          if len b <? 6 + l then Ret (0, [], Some "ctrl payload curto"%string)
          else
            p ← sub b 6 (6 + l);
            Ret (Z_of_byte t, p, None).

Definition unpackREQ (p : list byte) : outcome (Req * error) :=
  Ret (mkReq (string_of_bytes p), None).

Definition unpackMETA (p : list byte) : outcome (Meta.t * error) :=
  if len p <? 4 + 8 + 2 + 2 + 32 then Ret (Meta.zero, Some "META curto"%string)
  else
    s ← sub p 0 4;
    total ← binary.Uint32 s;
    s ← sub p 4 12;
    size ← binary.Uint64 s;
    s ← sub p 12 14;
    chunk ← binary.Uint16 s;
    s ← sub p 14 16;
    fnLen ← binary.Uint16 s;
    if len p <? 16 + fnLen + 32 then Ret (Meta.zero, Some "META curto 2"%string)
    else
      fn ← sub p 16 (16 + fnLen);
      sha ← sub p (16 + fnLen) (16 + fnLen + 32);
      Ret (Meta.mk (string_of_bytes fn) total (int64 size) (fmtHash sha) chunk,
           None).

Definition unpackERR (p : list byte) : outcome (ErrMsg * error) :=
  if len p <? 4 then Ret (mkErrMsg "", Some "ERR curto"%string)
  else
    s ← sub p 2 4;
    ml ← binary.Uint16 s;
    if len p <? 4 + ml then Ret (mkErrMsg "", Some "ERR curto 2"%string)
    else
      m ← sub p 4 (4 + ml);
      Ret (mkErrMsg (string_of_bytes m), None).

Definition unpackEOF (p : list byte) : outcome (unit * error) := Ret (tt, None).

Fixpoint unpackNACK_loop (n : nat) (p : list byte) (off : Z) (m : list Z)
  : outcome (list Z) :=
  match n with
  | O => Ret m
  | S n' =>
      s ← sub p off (off + 4);
      v ← binary.Uint32 s;
      unpackNACK_loop n' p (off + 4) (m ++ [v])
  end.

Definition unpackNACK (p : list byte) : outcome (Nack * error) :=
  if len p <? 2 then Ret (mkNack [], Some "NACK curto"%string)
  else
    s ← sub p 0 2;
    n ← binary.Uint16 s;
    if len p <? 2 + 4 * n then Ret (mkNack [], Some "NACK curto 2"%string)
    else
      m ← unpackNACK_loop (Z.to_nat n) p 2 [];
      Ret (mkNack m, None).

Fixpoint unpackLST_loop (n : nat) (p : list byte) (off : Z)
  (names : list string) : outcome (Lst * error) :=
  match n with
  | O => Ret (mkLst names, None)
  | S n' =>
      if len p <? off + 2 then Ret (mkLst [], Some "LST curto 2"%string)
      else
        s ← sub p off (off + 2);
        l ← binary.Uint16 s;
        let off := off + 2 in
        if len p <? off + l then Ret (mkLst [], Some "LST curto 3"%string)
        else
          nm ← sub p off (off + l);
          unpackLST_loop n' p (off + l) (names ++ [string_of_bytes nm])
  end.

Definition unpackLST (p : list byte) : outcome (Lst * error) :=
  if len p <? 2 then Ret (mkLst [], Some "LST curto"%string)
  else
    s ← sub p 0 2;
    n ← binary.Uint16 s;
    unpackLST_loop (Z.to_nat n) p 2 [].

Definition CtrlREQ (path : string) : list byte := packREQ path.
Definition CtrlMETA (m : Meta.t) : list byte := packMETA m.
Definition CtrlERR (msg : string) : list byte := packERR msg.
Definition CtrlEOF : list byte := packEOF.
Definition CtrlNACK (missing : list Z) : list byte := packNACK missing.
Definition CtrlLIST : list byte := packLIST.
Definition CtrlLST (names : list string) : list byte := packLST names.

Definition DecodeCtrl (b : list byte) : outcome (string * any * error) :=
  '(t, p, e) ← parseCtrl b;
  match e with
  | Some _ => Ret (""%string, any_nil, e)
  | None =>
      if t =? ctrlTypeREQ then
        '(q, e) ← unpackREQ p; Ret (TypeREQ, any_Req q, e)
      else if t =? ctrlTypeMETA then
        '(m, e) ← unpackMETA p; Ret (TypeMETA, any_Meta m, e)
      else if t =? ctrlTypeERR then
        '(e2, e) ← unpackERR p; Ret (TypeERR, any_ErrMsg e2, e)
      else if t =? ctrlTypeEOF then
        '(_, e) ← unpackEOF p; Ret (TypeEOF, any_EOFMsg, e)
      else if t =? ctrlTypeNACK then
        '(nk, e) ← unpackNACK p; Ret (TypeNACK, any_Nack nk, e)
      else if t =? ctrlTypeLIST then
        Ret (TypeLIST, any_List, None)
      else if t =? ctrlTypeLST then
        '(lst, e) ← unpackLST p; Ret (TypeLST, any_Lst lst, e)
      else
        Ret (""%string, any_nil, Some "tipo ctrl desconhecido"%string)
  end.

Definition CRC32 (data : list byte) : Z := crc32.ChecksumIEEE data.

Definition SHA256FileChunks (chunks : list (list byte)) : string :=
  fmtHash (sha256.Sum256 (concat chunks)).

Definition IsCtrl (b : list byte) : bool :=
  (2 <=? len b)
  && Ascii.eqb (at_index b 0) "U"%char && Ascii.eqb (at_index b 1) "C"%char.

End protocol.

(* ===================================================================== *)
(** * Vocabulary of the statements about control frames                   *)
(* ===================================================================== *)

Module frames.
Import protocol.

(** The encoder that the code applies to each kind of control value. *)
Definition encode (v : any) : list byte :=
  match v with
  | any_nil => []
  | any_Req q => CtrlREQ (Path q)
  | any_Meta m => CtrlMETA m
  | any_ErrMsg e => CtrlERR (Message e)
  | any_EOFMsg => CtrlEOF
  | any_Nack n => CtrlNACK (Missing n)
  | any_List => CtrlLIST
  | any_Lst l => CtrlLST (Names l)
  end.

Definition tag (v : any) : string :=
  match v with
  | any_nil => ""
  | any_Req _ => TypeREQ
  | any_Meta _ => TypeMETA
  | any_ErrMsg _ => TypeERR
  | any_EOFMsg => TypeEOF
  | any_Nack _ => TypeNACK
  | any_List => TypeLIST
  | any_Lst _ => TypeLST
  end.

(** Number of payload bytes the encoder produces. *)
Definition payload_len (v : any) : Z :=
  match v with
  | any_nil => 0
  | any_Req q => len (bytes_of_string (Path q))
  | any_Meta m => 4 + 8 + 2 + 2 + len (bytes_of_string (Meta.Filename m)) + 32
  | any_ErrMsg e => 2 + 2 + len (bytes_of_string (Message e))
  | any_EOFMsg => 0
  | any_Nack n => 2 + 4 * len (Missing n)
  | any_List => 0
  | any_Lst l => packLST_plen (Names l) 2
  end.

(** One entry of an LST payload: a 16-bit length, then the name. *)
Definition lst_entry (n : string) : list byte :=
  binary.be16 (uint16 (len (bytes_of_string n))) ++ bytes_of_string n.

(** The bytes denoted by a string of hexadecimal digit pairs. *)
Fixpoint hex_pairs (s : list byte) : list byte :=
  match s with
  | c1 :: c2 :: rest =>
      byte_of_Z (Z.lor (Z.shiftl (Z_of_byte (fst (hexval c1))) 4)
                       (Z_of_byte (fst (hexval c2))))
      :: hex_pairs rest
  | _ => []
  end.

Definition is_lower_hex (c : byte) : Prop :=
  In c (bytes_of_string "0123456789abcdef").

Definition is_sha_hex (s : string) : Prop :=
  len (bytes_of_string s) = 64 /\ Forall is_lower_hex (bytes_of_string s).

(** Field bounds named by the specification: every length and counter fits
    the wire field that carries it. *)
Definition fields_in_bounds (v : any) : Prop :=
  match v with
  | any_nil => False
  | any_Req q => len (bytes_of_string (Path q)) <= 65535
  | any_Meta m =>
      len (bytes_of_string (Meta.Filename m)) <= 65535
      /\ is_uint32 (Meta.Total m)
      /\ 0 <= Meta.Size m < 2 ^ 63
      /\ is_uint16 (Meta.Chunk m)
      /\ is_sha_hex (Meta.SHA256 m)
  | any_ErrMsg e => len (bytes_of_string (Message e)) <= 65535
  | any_EOFMsg => True
  | any_Nack n => len (Missing n) <= 65535 /\ Forall is_uint32 (Missing n)
  | any_List => True
  | any_Lst l =>
      len (Names l) <= 65535
      /\ Forall (fun n => len (bytes_of_string n) <= 65535) (Names l)
  end.

(** The frame is representable: the field bounds hold and the whole payload
    fits the 16-bit length field of the control header. *)
Definition representable (v : any) : Prop :=
  fields_in_bounds v /\ payload_len v <= 65535.

(** SHA-256 of the empty byte sequence, as META carries it. *)
Definition sha_of_empty : string :=
  "e3b0c44298fc1c149afbf4c8996fb92427ae41e4649b934ca495991b7852b855".

(** A META value whose file name has the largest length that the 16-bit
    [fnLen] field can express. *)
Definition meta_long_name : Meta.t :=
  Meta.mk (string_of_bytes (repeat ("a"%char : byte) (Z.to_nat 65535)))
          1 1 sha_of_empty 1024.

(** A 64-character string whose first pair is valid hexadecimal and whose
    second pair is not. *)
Definition sha_bad_second_pair : string :=
  "ffzz000000000000000000000000000000000000000000000000000000000000".

Definition meta_sample : Meta.t :=
  Meta.mk "empty.bin" 0 0 sha_of_empty 1024.

End frames.

(* ===================================================================== *)
(** * math/rand: the pseudo-random source                                 *)
(* ===================================================================== *)

(** [rand.New(rand.NewSource(seed))] and [Rand.Float64] belong to the Go
    library.  The development is parametric in the generator: any state
    type with a seeding function and a sampling step will do. *)
Class RandSource : Type := {
  Rand : Type;
  rand_New : Z -> Rand;
  rand_Float64 : Rand -> float * Rand
}.

(** A generator that replays a fixed cycle of samples, used to run the
    model; the seed selects where the cycle starts. *)
Definition cycle_samples : list float :=
  [0.75; 0.125; 0.5; 0.9375; 0.25; 0.625]%float.

Definition cycle_Float64 (st : list float) : float * list float :=
  match st with
  | [] => (0%float, [])
  | x :: rest => (x, rest ++ [x])
  end.

Definition cycleRand : RandSource :=
  {| Rand := list float;
     rand_New := fun seed =>
       let k := Z.to_nat (seed mod len cycle_samples) in
       drop k cycle_samples ++ take k cycle_samples;
     rand_Float64 := cycle_Float64 |}.

(* ===================================================================== *)
(** * path/filepath, strings and os: the platform                         *)
(* ===================================================================== *)

(** [path/filepath] depends on the operating system, and [os] on the state
    of the machine.  The development is parametric in both. *)
Class PathLib : Type := {
  filepath_Clean : string -> string;
  filepath_Join : string -> string -> string;
  filepath_Base : string -> string;
  filepath_Dir : string -> string;
  strings_TrimSpace : string -> string
}.

Record FileInfo : Type := mkFileInfo {
  IsDir : bool;
  FileSize : Z
}.

(** The file system: a state, the operations the code calls on it, and
    what a successful [Create] and [Write] do to the content of the file. *)
Class FileSystem : Type := {
  World : Type;
  os_MkdirAll : string -> World -> error * World;
  os_Create : string -> World -> error * World;
  os_Write : string -> list byte -> World -> error * World;
  os_Stat : string -> World -> option FileInfo;
  os_ReadFile : string -> World -> option (list byte);
  os_ReadDir : string -> World -> list (string * bool);
  file_content : World -> string -> option (list byte);
  os_Create_content : forall p w w',
    os_Create p w = (None, w') -> file_content w' p = Some [];
  os_Write_content : forall p d w w' old,
    os_Write p d w = (None, w') -> file_content w p = Some old ->
    file_content w' p = Some (old ++ d)
}.

(** [strings.HasPrefix]. *)
Definition strings_HasPrefix (s pre : string) : bool := String.prefix pre s.

(** ** A Unix instance of the path functions *)

Module unixpath.

Definition slash : ascii := "/"%char.

Fixpoint split_slash (s : list ascii) (cur : list ascii) : list (list ascii) :=
  match s with
  | [] => [rev cur]
  | c :: r =>
      if Ascii.eqb c slash then rev cur :: split_slash r []
      else split_slash r (c :: cur)
  end.

Definition is_dot (c : list ascii) : bool :=
  match c with ["."%char] => true | _ => false end.
Definition is_dotdot (c : list ascii) : bool :=
  match c with ["."%char; "."%char] => true | _ => false end.

(** One path element against the elements kept so far (last one first). *)
Definition clean_step (rooted : bool) (kept : list (list ascii))
  (c : list ascii) : list (list ascii) :=
  match c with
  | [] => kept
  | _ =>
      if is_dot c then kept
      else if is_dotdot c then
        match kept with
        | top :: rest => if is_dotdot top then c :: kept else rest
        | [] => if rooted then [] else [c]
        end
      else c :: kept
  end.

Fixpoint join_slash (l : list (list ascii)) : list ascii :=
  match l with
  | [] => []
  | [c] => c
  | c :: rest => c ++ slash :: join_slash rest
  end.

Definition Clean (s : string) : string :=
  let b := list_ascii_of_string s in
  let rooted := match b with c :: _ => Ascii.eqb c slash | [] => false end in
  let kept := fold_left (clean_step rooted) (split_slash b []) [] in
  let body := join_slash (rev kept) in
  string_of_list_ascii
    (if rooted then slash :: body
     else match body with [] => ["."%char] | _ => body end).

Definition Join (a b : string) : string :=
  match a, b with
  | EmptyString, EmptyString => EmptyString
  | EmptyString, _ => Clean b
  | _, _ => Clean (a ++ String slash b)
  end.

Definition Base (s : string) : string :=
  match s with
  | EmptyString => "."
  | _ =>
      match filter (fun c => c <> []) (split_slash (list_ascii_of_string s) []) with
      | [] => String slash EmptyString
      | l => string_of_list_ascii (List.last l [])
      end
  end.

Fixpoint drop_last_element (r : list ascii) : list ascii :=
  match r with
  | [] => []
  | c :: r' => if Ascii.eqb c slash then r else drop_last_element r'
  end.

Definition Dir (s : string) : string :=
  Clean (string_of_list_ascii
           (rev (drop_last_element (rev (list_ascii_of_string s))))).

Definition is_space (c : ascii) : bool :=
  let n := N_of_ascii c in
  (N.eqb n 32 || ((N.leb 9 n) && (N.leb n 13)))%bool.

Fixpoint trim_left (s : list ascii) : list ascii :=
  match s with
  | c :: r => if is_space c then trim_left r else s
  | [] => []
  end.

(** White space is taken to be the ASCII white space characters. *)
Definition TrimSpace (s : string) : string :=
  string_of_list_ascii
    (rev (trim_left (rev (trim_left (list_ascii_of_string s))))).

End unixpath.

Definition unixPathLib : PathLib :=
  {| filepath_Clean := unixpath.Clean;
     filepath_Join := unixpath.Join;
     filepath_Base := unixpath.Base;
     filepath_Dir := unixpath.Dir;
     strings_TrimSpace := unixpath.TrimSpace |}.

(** ** An in-memory file system *)

Module memfs.

Record t : Type := mk {
  dirs : gset string;
  files : gmap string (list byte)
}.

Definition MkdirAll (p : string) (w : t) : error * t :=
  match files w !! p with
  | Some _ => (Some "not a directory"%string, w)
  | None => (None, mk ({[p]} ∪ dirs w) (files w))
  end.

Definition Create (p : string) (w : t) : error * t :=
  if decide (p ∈ dirs w) then (Some "is a directory"%string, w)
  else if decide (unixpath.Dir p ∈ dirs w) then
    (None, mk (dirs w) (<[p := []]> (files w)))
  else (Some "no such file or directory"%string, w).

Definition Write (p : string) (d : list byte) (w : t) : error * t :=
  match files w !! p with
  | Some old => (None, mk (dirs w) (<[p := old ++ d]> (files w)))
  | None => (Some "bad file descriptor"%string, w)
  end.

Definition Stat (p : string) (w : t) : option FileInfo :=
  if decide (p ∈ dirs w) then Some (mkFileInfo true 0)
  else match files w !! p with
       | Some c => Some (mkFileInfo false (len c))
       | None => None
       end.

Definition ReadFile (p : string) (w : t) : option (list byte) := files w !! p.

Definition ReadDir (p : string) (w : t) : list (string * bool) :=
  map (fun n => (unixpath.Base n, false))
      (filter (fun n => unixpath.Dir n = p) (elements (dom (files w))))
  ++ map (fun n => (unixpath.Base n, true))
      (filter (fun n => unixpath.Dir n = p /\ n <> p) (elements (dirs w))).

Definition content (w : t) (p : string) : option (list byte) := files w !! p.

Lemma Create_content (p : string) (w w' : t) :
  Create p w = (None, w') -> content w' p = Some [].
Proof.
  unfold Create, content. destruct (decide (p ∈ dirs w)); [done|].
  destruct (decide (unixpath.Dir p ∈ dirs w)); [|done].
  intros [= <-]. cbn. apply lookup_insert_eq.
Qed.

Lemma Write_content (p : string) (d : list byte) (w w' : t) (old : list byte) :
  Write p d w = (None, w') -> content w p = Some old ->
  content w' p = Some (old ++ d).
Proof.
  unfold Write, content. intros Hw Hold. rewrite Hold in Hw.
  injection Hw as <-. cbn. apply lookup_insert_eq.
Qed.

(** The working directory with an existing subdirectory [out]. *)
Definition with_out_dir : t := mk {[ "."%string; "out"%string ]} ∅.

(** The working directory holding one served file. *)
Definition with_served_file : t :=
  mk {[ "."%string ]} {[ "hello.txt"%string := bytes_of_string "hello" ]}.

End memfs.

Definition memFileSystem : FileSystem :=
  {| World := memfs.t;
     os_MkdirAll := memfs.MkdirAll;
     os_Create := memfs.Create;
     os_Write := memfs.Write;
     os_Stat := memfs.Stat;
     os_ReadFile := memfs.ReadFile;
     os_ReadDir := memfs.ReadDir;
     file_content := memfs.content;
     os_Create_content := memfs.Create_content;
     os_Write_content := memfs.Write_content |}.

(* ===================================================================== *)
(** * strings.Split, strings.SplitN and strconv.Atoi                      *)
(* ===================================================================== *)

(** [strings.Index(s, sep)] at a one-byte separator, given as what lies
    before and after the first occurrence; [None] is the index [-1]. *)
Fixpoint strings_Cut (s : string) (sep : ascii) : option (string * string) :=
  match s with
  | EmptyString => None
  | String c s' =>
      if Ascii.eqb c sep then Some (EmptyString, s')
      else
        match strings_Cut s' sep with
        | Some (a, b) => Some (String c a, b)
        | None => None
        end
  end.

(** [strings.Count(s, sep)] at a one-byte separator. *)
Fixpoint strings_Count (s : string) (sep : ascii) : nat :=
  match s with
  | EmptyString => 0
  | String c s' =>
      if Ascii.eqb c sep then S (strings_Count s' sep)
      else strings_Count s' sep
  end.

(** The loop of [genSplit]: at most [k] cuts, what is left is the last
    piece. *)
Fixpoint genSplit (k : nat) (s : string) (sep : ascii) : list string :=
  match k with
  | O => [s]
  | S k' =>
      match strings_Cut s sep with
      | None => [s]
      | Some (a, b) => a :: genSplit k' b sep
      end
  end.

(** [strings.SplitN(s, sep, n)] at a one-byte separator: nil for [n = 0],
    every piece for [n < 0], at most [n] pieces otherwise. *)
Definition strings_SplitN (s : string) (sep : ascii) (n : Z) : list string :=
  if n =? 0 then []
  else if n <? 0 then genSplit (strings_Count s sep) s sep
  else genSplit (Z.to_nat (n - 1)) s sep.

(** [strings.Split(s, sep)] is [SplitN(s, sep, -1)]. *)
Definition strings_Split (s : string) (sep : ascii) : list string :=
  strings_SplitN s sep (-1).

(** [strconv.Atoi]. *)
Class StrConv : Type := {
  strconv_Atoi : string -> Z * error
}.

(** ** A decimal instance of [strconv.Atoi]

    An optional sign and decimal digits; anything else is a syntax error,
    and a value outside the 64-bit [int] is a range error that carries the
    nearest bound.  The message quotes the input as Go prints it when the
    input is printable ASCII without quote or backslash. *)
Module decimal.

Definition quote : string := String (ascii_of_nat 34) EmptyString.

Definition syntaxError (s : string) : error :=
  Some ("strconv.Atoi: parsing " +:+ quote +:+ s +:+ quote
        +:+ ": invalid syntax")%string.

Definition rangeError (s : string) : error :=
  Some ("strconv.Atoi: parsing " +:+ quote +:+ s +:+ quote
        +:+ ": value out of range")%string.

(** The digits of [s] accumulated onto [acc]; [None] at a byte that is not
    a digit. *)
Fixpoint digits (s : string) (acc : Z) : option Z :=
  match s with
  | EmptyString => Some acc
  | String c s' =>
      let d := Z.of_nat (nat_of_ascii c) - 48 in
      if (0 <=? d) && (d <=? 9) then digits s' (acc * 10 + d) else None
  end.

Definition Atoi (s : string) : Z * error :=
  let '(neg, body) :=
    match s with
    | String c s' =>
        if Ascii.eqb c "-" then (true, s')
        else if Ascii.eqb c "+" then (false, s')
        else (false, s)
    | EmptyString => (false, s)
    end in
  match body with
  | EmptyString => (0, syntaxError s)
  | _ =>
      match digits body 0 with
      | None => (0, syntaxError s)
      | Some n =>
          if negb neg && (2 ^ 63 <=? n) then (2 ^ 63 - 1, rangeError s)
          else if neg && (2 ^ 63 <? n) then (- 2 ^ 63, rangeError s)
          else (if neg then - n else n, None)
      end
  end.

End decimal.

#[export] Instance decimalStrConv : StrConv :=
  {| strconv_Atoi := decimal.Atoi |}.

(* ===================================================================== *)
(** * Package protocol: the target of a transfer                          *)
(* ===================================================================== *)

Module target.

Section parse_target.
Context `{StrConv}.

Definition err_format : string :=
  "formato inválido; use IP:PORTA/arquivo ou @IP:PORTA/arquivo".

Definition err_no_port : string := "alvo sem porta".

(** [target[1:]] under [strings.HasPrefix(target, "@")]. *)
Definition strip_at (target : string) : string :=
  if strings_HasPrefix target "@" then
    match target with
    | String _ rest => rest
    | EmptyString => EmptyString
    end
  else target.

Definition ParseTarget (target : string) : string * Z * string * error :=
  let target := strip_at target in
  match strings_SplitN target "/" 2 with
  | [ipPort; path] =>
      match strings_Split ipPort ":" with
      | [host; portText] =>
          match strconv_Atoi portText with
          | (_, Some e) => (""%string, 0, ""%string, Some e)
          | (p, None) => (host, p, path, None)
          end
      | _ => (""%string, 0, ""%string, Some err_no_port)
      end
  | _ => (""%string, 0, ""%string, Some err_format)
  end.

End parse_target.

End target.

(* ===================================================================== *)
(** * Package clientudp                                                   *)
(* ===================================================================== *)

Module clientudp.

Section drop_policy.
Context `{RandSource}.

(** [DropPolicy]: the struct behind the pointer held by [Config.Drop]. *)
Record DropPolicy : Type := mkDropPolicy {
  rate : float;
  rnd : Rand;
  dropped : gset Z
}.

(** [NewDrop]: [None] is the nil policy. *)
Definition NewDrop (rate : float) (seed : Z) : option DropPolicy :=
  if PrimFloat.leb rate 0 then None
  else Some (mkDropPolicy rate (rand_New seed) ∅).

(** [ShouldDrop]: returns the decision and the policy after the call (the
    generator has advanced and the set may have grown). *)
Definition ShouldDrop (d : option DropPolicy) (seq : Z)
  : bool * option DropPolicy :=
  match d with
  | None => (false, None)
  | Some p =>
      if PrimFloat.leb (rate p) 0 then (false, d)
      else if decide (seq ∈ dropped p) then (false, d)
      else
        let '(x, r) := rand_Float64 (rnd p) in
        if PrimFloat.ltb x (rate p) then
          (true, Some (mkDropPolicy (rate p) r ({[seq]} ∪ dropped p)))
        else (false, Some (mkDropPolicy (rate p) r (dropped p)))
  end.

(** A session: [ShouldDrop] called on each sequence number in turn; the
    trace records every call with its answer. *)
Fixpoint drop_calls (d : option DropPolicy) (seqs : list Z)
  : list (Z * bool) * option DropPolicy :=
  match seqs with
  | [] => ([], d)
  | q :: rest =>
      let '(r, d') := ShouldDrop d q in
      let '(tr, d'') := drop_calls d' rest in
      ((q, r) :: tr, d'')
  end.

(** Number of calls on [s] that answered [true]. *)
Definition drops_of (s : Z) (tr : list (Z * bool)) : nat :=
  length (filter (fun c => c.1 = s /\ c.2 = true) tr).

Definition dropped_set (d : option DropPolicy) : gset Z :=
  match d with
  | None => ∅
  | Some p => dropped p
  end.

(** Which callbacks of [Callbacks] are non-nil.  The callbacks only
    observe; each invocation is recorded as an [event]. *)
Record Callbacks : Type := mkCallbacks {
  OnMeta : bool;
  OnProgress : bool;
  OnLog : bool;
  OnDone : bool
}.

Inductive log_msg : Type :=
| LogShortBuffer (seq have hdr size : Z)
| LogPayloadSize (seq size got : Z)
| LogDrop (seq : Z)
| LogCRC (seq expected computed size : Z)
| LogProgress (seq last : Z)
| LogText (msg : string).

Inductive event : Type :=
| EvLog (m : log_msg)
| EvProgress (bytes segs : Z)
| EvMeta (m : protocol.Meta.t)
| EvDone (out : string) (ok : bool).

Definition log (cb : Callbacks) (m : log_msg) : list event :=
  if OnLog cb then [EvLog m] else [].

(** [recvState]: the map and the two counters behind the pointers. *)
Record recvState : Type := mkRecvState {
  recv : gmap Z (list byte);
  bytesRecv : Z;  (* uint64 *)
  segsRecv : Z    (* uint64 *)
}.

(** [computeMissing]: the loop counter is a [uint32] below [total]. *)
Definition computeMissing (total : Z) (recv : gmap Z (list byte)) : list Z :=
  filter (fun i => recv !! i = None) (seqZ 0 total).

(** [processPacket].  The datagram arrives as a slice of the receive buffer;
    the result carries the EOF flag, the drop policy and the receive state
    after the call, and the callbacks invoked. *)
Definition processPacket (b : slice) (drop : option DropPolicy)
  (cb : Callbacks) (st : recvState)
  : outcome (bool * option DropPolicy * recvState * list event) :=
  if protocol.IsCtrl (visible b) then
    '(typ, _, err) ← protocol.DecodeCtrl (visible b);
    match err with
    | None => Ret (String.eqb typ protocol.TypeEOF, drop, st, [])
    | Some _ => Ret (false, drop, st, [])
    end
  else
    hb ← reslice_to b protocol.HeaderSize;
    '(h, err) ← protocol.UnpackHeader (visible hb);
    match err with
    | Some _ => Ret (false, drop, st, [])
    | None =>
        payload ← reslice_from b protocol.HeaderSize;
        let size := protocol.DataHeader.Size h in
        let seq := protocol.DataHeader.Seq h in
        if slice_len b <? protocol.HeaderSize + size then
          Ret (false, drop, st,
               log cb (LogShortBuffer seq (slice_len b) protocol.HeaderSize size))
        else
          payload ← reslice b protocol.HeaderSize (protocol.HeaderSize + size);
          if negb (slice_len payload =? size) then
            Ret (false, drop, st,
                 log cb (LogPayloadSize seq size (slice_len payload)))
          else
            let '(dropit, drop') :=
              match drop with
              | None => (false, drop)
              | Some _ => ShouldDrop drop seq
              end in
            if dropit then Ret (false, drop', st, log cb (LogDrop seq))
            else
              let computedCRC32 := protocol.CRC32 (visible payload) in
              if negb (computedCRC32 =? protocol.DataHeader.CRC32 h) then
                Ret (false, drop', st,
                     log cb (LogCRC seq (protocol.DataHeader.CRC32 h)
                                    computedCRC32 (slice_len payload)))
              else
                match recv st !! seq with
                | Some _ => Ret (false, drop', st, [])
                | None =>
                    let st' :=
                      mkRecvState
                        (<[seq := visible payload]> (recv st))
                        (uint64 (bytesRecv st + uint64 (slice_len payload)))
                        (uint64 (segsRecv st + 1)) in
                    Ret (false, drop', st',
                         (if OnLog cb && (seq mod 500 =? 0) then
                            [EvLog (LogProgress seq
                               (uint32 (protocol.DataHeader.Total h - 1)))]
                          else [])
                         ++ (if OnProgress cb then
                               [EvProgress (bytesRecv st') (segsRecv st')]
                             else []))
                end
    end.

(** The slice [buf[:n]] that a receive loop hands to [processPacket]: the
    datagram, cut to the buffer size, with the untouched zero bytes of the
    freshly made buffer behind it. *)
Definition read_into (bufsize : Z) (dgram : list byte) : slice :=
  let got := take (Z.to_nat bufsize) dgram in
  mkSlice got (make (bufsize - len got)).

Definition data_bufsize : Z := protocol.HeaderSize + config.ChunkSize.

(** States of the receive map and counters that a transfer can be in: the
    empty state made by [receiveData], and whatever [processPacket] turns a
    reachable state into. *)
Inductive reachable : recvState -> Prop :=
| reachable_init : reachable (mkRecvState ∅ 0 0)
| reachable_step (st st' : recvState) (b : slice) (drop drop' : option DropPolicy)
    (cb : Callbacks) (eof : bool) (evs : list event) :
    reachable st ->
    processPacket b drop cb st = Ret (eof, drop', st', evs) ->
    reachable st'.

(** ** The connection and the rest of the environment

    What the network, the cancel channel and the clock will do is given in
    advance as scripts; every call consumes the head of its script. *)

Inductive read_result : Type :=
| ReadErr                     (* the read deadline expired *)
| ReadOk (d : list byte).     (* a datagram *)

Record Conn : Type := mkConn {
  inbox : list read_result;   (* coming [ReadFromUDP] results; silence after *)
  write_errs : list error;    (* coming [Write] results; success after *)
  cancels : list bool;        (* coming polls of [Cancel]; not cancelled after *)
  clock : list bool;          (* coming [time.Now().Before(d)]; expired after *)
  outbox : list (list byte)   (* datagrams written so far, oldest first *)
}.

Definition conn_Write (d : list byte) (c : Conn) : error * Conn :=
  match write_errs c with
  | Some e :: rest =>
      (Some e, mkConn (inbox c) rest (cancels c) (clock c) (outbox c))
  | None :: rest =>
      (None, mkConn (inbox c) rest (cancels c) (clock c) (outbox c ++ [d]))
  | [] =>
      (None, mkConn (inbox c) [] (cancels c) (clock c) (outbox c ++ [d]))
  end.

Definition conn_Read (c : Conn) : read_result * Conn :=
  match inbox c with
  | r :: rest =>
      (r, mkConn rest (write_errs c) (cancels c) (clock c) (outbox c))
  | [] => (ReadErr, c)
  end.

(** [select { case <-cfg.Cancel: ...; default: }]; a nil channel never
    fires. *)
Definition poll_Cancel (chan : bool) (c : Conn) : bool * Conn :=
  if chan then
    match cancels c with
    | x :: rest =>
        (x, mkConn (inbox c) (write_errs c) rest (clock c) (outbox c))
    | [] => (false, c)
    end
  else (false, c).

Definition before_deadline (c : Conn) : bool * Conn :=
  match clock c with
  | x :: rest =>
      (x, mkConn (inbox c) (write_errs c) (cancels c) rest (outbox c))
  | [] => (false, c)
  end.

(** [Config], without the drop policy, whose state is threaded apart. *)
Record Config : Type := mkConfig {
  Host : string;
  Port : Z;
  Path : string;
  Timeout : Z;
  Retries : Z;         (* int *)
  OutputPath : string;
  Cancel : bool        (* whether the channel is non-nil *)
}.

(** Result of a client routine: a value, a runtime fault, or a loop of the
    model that ran out of its iteration budget. *)
Inductive run (A : Type) : Type :=
| Done (a : A)
| Fault
| OutOfFuel.
Global Arguments Done {A} a.
Global Arguments Fault {A}.
Global Arguments OutOfFuel {A}.

Definition err_canceled : string := "transferência cancelada".
Definition err_meta_exhausted : string :=
  "falha ao obter META: tentativas esgotadas".
Definition err_no_data : string := "timeout aguardando dados iniciais".
Definition err_incomplete : string :=
  "esgotado retries de NACK; arquivo incompleto".

(** *** Phase 1: [sendREQAndGetMeta] *)

Inductive wait_result : Type :=
| WaitMeta (m : protocol.Meta.t)
| WaitErr (msg : string)
| WaitCanceled
| WaitTimeout.

(** The inner [for] of [sendREQAndGetMeta]: one attempt's wait. *)
Fixpoint awaitMeta (fuel : nat) (cfg : Config) (cb : Callbacks) (try : Z)
  (c : Conn) (evs : list event) : run (wait_result * Conn * list event) :=
  match fuel with
  | O => OutOfFuel
  | S fuel' =>
      let '(canceled, c) := poll_Cancel (Cancel cfg) c in
      if canceled then Done (WaitCanceled, c, evs)
      else
        let '(r, c) := conn_Read c in
        match r with
        | ReadErr =>
            Done (WaitTimeout, c,
                  evs ++ log cb (LogText "WARN: Timeout aguardando META"))
        | ReadOk d =>
            let b := take (Z.to_nat 4096) d in
            if negb (protocol.IsCtrl b) then awaitMeta fuel' cfg cb try c evs
            else
              match protocol.DecodeCtrl b with
              | Panic => Fault
              | Ret (_, _, Some _) => awaitMeta fuel' cfg cb try c evs
              | Ret (typ, val, None) =>
                  if String.eqb typ protocol.TypeMETA then
                    match val with
                    | protocol.any_Meta m =>
                        Done (WaitMeta m, c,
                              evs ++ (if OnMeta cb then [EvMeta m] else []))
                    | _ => Fault  (* failed type assertion *)
                    end
                  else if String.eqb typ protocol.TypeERR then
                    match val with
                    | protocol.any_ErrMsg er =>
                        Done (WaitErr (protocol.Message er), c,
                              evs ++ log cb
                                (LogText "ERRO: Servidor respondeu ERR"))
                    | _ => Fault  (* failed type assertion *)
                    end
                  else awaitMeta fuel' cfg cb try c evs
              end
        end
  end.

(** The outer [for try := 1; try <= attempts; try++], by the number [n] of
    iterations still to run. *)
Fixpoint requestLoop (n : nat) (cfg : Config) (cb : Callbacks) (try : Z)
  (c : Conn) (evs : list event)
  : run (protocol.Meta.t * error * Conn * list event) :=
  match n with
  | O => Done (protocol.Meta.zero, Some err_meta_exhausted, c, evs)
  | S n' =>
      let evs := evs ++ log cb (LogText "STATUS: Enviando REQ") in
      let '(werr, c) := conn_Write (protocol.CtrlREQ (Path cfg)) c in
      match werr with
      | Some e => Done (protocol.Meta.zero, Some e, c, evs)
      | None =>
          match awaitMeta (S (length (inbox c))) cfg cb try c evs with
          | Done (WaitMeta m, c, evs) => Done (m, None, c, evs)
          | Done (WaitErr msg, c, evs) =>
              Done (protocol.Meta.zero, Some msg, c, evs)
          | Done (WaitCanceled, c, evs) =>
              Done (protocol.Meta.zero, Some err_canceled, c, evs)
          | Done (WaitTimeout, c, evs) => requestLoop n' cfg cb (try + 1) c evs
          | Fault => Fault
          | OutOfFuel => OutOfFuel
          end
      end
  end.

(** [attempts := cfg.Retries; if attempts <= 0 { attempts = 3 }], and the
    same for [maxRounds] in [receiveData]. *)
Definition effective_retries (cfg : Config) : Z :=
  if Retries cfg <=? 0 then 3 else Retries cfg.

Definition sendREQAndGetMeta (cfg : Config) (cb : Callbacks) (c : Conn)
  (evs : list event) : run (protocol.Meta.t * error * Conn * list event) :=
  let attempts := effective_retries cfg in
  let evs := evs ++ log cb (LogText "STATUS: Solicitando META") in
  requestLoop (Z.to_nat attempts) cfg cb 1 c evs.

(** *** Phases 2 and 3: [receiveData] *)

(** The mutable state of the receive phases. *)
Record Client : Type := mkClient {
  conn : Conn;
  policy : option DropPolicy;
  rst : recvState;
  events : list event
}.

(** [processPacket(buf[:n], ...)] on a datagram read into a fresh buffer. *)
Definition process (d : list byte) (cb : Callbacks) (cl : Client)
  : run (bool * Client) :=
  match processPacket (read_into data_bufsize d) (policy cl) cb (rst cl) with
  | Panic => Fault
  | Ret (eof, dp, st, evs) =>
      Done (eof, mkClient (conn cl) dp st (events cl ++ evs))
  end.

Definition with_conn (cl : Client) (c : Conn) : Client :=
  mkClient c (policy cl) (rst cl) (events cl).

Definition add_log (cb : Callbacks) (m : log_msg) (cl : Client) : Client :=
  mkClient (conn cl) (policy cl) (rst cl) (events cl ++ log cb m).

(** The loop of [receiveUntilIdleOrEOF], entered with [eof = false]. *)
Fixpoint initialLoop (fuel : nat) (cfg : Config) (cb : Callbacks)
  (maxIdleIncreased idleCount : Z) (cl : Client)
  : run (bool * error * Client) :=
  match fuel with
  | O => OutOfFuel
  | S fuel' =>
      let '(canceled, c) := poll_Cancel (Cancel cfg) (conn cl) in
      let cl := with_conn cl c in
      if canceled then Done (false, Some err_canceled, cl)
      else
        let '(r, c) := conn_Read (conn cl) in
        let cl := with_conn cl c in
        match r with
        | ReadErr =>
            let idleCount := idleCount + 1 in
            let cl :=
              if idleCount mod 5 =? 0 then
                add_log cb (LogText "Timeout durante recepção inicial") cl
              else cl in
            if (0 <? Z.of_nat (size (recv (rst cl))))
               && (maxIdleIncreased <=? idleCount) then
              Done (false, None,
                    add_log cb
                      (LogText "STATUS: Ociosidade detectada; iniciando NACK") cl)
            else if maxIdleIncreased <? idleCount then
              Done (false, Some err_no_data, cl)
            else initialLoop fuel' cfg cb maxIdleIncreased idleCount cl
        | ReadOk d =>
            match process d cb cl with
            | Done (true, cl) => Done (true, None, cl)
            | Done (false, cl) =>
                initialLoop fuel' cfg cb maxIdleIncreased 0 cl
            | Fault => Fault
            | OutOfFuel => OutOfFuel
            end
        end
  end.

Definition receiveUntilIdleOrEOF (cfg : Config) (cb : Callbacks)
  (cl : Client) (maxIdle : Z) : run (bool * error * Client) :=
  let cl := add_log cb (LogText "STATUS: Recebendo dados iniciais") cl in
  let maxIdleIncreased := maxIdle * 3 in
  initialLoop (length (inbox (conn cl)) + Z.to_nat maxIdleIncreased + 2)
    cfg cb maxIdleIncreased 0 cl.

(** The inner [for time.Now().Before(retransmissionDeadline)] of one NACK
    round. *)
Fixpoint retransmissionLoop (fuel : nat) (cfg : Config) (cb : Callbacks)
  (received : bool) (cl : Client) : run (bool * error * Client) :=
  match fuel with
  | O => OutOfFuel
  | S fuel' =>
      let '(before, c) := before_deadline (conn cl) in
      let cl := with_conn cl c in
      if negb before then Done (received, None, cl)
      else
        let '(canceled, c) := poll_Cancel (Cancel cfg) (conn cl) in
        let cl := with_conn cl c in
        if canceled then Done (received, Some err_canceled, cl)
        else
          let '(r, c) := conn_Read (conn cl) in
          let cl := with_conn cl c in
          match r with
          | ReadErr => retransmissionLoop fuel' cfg cb received cl
          | ReadOk d =>
              match process d cb cl with
              | Done (true, cl) => retransmissionLoop fuel' cfg cb received cl
              | Done (false, cl) => retransmissionLoop fuel' cfg cb true cl
              | Fault => Fault
              | OutOfFuel => OutOfFuel
              end
          end
  end.

(** [runNackRounds], from the log line of a round to the NACK it writes.
    With a log callback and more than 20 missing sequences the displayed
    list is [append(missing[:10], missing[len(missing)-10:]...)].  The
    slice [missing[:10]] keeps the capacity of [missing], which is at least
    its length, so [append] allocates nothing and writes the last ten
    entries over [missing[10:20]]: the displayed list and [missing] share
    one backing array.  The result is the displayed list and [missing] as
    it is afterwards, when [CtrlNACK] encodes it. *)
Definition display_missing (cb : Callbacks) (missing : list Z)
  : list Z * list Z :=
  if OnLog cb && (20 <? len missing) then
    let last10 := drop (length missing - 10) missing in
    let backing := list_inserts 10 last10 missing in
    (take 20 backing, backing)
  else (missing, missing).

Definition nack_written (cb : Callbacks) (missing : list Z) : list byte :=
  protocol.CtrlNACK (display_missing cb missing).2.

(** The outer [for] of [runNackRounds]; [fuel] bounds its iterations.  The
    NACK is encoded from [missing] as the log line has left it. *)
Fixpoint nackLoop (fuel : nat) (meta : protocol.Meta.t) (cfg : Config)
  (cb : Callbacks) (maxRounds rounds : Z) (cl : Client) : run (error * Client) :=
  match fuel with
  | O => OutOfFuel
  | S fuel' =>
      let '(canceled, c) := poll_Cancel (Cancel cfg) (conn cl) in
      let cl := with_conn cl c in
      if canceled then Done (Some err_canceled, cl)
      else
        let missing := computeMissing (protocol.Meta.Total meta) (recv (rst cl)) in
        if len missing =? 0 then Done (None, cl)
        else if maxRounds <=? rounds then
          Done (Some err_incomplete,
                add_log cb (LogText "ERRO: esgotado retries de NACK") cl)
        else
          let cl := add_log cb (LogText "STATUS: NACK round") cl in
          let '(_, c) := conn_Write (nack_written cb missing) (conn cl) in
          let cl := with_conn cl c in
          let rounds := rounds + 1 in
          match retransmissionLoop (S (length (clock (conn cl)))) cfg cb false cl
          with
          | Done (_, Some e, cl) => Done (Some e, cl)
          | Done (received, None, cl) =>
              let finalMissing :=
                len (computeMissing (protocol.Meta.Total meta) (recv (rst cl))) in
              let recovered := len missing - finalMissing in
              let cl :=
                if 0 <? recovered then add_log cb (LogText "NACK round: recuperados") cl
                else if negb received then
                  add_log cb (LogText "AVISO: nenhuma retransmissão recebida") cl
                else cl in
              nackLoop fuel' meta cfg cb maxRounds rounds cl
          | Fault => Fault
          | OutOfFuel => OutOfFuel
          end
  end.

Definition runNackRounds (meta : protocol.Meta.t) (cfg : Config)
  (cb : Callbacks) (cl : Client) (maxRounds : Z) : run (error * Client) :=
  nackLoop (S (Z.to_nat maxRounds)) meta cfg cb maxRounds 0 cl.

Definition receiveData (meta : protocol.Meta.t) (cfg : Config) (cb : Callbacks)
  (c : Conn) (dp : option DropPolicy) (evs : list event)
  : run (error * Client) :=
  let cl := mkClient c dp (mkRecvState ∅ 0 0) evs in
  let maxRounds := effective_retries cfg in
  match receiveUntilIdleOrEOF cfg cb cl maxRounds with
  | Done (_, Some e, cl) => Done (Some e, cl)
  | Done (_, None, cl) => runNackRounds meta cfg cb cl maxRounds
  | Fault => Fault
  | OutOfFuel => OutOfFuel
  end.

(** Iterations that the loop of [receiveUntilIdleOrEOF] can still make:
    one per scripted read, then timeouts up to the idle threshold. *)
Definition idle_budget (M idle : Z) (c : Conn) : Z :=
  Z.of_nat (length (inbox c))
  + Z.max 1 (M + 2 - match inbox c with [] => idle | _ => 0 end).

(** Number of frames of a given control type among written datagrams. *)
Definition is_frame_of (t : Z) (d : list byte) : bool :=
  match protocol.parseCtrl d with
  | Ret (t', _, None) => t' =? t
  | _ => false
  end.

Definition count_frames (t : Z) (out : list (list byte)) : nat :=
  length (filter (fun d => is_frame_of t d = true) out).

(** The DATA frame that the server builds for one chunk. *)
Definition data_frame (seq total : Z) (chunk : list byte) : list byte :=
  protocol.PackHeader
    (protocol.DataHeader.mk seq total (uint16 (len chunk)) (protocol.CRC32 chunk))
  ++ chunk.

(** A two-chunk transfer of which only the first chunk ever arrives. *)
Definition meta_two_chunks : protocol.Meta.t :=
  protocol.Meta.mk "test.bin" 2 6 frames.sha_of_empty 1024.

Definition first_chunk_only : Conn :=
  mkConn [ReadOk (data_frame 0 2 (bytes_of_string "abc"))] [] [] [] [].

(** A silent connection: nothing arrives, nothing fails, nobody cancels. *)
Definition silent : Conn := mkConn [] [] [] [] [].

(** A connection on which no datagram ever arrives, every write succeeds
    and the cancel channel never fires. *)
Definition quiet (c : Conn) : Prop :=
  Forall (eq ReadErr) (inbox c)
  /\ Forall (eq None) (write_errs c)
  /\ Forall (eq false) (cancels c).

Definition writes_succeed (c : Conn) : Prop := Forall (eq None) (write_errs c).

Definition config_with_retries (r : Z) : Config :=
  mkConfig "127.0.0.1" 19000 "test.bin" 2000000000 r "" false.

(** Total number of payload bytes held in the map. *)
Definition stored_bytes (m : gmap Z (list byte)) : Z :=
  map_fold (fun _ v acc => acc + len v) 0 m.

(** The counters say exactly what the map holds. *)
Definition counters_exact (st : recvState) : Prop :=
  segsRecv st = Z.of_nat (size (recv st))
  /\ bytesRecv st = stored_bytes (recv st)
  /\ map_Forall (fun k v => is_uint32 k /\ len v <= 65535) (recv st).

(** The bytes that [processPacket] parses as the header, [b[:18]], and
    the payload it cuts out once the length check has passed. *)
Definition header_bytes (b : slice) : list byte :=
  take (Z.to_nat protocol.HeaderSize) (visible b ++ spare b).

Definition payload_bytes (b : slice) (h : protocol.DataHeader.t) : list byte :=
  take (Z.to_nat (protocol.DataHeader.Size h))
       (drop (Z.to_nat protocol.HeaderSize) (visible b)).

(** The decision of the drop policy on a sequence number, as
    [processPacket] consults it. *)
Definition drop_selected (drop : option DropPolicy) (seq : Z) : bool :=
  match drop with
  | None => false
  | Some _ => (ShouldDrop drop seq).1
  end.

(** The conditions under which [processPacket] stores a payload. *)
Definition accepted (b : slice) (drop : option DropPolicy) (st : recvState)
  (h : protocol.DataHeader.t) : Prop :=
  protocol.UnpackHeader (header_bytes b) = Ret (h, None)
  /\ protocol.HeaderSize + protocol.DataHeader.Size h <= slice_len b
  /\ drop_selected drop (protocol.DataHeader.Seq h) = false
  /\ protocol.CRC32 (payload_bytes b h) = protocol.DataHeader.CRC32 h
  /\ recv st !! protocol.DataHeader.Seq h = None.

(** A well-formed DATA frame: chunk 0 of 1, payload [abc]. *)
Definition sample_payload : list byte := bytes_of_string "abc".

Definition sample_frame : list byte :=
  protocol.PackHeader
    (protocol.DataHeader.mk 0 1 (len sample_payload)
       (protocol.CRC32 sample_payload))
  ++ sample_payload.

(** A DATA frame that declares three payload bytes and carries seven: the
    header of [sample_frame], with the CRC32 of [abc], before [abcdefg]. *)
Definition long_payload : list byte := bytes_of_string "abcdefg".

Definition long_frame : list byte :=
  protocol.PackHeader
    (protocol.DataHeader.mk 0 1 (len sample_payload)
       (protocol.CRC32 sample_payload))
  ++ long_payload.

Definition no_callbacks : Callbacks := mkCallbacks false false false false.

(** A three-byte datagram that starts like a DATA frame. *)
Definition short_datagram : list byte :=
  ["U"%char; "D"%char; byte_of_Z config.ProtocolVersion].

(** [ListFiles], on the connection that [net.DialUDP] returned. *)
Definition err_read : string := "i/o timeout".

Definition ListFiles (c : Conn) : outcome (list string * error * Conn) :=
  let '(werr, c) := conn_Write protocol.CtrlLIST c in
  match werr with
  | Some e => Ret ([], Some e, c)
  | None =>
      let '(r, c) := conn_Read c in
      match r with
      | ReadErr => Ret ([], Some err_read, c)
      | ReadOk d =>
          let b := take (Z.to_nat 4096) d in
          if negb (protocol.IsCtrl b) then
            Ret ([], Some "resposta não é controle"%string, c)
          else
            '(typ, v, e) ← protocol.DecodeCtrl b;
            match e with
            | Some _ => Ret ([], e, c)
            | None =>
                if negb (String.eqb typ protocol.TypeLST) then
                  Ret ([], Some "resposta inesperada"%string, c)
                else
                  match v with
                  | protocol.any_Lst lst => Ret (protocol.Names lst, None, c)
                  | _ => Panic  (* failed type assertion *)
                  end
            end
      end
  end.

End drop_policy.

(** *** Phase 4: [assembleAndVerify] *)

Section assembly.
Context `{PathLib} `{FileSystem}.

Definition err_incomplete_file (n : Z) : string :=
  "arquivo incompleto: faltam " +:+ pretty n +:+ " segmentos".

Definition err_sha_mismatch (expected got saved : string) : string :=
  "sha256 mismatch: esperado " +:+ expected +:+ " obtido " +:+ got
  +:+ " (salvo como " +:+ saved +:+ ")".

(** [chunks[i] = recv[i]] for [i] below [total]; an absent key reads as the
    nil slice. *)
Definition ordered_chunks (total : Z) (recv : gmap Z (list byte))
  : list (list byte) :=
  map (fun i => default [] (recv !! i)) (seqZ 0 total).

(** The loop [for i := ...; f.Write(chunks[i])], stopping at the first
    error. *)
Fixpoint write_chunks (path : string) (chunks : list (list byte)) (w : World)
  : error * World :=
  match chunks with
  | [] => (None, w)
  | c :: rest =>
      match os_Write path c w with
      | (Some e, w') => (Some e, w')
      | (None, w') => write_chunks path rest w'
      end
  end.

(** The output path before the [.corrupt] suffix is decided. *)
Definition resolve_output (meta : protocol.Meta.t) (outputPath : string)
  : string :=
  if String.eqb (strings_TrimSpace outputPath) "" then
    "recv_" +:+ filepath_Base (protocol.Meta.Filename meta)
  else outputPath.

Definition assembleAndVerify (meta : protocol.Meta.t)
  (recv : gmap Z (list byte)) (outputPath : string) (w : World)
  : (string * bool * error) * World :=
  let miss := computeMissing (protocol.Meta.Total meta) recv in
  if 0 <? len miss then
    ((""%string, false, Some (err_incomplete_file (len miss))), w)
  else
    let chunks := ordered_chunks (protocol.Meta.Total meta) recv in
    let computed := protocol.SHA256FileChunks chunks in
    let matches := String.eqb computed (protocol.Meta.SHA256 meta) in
    let baseOut := resolve_output meta outputPath in
    match os_MkdirAll (filepath_Dir baseOut) w with
    | (Some e, w) => ((""%string, false, Some e), w)
    | (None, w) =>
        let finalPath := if matches then baseOut else baseOut +:+ ".corrupt" in
        let mismatchErr :=
          if matches then None
          else Some (err_sha_mismatch (protocol.Meta.SHA256 meta) computed
                       (filepath_Base finalPath)) in
        match os_Create finalPath w with
        | (Some e, w) => ((""%string, false, Some e), w)
        | (None, w) =>
            match write_chunks finalPath chunks w with
            | (Some e, w) => ((""%string, false, Some e), w)
            | (None, w) =>
                match mismatchErr with
                | Some e => ((finalPath, false, Some e), w)
                | None => ((finalPath, true, None), w)
                end
            end
        end
    end.

End assembly.

(** *** The whole transfer: [transferOnce] and [RunTransfer] *)

Section transfer.
Context `{RandSource} `{PathLib} `{FileSystem}.

(** What [net.ResolveUDPAddr] and [net.DialUDP] come back with. *)
Inductive dialed : Type :=
| DialErr (e : string)
| DialOk (c : Conn).

(** The three results of [transferOnce], with the file system, the
    callbacks invoked and the datagrams written by the time it returns. *)
Record transferred : Type := mkTransferred {
  out : string;
  ok : bool;
  err : error;
  world : World;
  seen : list event;
  written : list (list byte)
}.

Definition transferOnce (cfg : Config) (dp : option DropPolicy)
  (cb : Callbacks) (net : dialed) (w : World) : run transferred :=
  match net with
  | DialErr e => Done (mkTransferred "" false (Some e) w [] [])
  | DialOk c =>
      match sendREQAndGetMeta cfg cb c [] with
      | Done (_, Some e, c, evs) =>
          Done (mkTransferred "" false (Some e) w evs (outbox c))
      | Done (meta, None, c, evs) =>
          match receiveData meta cfg cb c dp evs with
          | Done (Some e, cl) =>
              Done (mkTransferred "" false (Some e) w (events cl)
                      (outbox (conn cl)))
          | Done (None, cl) =>
              let '((out, ok, err), w) :=
                assembleAndVerify meta (recv (rst cl)) (OutputPath cfg) w in
              Done (mkTransferred out ok err w (events cl) (outbox (conn cl)))
          | Fault => Fault
          | OutOfFuel => OutOfFuel
          end
      | Fault => Fault
      | OutOfFuel => OutOfFuel
      end
  end.

Definition RunTransfer (cfg : Config) (dp : option DropPolicy)
  (cb : Callbacks) (net : dialed) (w : World) : run transferred :=
  match transferOnce cfg dp cb net w with
  | Done r =>
      let evs := seen r in
      let evs :=
        match err r with
        | Some e => evs ++ log cb (LogText ("ERRO: " +:+ e))
        | None => evs
        end in
      let evs :=
        if OnLog cb && negb (String.eqb (strings_TrimSpace (out r)) "") then
          match os_Stat (out r) (world r) with
          | Some st =>
              evs ++ [EvLog (LogText
                        ("STATUS: Arquivo salvo: " +:+ out r +:+ " ("
                         +:+ pretty (FileSize st) +:+ " bytes) verificado="
                         +:+ (if ok r then "true" else "false")))]
          | None => evs
          end
        else evs in
      let evs := evs ++ log cb (LogText "SUCCESS: Transferência finalizada") in
      let evs := evs ++ (if OnDone cb then [EvDone (out r) (ok r)] else []) in
      Done (mkTransferred (out r) (ok r) (err r) (world r) evs (written r))
  | Fault => Fault
  | OutOfFuel => OutOfFuel
  end.

End transfer.

End clientudp.

(* ===================================================================== *)
(** * Package serverudp                                                   *)
(* ===================================================================== *)

Module serverudp.

Section server.
Context `{PathLib} `{FileSystem}.

Record fileEntry : Type := mkFileEntry {
  meta : protocol.Meta.t;
  chunks : list (list byte)
}.

Record Metrics : Type := mkMetrics {
  BytesSent : Z;        (* uint64 *)
  SegmentsSent : Z;     (* uint64 *)
  NacksReceived : Z;    (* uint64 *)
  Retransmissions : Z;  (* uint64 *)
  ActiveClients : Z     (* int64 *)
}.

(** The package-level variables, and the datagrams written to the socket
    (peer address and bytes, oldest first) with the log lines. *)
Record Server : Type := mkServer {
  activeTransfers : gmap string fileEntry;
  mtr : Metrics;
  baseDir : string;
  sent : list (string * list byte);
  logged : list string
}.

(** [conn.WriteToUDP(b, addr)]; a datagram write is taken to succeed and
    to report the full length. *)
Definition WriteToUDP (b : list byte) (addr : string) (s : Server)
  : Z * Server :=
  (len b,
   mkServer (activeTransfers s) (mtr s) (baseDir s) (sent s ++ [(addr, b)])
            (logged s)).

Definition logAppend (line : string) (s : Server) : Server :=
  mkServer (activeTransfers s) (mtr s) (baseDir s) (sent s) (logged s ++ [line]).

Definition with_mtr (s : Server) (m : Metrics) : Server :=
  mkServer (activeTransfers s) m (baseDir s) (sent s) (logged s).

(** The read loop of [loadFile]: slices of at most [ChunkSize] bytes. *)
Fixpoint read_chunks (fuel : nat) (content : list byte) : list (list byte) :=
  match fuel with
  | O => []
  | S fuel' =>
      match content with
      | [] => []
      | _ =>
          take (Z.to_nat config.ChunkSize) content
          :: read_chunks fuel' (drop (Z.to_nat config.ChunkSize) content)
      end
  end.

Definition loadFile (path : string) (w : World) : option fileEntry * error :=
  match os_Stat path w with
  | None => (None, Some "stat"%string)
  | Some st =>
      if IsDir st then (None, Some "é diretório"%string)
      else
        match os_ReadFile path w with
        | None => (None, Some "open"%string)
        | Some content =>
            let chunks := read_chunks (length content) content in
            let sha := protocol.SHA256FileChunks chunks in
            let meta :=
              protocol.Meta.mk (filepath_Base path) (uint32 (len chunks))
                (FileSize st) sha config.ChunkSize in
            (Some (mkFileEntry meta chunks), None)
        end
  end.

(** The loop of [handleREQ] over the chunks, from index [i]. *)
Fixpoint send_chunks (addr : string) (total : Z) (i : Z)
  (chunks : list (list byte)) (s : Server) : Server :=
  match chunks with
  | [] => s
  | chunk :: rest =>
      let h := protocol.DataHeader.mk (uint32 i) (uint32 total)
                 (uint16 (len chunk)) (protocol.CRC32 chunk) in
      let pkt := protocol.PackHeader h ++ chunk in
      let '(n, s) := WriteToUDP pkt addr s in
      let m := mtr s in
      let s := with_mtr s
                 (mkMetrics (uint64 (BytesSent m + uint64 n))
                    (uint64 (SegmentsSent m + 1)) (NacksReceived m)
                    (Retransmissions m) (ActiveClients m)) in
      send_chunks addr total (i + 1) rest s
  end.

Definition add_active (delta : Z) (s : Server) : Server :=
  let m := mtr s in
  with_mtr s (mkMetrics (BytesSent m) (SegmentsSent m) (NacksReceived m)
                (Retransmissions m) (int64 (ActiveClients m + delta))).

Definition handleREQ (addr : string) (req : protocol.Req) (w : World)
  (s : Server) : Server :=
  let safe := filepath_Clean (protocol.Path req) in
  if String.eqb safe "." || String.eqb safe ".."
     || strings_HasPrefix safe ".." then
    (WriteToUDP (protocol.CtrlERR "caminho inválido") addr s).2
  else
    let targetPath := filepath_Join (baseDir s) safe in
    match loadFile targetPath w with
    | (Some entry, None) =>
        let s := mkServer (<[addr := entry]> (activeTransfers s)) (mtr s)
                   (baseDir s) (sent s) (logged s) in
        let s := add_active 1 s in
        let s := (WriteToUDP (protocol.CtrlMETA (meta entry)) addr s).2 in
        let s := logAppend "META ->" s in
        let s := send_chunks addr (len (chunks entry)) 0 (chunks entry) s in
        let s := (WriteToUDP protocol.CtrlEOF addr s).2 in
        let s := logAppend "EOF ->" s in
        add_active (-1) s
    | _ =>
        (WriteToUDP (protocol.CtrlERR "arquivo não encontrado") addr s).2
    end.

(** The cleaned paths that pass the test at the head of [handleREQ]. *)
Definition path_allowed (safe : string) : Prop :=
  safe <> "."%string /\ safe <> ".."%string
  /\ strings_HasPrefix safe ".." = false.

(** The DATA datagrams that [send_chunks] writes for the chunks of a file,
    numbered from [i]. *)
Fixpoint data_frames (total : Z) (i : Z) (chunks : list (list byte))
  : list (list byte) :=
  match chunks with
  | [] => []
  | chunk :: rest =>
      (protocol.PackHeader
         (protocol.DataHeader.mk (uint32 i) (uint32 total)
            (uint16 (len chunk)) (protocol.CRC32 chunk))
       ++ chunk)
      :: data_frames total (i + 1) rest
  end.

(** The loop of [handleNACK] over the requested sequences ([seq] is a
    [uint32]).  [entry.chunks[seq]] is an index expression, guarded by the
    comparison before it. *)
Fixpoint resend_chunks (addr : string) (chunks : list (list byte))
  (missing : list Z) (s : Server) : outcome Server :=
  match missing with
  | [] => Ret s
  | seq :: rest =>
      if seq <? len chunks then
        chunk ← index chunks seq;
        let h := protocol.DataHeader.mk (uint32 seq) (uint32 (len chunks))
                   (uint16 (len chunk)) (protocol.CRC32 chunk) in
        let pkt := protocol.PackHeader h ++ chunk in
        let '(n, s) := WriteToUDP pkt addr s in
        let m := mtr s in
        let s := with_mtr s
                   (mkMetrics (uint64 (BytesSent m + uint64 n)) (SegmentsSent m)
                      (NacksReceived m) (uint64 (Retransmissions m + 1))
                      (ActiveClients m)) in
        resend_chunks addr chunks rest s
      else resend_chunks addr chunks rest s
  end.

Definition handleNACK (addr : string) (nack : protocol.Nack) (s : Server)
  : outcome Server :=
  let m := mtr s in
  let s := with_mtr s
             (mkMetrics (BytesSent m) (SegmentsSent m)
                (uint64 (NacksReceived m + 1)) (Retransmissions m)
                (ActiveClients m)) in
  match activeTransfers s !! addr with
  | None => Ret s
  | Some entry => resend_chunks addr (chunks entry) (protocol.Missing nack) s
  end.

(** A goroutine started by [dispatchCtrl]. *)
Inductive task : Type :=
| go_handleREQ (addr : string) (r : protocol.Req)
| go_handleNACK (addr : string) (n : protocol.Nack).

(** [dispatchCtrl]; [logging] says whether [logAppend] is non-nil.  The
    result carries the goroutine that was started, if any. *)
Definition dispatchCtrl (addr : string) (b : list byte) (logging : bool)
  (w : World) (s : Server) : outcome (Server * option task) :=
  '(typ, v, err) ← protocol.DecodeCtrl b;
  match err with
  | Some _ => Ret (s, None)
  | None =>
      if String.eqb typ protocol.TypeREQ then
        match v with
        | protocol.any_Req r => Ret (s, Some (go_handleREQ addr r))
        | _ => Panic  (* failed type assertion *)
        end
      else if String.eqb typ protocol.TypeNACK then
        match v with
        | protocol.any_Nack n =>
            let s :=
              if logging then
                logAppend ("NACK <- client=" +:+ addr +:+ " faltando="
                           +:+ pretty (len (protocol.Missing n))) s
              else s in
            Ret (s, Some (go_handleNACK addr n))
        | _ => Panic  (* failed type assertion *)
        end
      else if String.eqb typ protocol.TypeLIST then
        let entries := os_ReadDir (baseDir s) w in
        let names := map fst (filter (fun e => e.2 = false) entries) in
        Ret ((WriteToUDP (protocol.CtrlLST names) addr s).2, None)
      else Ret (s, None)
  end.

(** What [ReadFromUDP] hands to one iteration of [packetLoop]: an error,
    or a datagram with its sender, together with the file system as it is
    at that moment. *)
Inductive arrival : Type :=
| ArrivalErr
| Arrival (addr : string) (d : list byte) (w : World).

(** [packetLoop] over the arrivals at the socket; the datagram is cut to
    the 4096-byte receive buffer. *)
Fixpoint packetLoop (arrivals : list arrival) (logging : bool) (s : Server)
  : outcome (Server * list task) :=
  match arrivals with
  | [] => Ret (s, [])
  | ArrivalErr :: rest => packetLoop rest logging s
  | Arrival addr d w :: rest =>
      let b := take (Z.to_nat 4096) d in
      if protocol.IsCtrl b then
        '(s, t) ← dispatchCtrl addr b logging w s;
        '(s, ts) ← packetLoop rest logging s;
        Ret (s, match t with Some x => x :: ts | None => ts end)
      else packetLoop rest logging s
  end.

Definition SetBaseDir (dir : string) (s : Server) : Server :=
  mkServer (activeTransfers s) (mtr s)
    (if String.eqb (strings_TrimSpace dir) "" then "."%string else dir)
    (sent s) (logged s).

Definition empty_server : Server :=
  mkServer ∅ (mkMetrics 0 0 0 0 0) "." [] [].

(** The entry that [loadFile] builds for a five-byte file, and a server
    on which one peer has it registered. *)
Definition hello_entry : fileEntry :=
  mkFileEntry
    (protocol.Meta.mk "hello.txt" 1 5
       (protocol.SHA256FileChunks [bytes_of_string "hello"]) 1024)
    [bytes_of_string "hello"].

Definition serving_hello : Server :=
  mkServer {[ "10.0.0.7:40000"%string := hello_entry ]}
    (mkMetrics 0 0 0 0 0) "." [] [].

End server.

End serverudp.

(* ===================================================================== *)
(** * Properties                                                          *)
(* ===================================================================== *)

Lemma Z_of_byte_of_Z (z : Z) : Z_of_byte (byte_of_Z z) = z mod 256.
Proof.
  unfold Z_of_byte, byte_of_Z.
  rewrite N_ascii_embedding.
  - rewrite Z2N.id; [done | apply Z.mod_pos_bound; lia].
  - pose proof (Z.mod_pos_bound z 256 ltac:(lia)). lia.
Qed.

Lemma Z_of_byte_range (b : byte) : 0 <= Z_of_byte b < 256.
Proof.
  unfold Z_of_byte. pose proof (N_ascii_bounded b). lia.
Qed.

Lemma byte_of_Z_of_byte (b : byte) : byte_of_Z (Z_of_byte b) = b.
Proof.
  unfold byte_of_Z. rewrite Z.mod_small by apply Z_of_byte_range.
  unfold Z_of_byte. rewrite N2Z.id. apply ascii_N_embedding.
Qed.

Lemma lor_shiftl_add (a b k : Z) :
  0 <= k -> 0 <= a < 2 ^ k -> Z.lor a (Z.shiftl b k) = a + b * 2 ^ k.
Proof.
  intros Hk Ha.
  rewrite <- Z.shiftl_mul_pow2 by done.
  rewrite Z.add_nocarry_lxor, Z.lxor_lor; try done.
  all: apply Z.bits_inj'; intros n Hn; rewrite Z.land_spec, Z.bits_0.
  all: destruct (Z.lt_ge_cases n k) as [Hlt|Hge].
  all: try (rewrite (Z.shiftl_spec_low b k n Hlt); apply andb_false_r).
  all: destruct (Z.eq_dec a 0) as [->|Hne]; [by rewrite Z.bits_0|].
  all: rewrite (Z.bits_above_log2 a n); [done | lia |].
  all: apply Z.log2_lt_pow2; [lia|].
  all: eapply Z.lt_le_trans; [apply Ha|]; apply Z.pow_le_mono_r; lia.
Qed.

Lemma bind_Ret {A B : Type} (a : A) (k : A -> outcome B) : (Ret a ≫= k) = k a.
Proof. reflexivity. Qed.

Lemma index_lookup {A : Type} (b : list A) (i : Z) (x : A) :
  0 <= i -> b !! Z.to_nat i = Some x -> index b i = Ret x.
Proof.
  intros Hi Hx. unfold index, len. rewrite Hx.
  apply lookup_lt_Some in Hx.
  replace (0 <=? i) with true by lia.
  replace (i <? Z.of_nat (length b)) with true by lia.
  reflexivity.
Qed.

Lemma sub_in_range {A : Type} (b : list A) (lo hi : Z) :
  0 <= lo <= hi -> hi <= len b ->
  sub b lo hi = Ret (take (Z.to_nat (hi - lo)) (drop (Z.to_nat lo) b)).
Proof.
  intros H1 H2. unfold sub.
  replace (0 <=? lo) with true by lia.
  replace (lo <=? hi) with true by lia.
  replace (hi <=? len b) with true by lia.
  reflexivity.
Qed.

Ltac run_outcome :=
  repeat (erewrite index_lookup by first [lia | reflexivity]);
  cbn [mbind outcome_bind].

Ltac lor_to_add :=
  repeat match goal with
  | |- context [Z.lor ?a (Z.shiftl ?b ?k)] =>
      lazymatch a with
      | context [Z.lor] => fail
      | _ => rewrite (lor_shiftl_add a b k)
               by first [lia | Z.div_mod_to_equations; lia]
      end
  end.

Lemma Uint16_be16 (v : Z) : binary.Uint16 (binary.be16 v) = Ret (uint16 v).
Proof.
  unfold binary.Uint16, binary.be16, uint16. run_outcome.
  rewrite !Z_of_byte_of_Z, !Z.shiftr_div_pow2 by lia.
  lor_to_add. f_equal. Z.div_mod_to_equations. lia.
Qed.

Lemma Uint32_be32 (v : Z) : binary.Uint32 (binary.be32 v) = Ret (uint32 v).
Proof.
  unfold binary.Uint32, binary.be32, uint32. run_outcome.
  rewrite !Z_of_byte_of_Z, !Z.shiftr_div_pow2 by lia.
  lor_to_add. f_equal. Z.div_mod_to_equations. lia.
Qed.

Lemma Uint64_be64 (v : Z) : binary.Uint64 (binary.be64 v) = Ret (uint64 v).
Proof.
  unfold binary.Uint64, binary.be64, uint64. run_outcome.
  rewrite !Z_of_byte_of_Z, !Z.shiftr_div_pow2 by lia.
  lor_to_add. f_equal. Z.div_mod_to_equations. lia.
Qed.

Example CRC32_check :
  protocol.CRC32 (bytes_of_string "123456789") = 0xcbf43926.
Proof. vm_compute. reflexivity. Qed.

Example SHA256_empty :
  protocol.SHA256FileChunks []
  = "e3b0c44298fc1c149afbf4c8996fb92427ae41e4649b934ca495991b7852b855"%string.
Proof. vm_compute. reflexivity. Qed.

Example SHA256_abc :
  protocol.SHA256FileChunks [bytes_of_string "a"; bytes_of_string "bc"]
  = "ba7816bf8f01cfea414140de5dae2223b00361a396177a9cb410ff61f20015ad"%string.
Proof. vm_compute. reflexivity. Qed.

Example SHA256_1024 :
  protocol.SHA256FileChunks [repeat ("A"%char : byte) 1024]
  = "6ab72eeb9e77b07540897e0c8d6d23ec8eef0f8c3a47e1b3f4e93443d9536bed"%string.
Proof. vm_compute. reflexivity. Qed.

Example CRC32_1024 :
  protocol.CRC32 (repeat ("A"%char : byte) 1024) = 0xb737fb1a.
Proof. vm_compute. reflexivity. Qed.


(* ===================================================================== *)
(** ** DATA header                                                        *)
(* ===================================================================== *)

Import protocol.

Lemma PackHeader_layout (h : DataHeader.t) :
  PackHeader h
  = [dataMagic0; dataMagic1; byte_of_Z config.ProtocolVersion; byte_of_Z 0]
    ++ binary.be32 (DataHeader.Seq h) ++ binary.be32 (DataHeader.Total h)
    ++ binary.be16 (DataHeader.Size h) ++ binary.be32 (DataHeader.CRC32 h).
Proof. reflexivity. Qed.

Lemma PackHeader_length (h : DataHeader.t) : len (PackHeader h) = 18.
Proof. reflexivity. Qed.

(** C4. For every DataHeader whose fields fit their wire widths,
    [PackHeader] yields exactly 18 bytes and [UnpackHeader] returns the
    same header with a nil error. *)
Theorem UnpackHeader_PackHeader (h : DataHeader.t) :
  DataHeader.valid h ->
  len (PackHeader h) = 18
  /\ UnpackHeader (PackHeader h) = Ret (h, None).
Proof.
  intros (Hseq & Htot & Hsize & Hcrc). split; [apply PackHeader_length|].
  unfold UnpackHeader. rewrite PackHeader_length.
  change (18 <? dataHeaderSize) with false. cbv iota.
  rewrite PackHeader_layout. run_outcome.
  change (negb (Ascii.eqb dataMagic0 dataMagic0)
          || negb (Ascii.eqb dataMagic1 dataMagic1)
          || negb (Ascii.eqb (byte_of_Z config.ProtocolVersion)
                             (byte_of_Z config.ProtocolVersion)))
    with false. cbv iota.
  rewrite !sub_in_range by (unfold len; cbn; lia).
  set (pkt := (_ ++ _)%list).
  change (take (Z.to_nat (8 - 4)) (drop (Z.to_nat 4) pkt))
    with (binary.be32 (DataHeader.Seq h)).
  change (take (Z.to_nat (12 - 8)) (drop (Z.to_nat 8) pkt))
    with (binary.be32 (DataHeader.Total h)).
  change (take (Z.to_nat (14 - 12)) (drop (Z.to_nat 12) pkt))
    with (binary.be16 (DataHeader.Size h)).
  change (take (Z.to_nat (18 - 14)) (drop (Z.to_nat 14) pkt))
    with (binary.be32 (DataHeader.CRC32 h)).
  cbn [mbind outcome_bind].
  rewrite Uint32_be32. cbn [mbind outcome_bind].
  rewrite Uint32_be32. cbn [mbind outcome_bind].
  rewrite Uint16_be16. cbn [mbind outcome_bind].
  rewrite Uint32_be32. cbn [mbind outcome_bind].
  unfold uint32, uint16, is_uint32, is_uint16 in *.
  rewrite !Z.mod_small by lia. by destruct h.
Qed.

Lemma UnpackHeader_PackHeader_witness :
  UnpackHeader (PackHeader (DataHeader.mk 3 10 1024 0xb737fb1a))
  = Ret (DataHeader.mk 3 10 1024 0xb737fb1a, None).
Proof.
  apply (UnpackHeader_PackHeader (DataHeader.mk 3 10 1024 0xb737fb1a)).
  unfold DataHeader.valid, is_uint32, is_uint16. simpl. lia.
Defined.


(* ===================================================================== *)
(** ** Control frames: layout of the encoders                             *)
(* ===================================================================== *)

Lemma len_app {A : Type} (l k : list A) : len (l ++ k) = len l + len k.
Proof. unfold len. rewrite length_app. lia. Qed.

Lemma len_nonneg {A : Type} (l : list A) : 0 <= len l.
Proof. unfold len. lia. Qed.

Lemma len_make (n : Z) : 0 <= n -> len (make n) = n.
Proof. intros Hn. unfold len, make. rewrite repeat_length. lia. Qed.

Lemma make_add (n m : Z) : 0 <= n -> 0 <= m -> make (n + m) = make n ++ make m.
Proof.
  intros Hn Hm. unfold make. rewrite Z2Nat.inj_add by done. apply repeat_app.
Qed.

Lemma put_at (a k zs r : list byte) (off : nat) :
  off = length a -> length k = length zs ->
  list_inserts off k (a ++ zs ++ r) = a ++ k ++ r.
Proof.
  intros -> Hk. rewrite <- (Nat.add_0_r (length a)).
  rewrite list_inserts_app_r. f_equal. by apply list_inserts_0_r.
Qed.

Lemma put_at_end (a k zs : list byte) (off : nat) :
  off = length a -> length k = length zs ->
  list_inserts off k (a ++ zs) = a ++ k.
Proof.
  intros Ha Hk. rewrite <- (app_nil_r zs), put_at by done. by rewrite app_nil_r.
Qed.

Lemma ctrlHeader_layout (t n : Z) :
  ctrlHeader t n
  = [ctrlMagic0; ctrlMagic1; byte_of_Z config.ProtocolVersion; byte_of_Z t]
    ++ binary.be16 (uint16 n).
Proof. reflexivity. Qed.

Lemma uint16_range (n : Z) : 0 <= uint16 n < 2 ^ 16.
Proof. unfold uint16. apply Z.mod_pos_bound. lia. Qed.

Lemma uint16_idem (n : Z) : uint16 (uint16 n) = uint16 n.
Proof. unfold uint16. apply Z.mod_mod. lia. Qed.

Lemma uint16_small (n : Z) : 0 <= n <= 65535 -> uint16 n = n.
Proof. intros Hn. unfold uint16. apply Z.mod_small. lia. Qed.

(** What [parseCtrl] sees in a frame built by [ctrlHeader]: the payload cut
    to the length that survived the 16-bit field. *)
Lemma parseCtrl_frame (t n : Z) (payload : list byte) :
  0 <= t < 256 -> uint16 n <= len payload ->
  parseCtrl (ctrlHeader t n ++ payload)
  = Ret (t, take (Z.to_nat (uint16 n)) payload, None).
Proof.
  intros Ht Hn. pose proof (uint16_range n) as Hr.
  pose proof (len_nonneg payload) as Hp.
  unfold parseCtrl. rewrite ctrlHeader_layout.
  set (b := (_ ++ payload)%list).
  assert (len b = 6 + len payload) as Hlen.
  { unfold b. rewrite len_app. reflexivity. }
  rewrite Hlen. replace (6 + len payload <? 6) with false by lia.
  run_outcome.
  change (negb (Ascii.eqb ctrlMagic0 ctrlMagic0)) with false. cbv iota.
  change (negb (Ascii.eqb ctrlMagic1 ctrlMagic1)) with false. cbv iota.
  change (negb (Ascii.eqb (byte_of_Z config.ProtocolVersion)
                          (byte_of_Z config.ProtocolVersion))) with false.
  cbv iota.
  rewrite (sub_in_range b 4 6) by lia.
  change (take (Z.to_nat (6 - 4)) (drop (Z.to_nat 4) b))
    with (binary.be16 (uint16 n)).
  cbn [mbind outcome_bind]. rewrite Uint16_be16, uint16_idem.
  cbn [mbind outcome_bind].
  replace (6 + len payload <? 6 + uint16 n) with false by lia.
  rewrite sub_in_range by lia. cbn [mbind outcome_bind].
  change (drop (Z.to_nat 6) b) with payload.
  rewrite Z_of_byte_of_Z, Z.mod_small by lia.
  do 3 f_equal. f_equal. lia.
Qed.

Lemma len_be16 (v : Z) : len (binary.be16 v) = 2.
Proof. reflexivity. Qed.
Lemma len_be32 (v : Z) : len (binary.be32 v) = 4.
Proof. reflexivity. Qed.
Lemma len_be64 (v : Z) : len (binary.be64 v) = 8.
Proof. reflexivity. Qed.
Lemma len_nil {A : Type} : len (@nil A) = 0.
Proof. reflexivity. Qed.

Lemma len_cons {A : Type} (x : A) (l : list A) : len (x :: l) = 1 + len l.
Proof. unfold len. rewrite length_cons. lia. Qed.

Ltac len_simpl :=
  rewrite ?len_app, ?len_cons, ?len_be16, ?len_be32, ?len_be64, ?len_nil,
    ?len_make by lia.

Lemma PutUint16_at (a r : list byte) (off v : Z) :
  off = len a ->
  binary.PutUint16 (a ++ make 2 ++ r) off v = a ++ binary.be16 v ++ r.
Proof.
  intros ->. unfold binary.PutUint16, len. rewrite Nat2Z.id. by apply put_at.
Qed.

Lemma PutUint32_at (a r : list byte) (off v : Z) :
  off = len a ->
  binary.PutUint32 (a ++ make 4 ++ r) off v = a ++ binary.be32 v ++ r.
Proof.
  intros ->. unfold binary.PutUint32, len. rewrite Nat2Z.id. by apply put_at.
Qed.

Lemma PutUint64_at (a r : list byte) (off v : Z) :
  off = len a ->
  binary.PutUint64 (a ++ make 8 ++ r) off v = a ++ binary.be64 v ++ r.
Proof.
  intros ->. unfold binary.PutUint64, len. rewrite Nat2Z.id. by apply put_at.
Qed.

Lemma PutUint16_at0 (r : list byte) (v : Z) :
  binary.PutUint16 (make 2 ++ r) 0 v = binary.be16 v ++ r.
Proof. exact (PutUint16_at [] r 0 v eq_refl). Qed.

Lemma PutUint32_at0 (r : list byte) (v : Z) :
  binary.PutUint32 (make 4 ++ r) 0 v = binary.be32 v ++ r.
Proof. exact (PutUint32_at [] r 0 v eq_refl). Qed.

Lemma copy_at (a r src : list byte) (off hi : Z) :
  off = len a -> len src <= hi - off ->
  copy (a ++ make (len src) ++ r) off hi src = a ++ src ++ r.
Proof.
  intros -> Hhi. unfold copy. rewrite take_ge by (unfold len in *; lia).
  unfold len at 1. rewrite Nat2Z.id. apply put_at; [done|].
  unfold make, len. by rewrite repeat_length, Nat2Z.id.
Qed.

Lemma packERR_layout (msg : string) :
  packERR msg
  = ctrlHeader ctrlTypeERR (2 + 2 + len (bytes_of_string msg))
    ++ binary.be16 1
    ++ binary.be16 (uint16 (len (bytes_of_string msg)))
    ++ bytes_of_string msg.
Proof.
  unfold packERR. set (b := bytes_of_string msg).
  pose proof (len_nonneg b) as Hb.
  rewrite !make_add by lia. rewrite <- !app_assoc.
  rewrite PutUint16_at0.
  rewrite (PutUint16_at (binary.be16 1)) by done.
  rewrite <- (app_nil_r (make (len b))).
  rewrite (copy_at (binary.be16 1 ++ binary.be16 (uint16 (len b))) [] b 4).
  - rewrite app_nil_r. do 2 f_equal. len_simpl. lia.
  - reflexivity.
  - len_simpl. lia.
Qed.


Lemma parseHexSha_loop_length (n : nat) (i : Z) (s b : list byte) :
  length (parseHexSha_loop n i s b) = length b.
Proof.
  revert i b. induction n as [|n IH]; intros i b; [done|].
  cbn [parseHexSha_loop].
  destruct (hexval (at_index s (i * 2))) as [hi ok1].
  destruct (hexval (at_index s (i * 2 + 1))) as [lo ok2].
  destruct (negb ok1 || negb ok2); [done|].
  by rewrite IH, length_insert.
Qed.

(** [parseHexSha] never fails: it always returns 32 bytes. *)
Lemma parseHexSha_length (s : string) : len (parseHexSha s) = 32.
Proof.
  unfold parseHexSha, len.
  destruct (negb _); [done|]. by rewrite parseHexSha_loop_length.
Qed.

Lemma packMETA_layout (m : Meta.t) :
  packMETA m
  = ctrlHeader ctrlTypeMETA
      (4 + 8 + 2 + 2 + len (bytes_of_string (Meta.Filename m)) + 32)
    ++ binary.be32 (Meta.Total m)
    ++ binary.be64 (uint64 (Meta.Size m))
    ++ binary.be16 (uint16 (Meta.Chunk m))
    ++ binary.be16 (uint16 (len (bytes_of_string (Meta.Filename m))))
    ++ bytes_of_string (Meta.Filename m)
    ++ parseHexSha (Meta.SHA256 m).
Proof.
  unfold packMETA. set (fn := bytes_of_string (Meta.Filename m)).
  set (sha := parseHexSha (Meta.SHA256 m)).
  pose proof (len_nonneg fn) as Hfn.
  assert (len sha = 32) as Hsha by apply parseHexSha_length.
  rewrite !make_add by lia. rewrite <- !app_assoc.
  rewrite PutUint32_at0.
  rewrite (PutUint64_at (binary.be32 _)) by done.
  rewrite (app_assoc (binary.be32 _) (binary.be64 _)).
  rewrite (PutUint16_at (binary.be32 _ ++ binary.be64 _)) by done.
  rewrite (app_assoc (_ ++ _) (binary.be16 _)).
  rewrite (PutUint16_at ((_ ++ _) ++ binary.be16 _)) by done.
  rewrite (app_assoc (_ ++ _) (binary.be16 _)).
  rewrite copy_at by (len_simpl; lia).
  rewrite (app_assoc (_ ++ _) fn).
  rewrite <- Hsha, <- (app_nil_r (make (len sha))).
  rewrite copy_at by (len_simpl; lia).
  rewrite app_nil_r, <- !app_assoc. f_equal. f_equal. len_simpl. lia.
Qed.

Lemma len_flat_map_be32 (l : list Z) : len (flat_map binary.be32 l) = 4 * len l.
Proof.
  induction l as [|x l IH]; [done|].
  cbn [flat_map]. len_simpl. lia.
Qed.

Lemma length_flat_map_be32 (l : list Z) :
  length (flat_map binary.be32 l) = (4 * length l)%nat.
Proof.
  pose proof (len_flat_map_be32 l) as H. unfold len in H. lia.
Qed.

Lemma packNACK_loop_layout (missing : list Z) (a r : list byte) (off : Z) :
  off = len a ->
  packNACK_loop missing off (a ++ make (4 * len missing) ++ r)
  = a ++ flat_map binary.be32 missing ++ r.
Proof.
  revert a off. induction missing as [|s rest IH]; intros a off Hoff.
  - reflexivity.
  - cbn [packNACK_loop flat_map].
    replace (4 * len (s :: rest)) with (4 + 4 * len rest)
      by (len_simpl; lia).
    pose proof (len_nonneg rest).
    rewrite make_add, <- app_assoc by lia.
    rewrite PutUint32_at by done.
    rewrite (app_assoc a), IH by (len_simpl; lia).
    by rewrite <- !app_assoc.
Qed.

Lemma packNACK_layout (missing : list Z) :
  packNACK missing
  = ctrlHeader ctrlTypeNACK (2 + 4 * len missing)
    ++ binary.be16 (uint16 (len missing)) ++ flat_map binary.be32 missing.
Proof.
  unfold packNACK. pose proof (len_nonneg missing).
  rewrite make_add by lia. rewrite PutUint16_at0.
  rewrite <- (app_nil_r (make (4 * len missing))).
  rewrite packNACK_loop_layout by done. rewrite app_nil_r.
  do 2 f_equal. len_simpl. rewrite len_flat_map_be32. lia.
Qed.

Lemma packLST_plen_sum (names : list string) (acc : Z) :
  packLST_plen names acc = acc + len (flat_map frames.lst_entry names).
Proof.
  revert acc. induction names as [|n rest IH]; intros acc.
  - cbn. rewrite len_nil. lia.
  - cbn [packLST_plen flat_map]. rewrite IH. unfold frames.lst_entry at 2.
    len_simpl. lia.
Qed.

Lemma packLST_loop_layout (names : list string) (a r : list byte) (off : Z) :
  off = len a ->
  packLST_loop names off (a ++ make (len (flat_map frames.lst_entry names)) ++ r)
  = a ++ flat_map frames.lst_entry names ++ r.
Proof.
  revert a off. induction names as [|n rest IH]; intros a off Hoff.
  - reflexivity.
  - cbn [packLST_loop flat_map]. unfold frames.lst_entry at 1 3.
    set (b := bytes_of_string n).
    pose proof (len_nonneg b). pose proof (len_nonneg (flat_map frames.lst_entry rest)).
    len_simpl. rewrite !make_add by lia. rewrite <- !app_assoc.
    rewrite PutUint16_at by done.
    rewrite (app_assoc a).
    rewrite copy_at by (len_simpl; lia).
    rewrite (app_assoc (a ++ _)), IH by (len_simpl; lia).
    by rewrite <- !app_assoc.
Qed.

Lemma packLST_layout (names : list string) :
  packLST names
  = ctrlHeader ctrlTypeLST (packLST_plen names 2)
    ++ binary.be16 (uint16 (len names)) ++ flat_map frames.lst_entry names.
Proof.
  unfold packLST. rewrite packLST_plen_sum.
  pose proof (len_nonneg (flat_map frames.lst_entry names)).
  rewrite make_add by lia. rewrite PutUint16_at0.
  rewrite <- (app_nil_r (make (len (flat_map frames.lst_entry names)))).
  rewrite packLST_loop_layout by done. rewrite app_nil_r.
  do 2 f_equal. len_simpl. lia.
Qed.

(* ===================================================================== *)
(** ** Control frames: decoding what the encoders wrote                   *)
(* ===================================================================== *)

Lemma sub_app_middle {A : Type} (a m r : list A) (lo hi : Z) :
  lo = len a -> hi = len a + len m -> sub (a ++ m ++ r) lo hi = Ret m.
Proof.
  intros -> ->. pose proof (len_nonneg a). pose proof (len_nonneg m).
  pose proof (len_nonneg r).
  rewrite sub_in_range by (rewrite ?len_app; lia). f_equal.
  unfold len. rewrite Nat2Z.id, drop_app_length.
  apply take_app_length'. lia.
Qed.

Lemma sub_app_prefix {A : Type} (m r : list A) (hi : Z) :
  hi = len m -> sub (m ++ r) 0 hi = Ret m.
Proof. intros ->. by apply (sub_app_middle [] m r). Qed.

Lemma string_of_bytes_of_string (s : string) :
  string_of_bytes (bytes_of_string s) = s.
Proof. apply string_of_list_ascii_of_string. Qed.

Lemma bytes_of_string_of_bytes (b : list byte) :
  bytes_of_string (string_of_bytes b) = b.
Proof. apply list_ascii_of_string_of_list_ascii. Qed.

Lemma unpackERR_payload (msg : string) :
  len (bytes_of_string msg) <= 65535 ->
  unpackERR (binary.be16 1 ++ binary.be16 (uint16 (len (bytes_of_string msg)))
             ++ bytes_of_string msg)
  = Ret (mkErrMsg msg, None).
Proof.
  intros Hlen. set (b := bytes_of_string msg) in *.
  pose proof (len_nonneg b) as Hb.
  unfold unpackERR. len_simpl.
  replace (2 + (2 + len b) <? 4) with false by lia.
  rewrite (sub_app_middle (binary.be16 1)) by done.
  cbn [mbind outcome_bind]. rewrite Uint16_be16, uint16_idem.
  cbn [mbind outcome_bind]. rewrite uint16_small by lia.
  replace (2 + (2 + len b) <? 4 + len b) with false by lia.
  rewrite (app_assoc (binary.be16 1)), <- (app_nil_r b).
  rewrite sub_app_middle by (len_simpl; lia).
  cbn [mbind outcome_bind]. unfold b. by rewrite string_of_bytes_of_string.
Qed.

Lemma unpackNACK_loop_entries (n : nat) (l : list Z) (a r : list byte)
  (off : Z) (acc : list Z) :
  off = len a -> (n <= length l)%nat ->
  unpackNACK_loop n (a ++ flat_map binary.be32 l ++ r) off acc
  = Ret (acc ++ map uint32 (take n l)).
Proof.
  revert l a off acc. induction n as [|n IH]; intros l a off acc Hoff Hn.
  - cbn. by rewrite app_nil_r.
  - destruct l as [|x l]; [cbn in Hn; lia|].
    cbn [unpackNACK_loop flat_map]. rewrite <- app_assoc.
    rewrite sub_app_middle by (len_simpl; lia).
    cbn [mbind outcome_bind]. rewrite Uint32_be32. cbn [mbind outcome_bind].
    rewrite (app_assoc a), IH by (len_simpl; cbn in Hn; lia).
    cbn [take map]. by rewrite <- app_assoc.
Qed.

Lemma map_uint32_id (l : list Z) : Forall is_uint32 l -> map uint32 l = l.
Proof.
  induction 1 as [|x l Hx _ IH]; [done|].
  cbn [map]. rewrite IH. f_equal. unfold uint32, is_uint32 in *.
  apply Z.mod_small. lia.
Qed.

(** [unpackNACK] on a payload that holds a count and at least that many
    entries returns the first [cnt] entries. *)
Lemma unpackNACK_payload (cnt : Z) (l : list Z) (r : list byte) :
  0 <= cnt <= 65535 -> cnt <= len l -> Forall is_uint32 l ->
  unpackNACK (binary.be16 cnt ++ flat_map binary.be32 l ++ r)
  = Ret (mkNack (take (Z.to_nat cnt) l), None).
Proof.
  intros Hcnt Hl Hall. pose proof (len_nonneg r).
  unfold unpackNACK. len_simpl. rewrite len_flat_map_be32.
  replace (2 + (4 * len l + len r) <? 2) with false by lia.
  rewrite sub_app_prefix by done.
  cbn [mbind outcome_bind]. rewrite Uint16_be16. cbn [mbind outcome_bind].
  rewrite uint16_small by lia.
  replace (2 + (4 * len l + len r) <? 2 + 4 * cnt) with false by lia.
  rewrite unpackNACK_loop_entries by (unfold len in *; done || lia).
  cbn [mbind outcome_bind app].
  rewrite map_uint32_id; [done|]. by apply Forall_take.
Qed.

Lemma unpackNACK_short (cnt : Z) (x : list byte) :
  0 <= cnt <= 65535 -> len x < 4 * cnt ->
  unpackNACK (binary.be16 cnt ++ x)
  = Ret (mkNack [], Some "NACK curto 2"%string).
Proof.
  intros Hcnt Hx. pose proof (len_nonneg x).
  unfold unpackNACK. len_simpl.
  replace (2 + len x <? 2) with false by lia.
  rewrite sub_app_prefix by done.
  cbn [mbind outcome_bind]. rewrite Uint16_be16. cbn [mbind outcome_bind].
  rewrite uint16_small by lia.
  by replace (2 + len x <? 2 + 4 * cnt) with true by lia.
Qed.

Lemma DecodeCtrl_NACK_frame (n : Z) (payload : list byte) :
  uint16 n <= len payload ->
  DecodeCtrl (ctrlHeader ctrlTypeNACK n ++ payload)
  = ('(nk, e) ← unpackNACK (take (Z.to_nat (uint16 n)) payload);
     Ret (TypeNACK, any_Nack nk, e)).
Proof.
  intros Hn. unfold DecodeCtrl.
  rewrite parseCtrl_frame by (done || (unfold ctrlTypeNACK; lia)).
  reflexivity.
Qed.

Lemma flat_map_be32_take_drop (k : nat) (l : list Z) :
  flat_map binary.be32 l
  = flat_map binary.be32 (take k l) ++ flat_map binary.be32 (drop k l).
Proof. by rewrite <- flat_map_app, take_drop. Qed.

(** What [DecodeCtrl] sees of a NACK frame: the encoded payload cut to the
    length that survived the 16-bit field. *)
Lemma DecodeCtrl_CtrlNACK (missing : list Z) :
  DecodeCtrl (CtrlNACK missing)
  = ('(nk, e) ← unpackNACK
                  (take (Z.to_nat (uint16 (2 + 4 * len missing)))
                     (binary.be16 (uint16 (len missing))
                      ++ flat_map binary.be32 missing));
     Ret (TypeNACK, any_Nack nk, e)).
Proof.
  pose proof (len_nonneg missing) as Hlen.
  unfold CtrlNACK. rewrite packNACK_layout.
  apply DecodeCtrl_NACK_frame. len_simpl. rewrite len_flat_map_be32.
  unfold uint16. Z.div_mod_to_equations. lia.
Qed.

(** Up to 16383 entries a NACK frame decodes to the list it was built from. *)
Lemma DecodeCtrl_CtrlNACK_exact (missing : list Z) :
  Forall is_uint32 missing -> len missing <= 16383 ->
  DecodeCtrl (CtrlNACK missing)
  = Ret (TypeNACK, any_Nack (mkNack missing), None).
Proof.
  intros Hall Hsmall. pose proof (len_nonneg missing) as Hlen.
  rewrite DecodeCtrl_CtrlNACK, !uint16_small by lia.
  rewrite take_ge.
  2:{ rewrite length_app, length_flat_map_be32. cbn [length binary.be16].
      unfold len in *. lia. }
  rewrite <- (app_nil_r (flat_map _ _)).
  rewrite (unpackNACK_payload (len missing) missing []) by (done || lia).
  cbn [mbind outcome_bind]. unfold len. rewrite Nat2Z.id.
  by rewrite firstn_all.
Qed.

(** C10. A NACK frame carries at most 16383 sequences: up to that many the
    round trip through [CtrlNACK] and [DecodeCtrl] is exact; beyond it the
    16-bit payload-length field (payload of 2 + 4*count bytes) and, past
    65535 entries, the 16-bit count field wrap, and decoding either fails
    or returns a strictly shorter prefix of the list. *)
Theorem NACK_capacity (missing : list Z) :
  Forall is_uint32 missing ->
  frames.payload_len (any_Nack (mkNack missing)) = 2 + 4 * len missing
  /\ (len missing <= 16383 ->
      DecodeCtrl (CtrlNACK missing)
      = Ret (TypeNACK, any_Nack (mkNack missing), None))
  /\ (16383 < len missing ->
      DecodeCtrl (CtrlNACK missing)
      <> Ret (TypeNACK, any_Nack (mkNack missing), None)
      /\ ((exists e, DecodeCtrl (CtrlNACK missing)
                     = Ret (TypeNACK, any_Nack (mkNack []), Some e))
          \/ (exists k, (k < length missing)%nat
                /\ DecodeCtrl (CtrlNACK missing)
                   = Ret (TypeNACK, any_Nack (mkNack (take k missing)), None)))).
Proof.
  intros Hall. split; [reflexivity|].
  split; [by apply DecodeCtrl_CtrlNACK_exact|].
  intros Hbig. pose proof (len_nonneg missing) as Hlen.
  rewrite DecodeCtrl_CtrlNACK.
  set (l := uint16 (2 + 4 * len missing)).
  set (cnt := uint16 (len missing)).
  pose proof (uint16_range (2 + 4 * len missing)) as Hl. fold l in Hl.
  pose proof (uint16_range (len missing)) as Hc. fold cnt in Hc.
  assert (2 <= l) as Hl2.
  { unfold l, uint16. Z.div_mod_to_equations. lia. }
  assert (l <= 2 + 4 * len missing) as Hle.
  { unfold l, uint16. Z.div_mod_to_equations. lia. }
  assert (take (Z.to_nat l)
            (binary.be16 cnt ++ flat_map binary.be32 missing)
          = binary.be16 cnt
            ++ take (Z.to_nat (l - 2)) (flat_map binary.be32 missing)) as ->.
  { rewrite take_app. f_equal.
    - apply take_ge. cbn. lia.
    - f_equal. cbn [length binary.be16]. lia. }
  destruct (Z.lt_ge_cases (l - 2) (4 * cnt)) as [Hshort|Hfit].
  - (* the length field wrapped below what the count asks for *)
    rewrite unpackNACK_short; [|lia|].
    + cbn [mbind outcome_bind]. split; [congruence|]. left. eauto.
    + unfold len. rewrite length_take, length_flat_map_be32.
      unfold len in *. lia.
  - (* both fields wrapped: a shorter prefix decodes *)
    assert (cnt < len missing) as Hcnt.
    { unfold cnt, l, uint16 in *. Z.div_mod_to_equations. lia. }
    rewrite (flat_map_be32_take_drop (Z.to_nat cnt) missing).
    rewrite take_app.
    rewrite (take_ge (flat_map binary.be32 (take _ _))).
    2:{ rewrite length_flat_map_be32, length_take. unfold len in *. lia. }
    rewrite unpackNACK_payload.
    + cbn [mbind outcome_bind]. rewrite take_take, Nat.min_id.
      split.
      * intros Heq. injection Heq as Heq.
        apply (f_equal length) in Heq. rewrite length_take in Heq.
        unfold len in *. lia.
      * right. exists (Z.to_nat cnt). split; [unfold len in *; lia|done].
    + lia.
    + unfold len. rewrite length_take. unfold len in *. lia.
    + by apply Forall_take.
Qed.

Lemma NACK_capacity_witness :
  DecodeCtrl (CtrlNACK [3; 7]) = Ret (TypeNACK, any_Nack (mkNack [3; 7]), None)
  /\ DecodeCtrl (CtrlNACK (repeat 0 (Z.to_nat 16384)))
     <> Ret (TypeNACK, any_Nack (mkNack (repeat 0 (Z.to_nat 16384))), None).
Proof.
  split.
  - destruct (NACK_capacity [3; 7]) as (_ & Hsmall & _).
    + repeat constructor; unfold is_uint32; lia.
    + apply Hsmall. unfold len. cbn [length]. lia.
  - destruct (NACK_capacity (repeat 0 (Z.to_nat 16384))) as (_ & _ & Hbig).
    + apply List.Forall_forall. intros x Hx. apply repeat_spec in Hx as ->.
      unfold is_uint32. lia.
    + apply Hbig. unfold len. rewrite repeat_length. lia.
Defined.

(** *** Hexadecimal digest strings *)

Lemma hex_pair_roundtrip (c1 c2 : byte) :
  frames.is_lower_hex c1 -> frames.is_lower_hex c2 ->
  snd (hexval c1) = true /\ snd (hexval c2) = true
  /\ hex_of_byte (byte_of_Z (Z.lor (Z.shiftl (Z_of_byte (fst (hexval c1))) 4)
                                   (Z_of_byte (fst (hexval c2)))))
     = [c1; c2].
Proof.
  unfold frames.is_lower_hex. cbn [bytes_of_string list_ascii_of_string In].
  intros H1 H2.
  repeat (destruct H1 as [<-|H1]; [|]); try done;
  repeat (destruct H2 as [<-|H2]; [|]); try done;
  (split; [vm_compute; reflexivity|]);
  (split; [vm_compute; reflexivity|]); vm_compute; reflexivity.
Qed.

Lemma hex_pairs_fmt (n : nat) (s : list byte) :
  length s = (2 * n)%nat -> Forall frames.is_lower_hex s ->
  flat_map hex_of_byte (frames.hex_pairs s) = s.
Proof.
  revert s. induction n as [|n IH]; intros s Hlen Hall.
  - by destruct s.
  - destruct s as [|c1 [|c2 rest]]; try (cbn in Hlen; lia).
    apply Forall_cons in Hall as [H1 Hall].
    apply Forall_cons in Hall as [H2 Hall].
    destruct (hex_pair_roundtrip c1 c2 H1 H2) as (_ & _ & Hpair).
    cbn [frames.hex_pairs flat_map]. rewrite Hpair, IH; [done| |done].
    cbn in Hlen. lia.
Qed.

Lemma length_hex_pairs (n : nat) (s : list byte) :
  length s = (2 * n)%nat -> length (frames.hex_pairs s) = n.
Proof.
  revert s. induction n as [|n IH]; intros s Hlen.
  - by destruct s.
  - destruct s as [|c1 [|c2 rest]]; try (cbn in Hlen; lia).
    cbn [frames.hex_pairs length]. rewrite IH; [done|]. cbn in Hlen. lia.
Qed.

Lemma parseHexSha_loop_pairs (n : nat) (i : Z) (s b : list byte) :
  Forall frames.is_lower_hex s -> 0 <= i ->
  (2 * (Z.to_nat i + n) <= length s)%nat ->
  parseHexSha_loop n i s b
  = list_inserts (Z.to_nat i)
      (frames.hex_pairs (take (2 * n) (drop (2 * Z.to_nat i) s))) b.
Proof.
  revert i b. induction n as [|n IH]; intros i b Hall Hi Hlen.
  - reflexivity.
  - cbn [parseHexSha_loop].
    destruct (drop (2 * Z.to_nat i) s) as [|c1 [|c2 rest]] eqn:Hdrop.
    { apply (f_equal length) in Hdrop. rewrite length_drop in Hdrop.
      cbn in Hdrop. lia. }
    { apply (f_equal length) in Hdrop. rewrite length_drop in Hdrop.
      cbn in Hdrop. lia. }
    assert (at_index s (i * 2) = c1) as ->.
    { unfold at_index.
      replace (Z.to_nat (i * 2)) with (2 * Z.to_nat i + 0)%nat by lia.
      by rewrite nth_lookup, <- lookup_drop, Hdrop. }
    assert (at_index s (i * 2 + 1) = c2) as ->.
    { unfold at_index.
      replace (Z.to_nat (i * 2 + 1)) with (2 * Z.to_nat i + 1)%nat by lia.
      by rewrite nth_lookup, <- lookup_drop, Hdrop. }
    assert (frames.is_lower_hex c1 /\ frames.is_lower_hex c2) as [H1 H2].
    { assert (Forall frames.is_lower_hex (c1 :: c2 :: rest)) as Hd.
      { rewrite <- Hdrop. by apply Forall_drop. }
      apply Forall_cons in Hd as [? Hd]. by apply Forall_cons in Hd as [? _]. }
    destruct (hex_pair_roundtrip c1 c2 H1 H2) as (Hok1 & Hok2 & _).
    replace (2 * S n)%nat with (S (S (2 * n))) by lia.
    cbn [take frames.hex_pairs list_inserts].
    destruct (hexval c1) as [hi ok1], (hexval c2) as [lo ok2].
    cbn [fst snd] in *. subst ok1 ok2. cbn [negb orb].
    rewrite IH by (done || lia).
    replace (Z.to_nat (i + 1)) with (S (Z.to_nat i)) by lia.
    rewrite list_insert_inserts_lt by lia. do 3 f_equal.
    replace (2 * S (Z.to_nat i))%nat with (2 * Z.to_nat i + 2)%nat by lia.
    by rewrite <- drop_drop, Hdrop.
Qed.

Lemma parseHexSha_valid (s : string) :
  frames.is_sha_hex s ->
  parseHexSha s = frames.hex_pairs (bytes_of_string s)
  /\ fmtHash (parseHexSha s) = s.
Proof.
  intros [Hlen Hall]. set (b := bytes_of_string s) in *.
  assert (length b = 64%nat) as Hlen' by (unfold len in Hlen; lia).
  assert (parseHexSha s = frames.hex_pairs b) as ->.
  { unfold parseHexSha. fold b. rewrite Hlen.
    change (negb (64 =? 64)) with false. cbv iota.
    rewrite parseHexSha_loop_pairs by (done || lia).
    change (drop (2 * Z.to_nat 0) b) with b.
    rewrite take_ge by lia.
    change (make 32) with (make 32 ++ []).
    rewrite list_inserts_0_r; [by rewrite app_nil_r|].
    by rewrite (length_hex_pairs 32). }
  split; [done|]. unfold fmtHash.
  rewrite (hex_pairs_fmt 32) by done. apply string_of_bytes_of_string.
Qed.

Lemma unpackMETA_payload (fn sha : list byte) (total size chunk : Z) :
  len fn <= 65535 -> len sha = 32 ->
  is_uint32 total -> 0 <= size < 2 ^ 63 -> is_uint16 chunk ->
  unpackMETA (binary.be32 total ++ binary.be64 (uint64 size)
              ++ binary.be16 (uint16 chunk) ++ binary.be16 (uint16 (len fn))
              ++ fn ++ sha)
  = Ret (Meta.mk (string_of_bytes fn) total size (fmtHash sha) chunk, None).
Proof.
  intros Hfn Hsha Htot Hsize Hchunk. pose proof (len_nonneg fn) as Hfn0.
  unfold unpackMETA. set (p := (_ ++ _)%list).
  assert (len p = 16 + len fn + 32) as Hp.
  { unfold p. len_simpl. lia. }
  rewrite Hp. replace (16 + len fn + 32 <? 4 + 8 + 2 + 2 + 32) with false by lia.
  rewrite (sub_in_range p 0 4), (sub_in_range p 4 12),
    (sub_in_range p 12 14), (sub_in_range p 14 16) by lia.
  change (take (Z.to_nat (4 - 0)) (drop (Z.to_nat 0) p))
    with (binary.be32 total).
  change (take (Z.to_nat (12 - 4)) (drop (Z.to_nat 4) p))
    with (binary.be64 (uint64 size)).
  change (take (Z.to_nat (14 - 12)) (drop (Z.to_nat 12) p))
    with (binary.be16 (uint16 chunk)).
  change (take (Z.to_nat (16 - 14)) (drop (Z.to_nat 14) p))
    with (binary.be16 (uint16 (len fn))).
  cbn [mbind outcome_bind]. rewrite Uint32_be32. cbn [mbind outcome_bind].
  rewrite Uint64_be64. cbn [mbind outcome_bind].
  rewrite Uint16_be16. cbn [mbind outcome_bind].
  rewrite Uint16_be16. cbn [mbind outcome_bind].
  rewrite !uint16_idem, (uint16_small (len fn)) by lia.
  replace (16 + len fn + 32 <? 16 + len fn + 32) with false by lia.
  rewrite !sub_in_range by lia. cbn [mbind outcome_bind].
  change (drop (Z.to_nat 16) p) with (fn ++ sha).
  replace (drop (Z.to_nat (16 + len fn)) p) with sha.
  2:{ change p with ((binary.be32 total ++ binary.be64 (uint64 size)
                      ++ binary.be16 (uint16 chunk)
                      ++ binary.be16 (uint16 (len fn)) ++ fn) ++ sha).
      rewrite drop_app_length'; [done|].
      change (length (_ ++ _)) with (16 + length fn)%nat. unfold len. lia. }
  rewrite take_app_length' by (unfold len; lia).
  rewrite take_ge by (unfold len in *; lia).
  do 2 f_equal. unfold uint32, uint64, uint16, int64, is_uint32, is_uint16 in *.
  rewrite (Z.mod_small total), (Z.mod_small chunk) by lia.
  f_equal. clear p Hp. Z.div_mod_to_equations. lia.
Qed.

Lemma unpackLST_loop_entries (n : nat) (l : list string) (a r : list byte)
  (off : Z) (acc : list string) :
  off = len a -> (n <= length l)%nat ->
  Forall (fun nm => len (bytes_of_string nm) <= 65535) l ->
  unpackLST_loop n (a ++ flat_map frames.lst_entry l ++ r) off acc
  = Ret (mkLst (acc ++ take n l), None).
Proof.
  revert l a off acc. induction n as [|n IH]; intros l a off acc Hoff Hn Hall.
  - cbn. by rewrite app_nil_r.
  - destruct l as [|x l]; [cbn in Hn; lia|].
    apply Forall_cons in Hall as [Hx Hall].
    cbn [unpackLST_loop flat_map].
    set (b := bytes_of_string x) in *. pose proof (len_nonneg b).
    change (frames.lst_entry x) with (binary.be16 (uint16 (len b)) ++ b).
    pose proof (len_nonneg (flat_map frames.lst_entry l)).
    pose proof (len_nonneg r). pose proof (len_nonneg a).
    rewrite <- !app_assoc. len_simpl.
    replace (len a + (2 + (len b + (len (flat_map frames.lst_entry l) + len r)))
             <? off + 2) with false by lia.
    rewrite sub_app_middle by (len_simpl; lia).
    cbn [mbind outcome_bind]. rewrite Uint16_be16, uint16_idem.
    cbn [mbind outcome_bind]. rewrite uint16_small by lia.
    replace (len a + (2 + (len b + (len (flat_map frames.lst_entry l) + len r)))
             <? off + 2 + len b) with false by lia.
    rewrite (app_assoc a).
    rewrite sub_app_middle by (len_simpl; lia).
    cbn [mbind outcome_bind].
    rewrite (app_assoc (a ++ _)), IH by (len_simpl; cbn in Hn; done || lia).
    unfold b. rewrite string_of_bytes_of_string.
    cbn [take]. by rewrite <- app_assoc.
Qed.

Lemma unpackLST_payload (names : list string) :
  len names <= 65535 ->
  Forall (fun nm => len (bytes_of_string nm) <= 65535) names ->
  unpackLST (binary.be16 (uint16 (len names))
             ++ flat_map frames.lst_entry names)
  = Ret (mkLst names, None).
Proof.
  intros Hcnt Hall. pose proof (len_nonneg names).
  pose proof (len_nonneg (flat_map frames.lst_entry names)).
  unfold unpackLST. len_simpl.
  replace (2 + len (flat_map frames.lst_entry names) <? 2) with false by lia.
  rewrite sub_app_prefix by done.
  cbn [mbind outcome_bind]. rewrite Uint16_be16, uint16_idem.
  cbn [mbind outcome_bind]. rewrite uint16_small by lia.
  rewrite <- (app_nil_r (flat_map _ _)).
  rewrite unpackLST_loop_entries by (done || unfold len; lia).
  unfold len. rewrite Nat2Z.id. cbn [app]. by rewrite firstn_all.
Qed.

(** A frame whose payload fits the length field is parsed back whole. *)
Lemma parseCtrl_fitting (t : Z) (payload : list byte) :
  0 <= t < 256 -> len payload <= 65535 ->
  parseCtrl (ctrlHeader t (len payload) ++ payload) = Ret (t, payload, None).
Proof.
  intros Ht Hlen. pose proof (len_nonneg payload).
  rewrite parseCtrl_frame by (rewrite ?uint16_small; lia).
  rewrite uint16_small by lia. rewrite take_ge; [done|]. unfold len. lia.
Qed.

(* ===================================================================== *)
(** ** Control frames: round trip                                         *)
(* ===================================================================== *)

Lemma DecodeCtrl_fitting (t : Z) (payload : list byte) :
  0 <= t < 256 -> len payload <= 65535 ->
  DecodeCtrl (ctrlHeader t (len payload) ++ payload)
  = ('(t, p, e) ← Ret (t, payload, @None string);
     match e with
     | Some _ => Ret (""%string, any_nil, e)
     | None =>
         if t =? ctrlTypeREQ then
           '(q, e) ← unpackREQ p; Ret (TypeREQ, any_Req q, e)
         else if t =? ctrlTypeMETA then
           '(m, e) ← unpackMETA p; Ret (TypeMETA, any_Meta m, e)
         else if t =? ctrlTypeERR then
           '(e2, e) ← unpackERR p; Ret (TypeERR, any_ErrMsg e2, e)
         else if t =? ctrlTypeEOF then
           '(_, e) ← unpackEOF p; Ret (TypeEOF, any_EOFMsg, e)
         else if t =? ctrlTypeNACK then
           '(nk, e) ← unpackNACK p; Ret (TypeNACK, any_Nack nk, e)
         else if t =? ctrlTypeLIST then
           Ret (TypeLIST, any_List, None)
         else if t =? ctrlTypeLST then
           '(lst, e) ← unpackLST p; Ret (TypeLST, any_Lst lst, e)
         else
           Ret (""%string, any_nil, Some "tipo ctrl desconhecido"%string)
     end).
Proof.
  intros Ht Hlen. unfold DecodeCtrl. by rewrite parseCtrl_fitting.
Qed.

Lemma sha_of_empty_hex : frames.is_sha_hex frames.sha_of_empty.
Proof.
  split; [reflexivity|].
  unfold frames.is_lower_hex.
  repeat (constructor;
    [cbn; repeat first [left; reflexivity | right]|]).
  constructor.
Qed.

(** C5, as amended. Every control value whose fields respect their wire
    bounds and whose whole payload fits the 16-bit length field of the
    control header (so a META file name has at most 65487 bytes, an ERR
    message at most 65531, a NACK at most 16383 sequences) decodes to the
    same type tag and equal fields; a META keeps its SHA-256 digest. *)
Theorem DecodeCtrl_roundtrip (v : any) :
  frames.representable v ->
  DecodeCtrl (frames.encode v) = Ret (frames.tag v, v, None).
Proof.
  intros [Hb Hfit]. destruct v as [|[path]|m|[msg]| |[missing]| |[names]];
    cbn [frames.encode frames.fields_in_bounds frames.payload_len
         Path Message Missing Names] in *.
  - done.
  - unfold CtrlREQ, packREQ. rewrite DecodeCtrl_fitting by (done || lia).
    cbn. by rewrite string_of_bytes_of_string.
  - destruct Hb as (Hfn & Htot & Hsize & Hchunk & Hsha).
    unfold CtrlMETA. rewrite packMETA_layout.
    set (payload := (binary.be32 _ ++ _)%list).
    pose proof (parseHexSha_length (Meta.SHA256 m)) as Hshalen.
    assert (len payload
            = 4 + 8 + 2 + 2 + len (bytes_of_string (Meta.Filename m)) + 32)
      as Hpl by (unfold payload; len_simpl; lia).
    rewrite <- Hpl, DecodeCtrl_fitting by (done || lia).
    cbn [mbind outcome_bind].
    change (ctrlTypeMETA =? ctrlTypeREQ) with false.
    change (ctrlTypeMETA =? ctrlTypeMETA) with true. cbv iota.
    unfold payload. rewrite unpackMETA_payload by (done || lia).
    cbn [mbind outcome_bind].
    destruct (parseHexSha_valid _ Hsha) as [_ ->].
    rewrite string_of_bytes_of_string. by destruct m.
  - unfold CtrlERR. rewrite packERR_layout.
    set (payload := (binary.be16 1 ++ _)%list).
    assert (len payload = 2 + 2 + len (bytes_of_string msg)) as Hpl
      by (unfold payload; len_simpl; lia).
    rewrite <- Hpl, DecodeCtrl_fitting by (done || lia).
    cbn [mbind outcome_bind].
    change (ctrlTypeERR =? ctrlTypeREQ) with false.
    change (ctrlTypeERR =? ctrlTypeMETA) with false.
    change (ctrlTypeERR =? ctrlTypeERR) with true. cbv iota.
    unfold payload. by rewrite unpackERR_payload.
  - reflexivity.
  - destruct Hb as [_ Hall]. apply DecodeCtrl_CtrlNACK_exact; [done|].
    pose proof (len_nonneg missing). lia.
  - reflexivity.
  - destruct Hb as [Hcnt Hall]. unfold CtrlLST. rewrite packLST_layout.
    rewrite packLST_plen_sum in *.
    set (payload := (binary.be16 _ ++ _)%list).
    assert (len payload = 2 + len (flat_map frames.lst_entry names)) as Hpl
      by (unfold payload; len_simpl; lia).
    rewrite <- Hpl, DecodeCtrl_fitting by (done || lia).
    cbn [mbind outcome_bind].
    change (ctrlTypeLST =? ctrlTypeREQ) with false.
    change (ctrlTypeLST =? ctrlTypeMETA) with false.
    change (ctrlTypeLST =? ctrlTypeERR) with false.
    change (ctrlTypeLST =? ctrlTypeEOF) with false.
    change (ctrlTypeLST =? ctrlTypeNACK) with false.
    change (ctrlTypeLST =? ctrlTypeLIST) with false.
    change (ctrlTypeLST =? ctrlTypeLST) with true. cbv iota.
    unfold payload. by rewrite unpackLST_payload.
Qed.

Lemma DecodeCtrl_roundtrip_witness :
  DecodeCtrl (CtrlMETA frames.meta_sample)
  = Ret (TypeMETA, any_Meta frames.meta_sample, None).
Proof.
  apply (DecodeCtrl_roundtrip (any_Meta frames.meta_sample)).
  split; [|vm_compute; discriminate].
  cbn [frames.fields_in_bounds].
  split; [vm_compute; discriminate|].
  split; [unfold is_uint32; cbn; lia|].
  split; [cbn; lia|].
  split; [unfold is_uint16; cbn; lia|].
  apply sha_of_empty_hex.
Defined.

(** C5 as stated fails: a META whose file name has 65535 bytes respects
    every field bound named by the claim, yet its 65583-byte payload wraps
    the 16-bit length field to 47 and decoding reports [META curto]. *)
Lemma DecodeCtrl_long_name_fails :
  frames.fields_in_bounds (any_Meta frames.meta_long_name)
  /\ DecodeCtrl (CtrlMETA frames.meta_long_name)
     = Ret (TypeMETA, any_Meta Meta.zero, Some "META curto"%string)
  /\ DecodeCtrl (CtrlMETA frames.meta_long_name)
     <> Ret (TypeMETA, any_Meta frames.meta_long_name, None).
Proof.
  assert (DecodeCtrl (CtrlMETA frames.meta_long_name)
          = Ret (TypeMETA, any_Meta Meta.zero, Some "META curto"%string)) as E.
  { unfold CtrlMETA. rewrite packMETA_layout. vm_compute. reflexivity. }
  split; [|split; [exact E|rewrite E; discriminate]].
  cbn [frames.fields_in_bounds frames.meta_long_name Meta.Filename Meta.Total
       Meta.Size Meta.Chunk Meta.SHA256].
  split.
  { rewrite bytes_of_string_of_bytes. unfold len. rewrite repeat_length. lia. }
  split; [unfold is_uint32; lia|].
  split; [lia|].
  split; [unfold is_uint16; lia|].
  apply sha_of_empty_hex.
Qed.

(* ===================================================================== *)
(** ** parseHexSha on malformed input                                     *)
(* ===================================================================== *)

Lemma parseHexSha_wrong_length (s : string) :
  len (bytes_of_string s) <> 64 -> parseHexSha s = make 32.
Proof.
  intros Hlen. unfold parseHexSha.
  by replace (len (bytes_of_string s) =? 64) with false by lia.
Qed.

(** C9 fails on the code. The string below has 64 characters, the second
    pair [zz] is not hexadecimal, and [parseHexSha] returns the buffer with
    its first byte already set to 0xff instead of 32 zero bytes: the early
    return inside the loop hands back the partially filled buffer. *)
Theorem parseHexSha_partial_fill :
  len (bytes_of_string frames.sha_bad_second_pair) = 64
  /\ ~ Forall frames.is_lower_hex (bytes_of_string frames.sha_bad_second_pair)
  /\ snd (hexval "z"%char) = false
  /\ parseHexSha frames.sha_bad_second_pair
     = byte_of_Z 0xff :: repeat zero_byte 31
  /\ parseHexSha frames.sha_bad_second_pair <> make 32.
Proof.
  split; [reflexivity|]. split; [|split; [reflexivity|]].
  - intros Hall.
    apply Forall_cons in Hall as [_ Hall]. apply Forall_cons in Hall as [_ Hall].
    apply Forall_cons in Hall as [Hz _]. unfold frames.is_lower_hex in Hz.
    cbn in Hz. intuition discriminate.
  - assert (parseHexSha frames.sha_bad_second_pair
            = byte_of_Z 0xff :: repeat zero_byte 31) as E
      by (vm_compute; reflexivity).
    split; [exact E|]. rewrite E. vm_compute. discriminate.
Qed.

(* ===================================================================== *)
(** ** Drop policy                                                        *)
(* ===================================================================== *)

Section drop_policy_facts.
Context `{RandSource}.
Import clientudp.

Lemma ShouldDrop_dropped_mono (d : option DropPolicy) (q : Z) :
  dropped_set d ⊆ dropped_set (ShouldDrop d q).2.
Proof.
  destruct d as [p|]; [|done]. cbn [ShouldDrop].
  destruct (PrimFloat.leb (rate p) 0); [done|].
  destruct (decide (q ∈ dropped p)); [done|].
  destruct (rand_Float64 (rnd p)) as [x r].
  destruct (PrimFloat.ltb x (rate p)); cbn; set_solver.
Qed.

Lemma ShouldDrop_true_inserts (d : option DropPolicy) (q : Z) :
  (ShouldDrop d q).1 = true ->
  (q ∉ dropped_set d) /\ (q ∈ dropped_set (ShouldDrop d q).2).
Proof.
  destruct d as [p|]; [|done]. cbn [ShouldDrop].
  destruct (PrimFloat.leb (rate p) 0); [done|].
  destruct (decide (q ∈ dropped p)); [done|].
  destruct (rand_Float64 (rnd p)) as [x r].
  destruct (PrimFloat.ltb x (rate p)); cbn; [|done]. set_solver.
Qed.

Lemma ShouldDrop_already_dropped (d : option DropPolicy) (q : Z) :
  q ∈ dropped_set d -> ShouldDrop d q = (false, d).
Proof.
  destruct d as [p|]; [|intros _; reflexivity].
  cbn [ShouldDrop dropped_set]. intros Hq.
  destruct (PrimFloat.leb (rate p) 0); [done|].
  by destruct (decide (q ∈ dropped p)).
Qed.

Lemma drop_calls_dropped_mono (seqs : list Z) (d : option DropPolicy) :
  dropped_set d ⊆ dropped_set (drop_calls d seqs).2.
Proof.
  revert d. induction seqs as [|q rest IH]; intros d; [done|].
  cbn [drop_calls]. pose proof (ShouldDrop_dropped_mono d q) as Hm.
  destruct (ShouldDrop d q) as [r d']. specialize (IH d').
  destruct (drop_calls d' rest) as [tr d'']. cbn in *. set_solver.
Qed.

Lemma drops_of_cons (s q : Z) (r : bool) (tr : list (Z * bool)) :
  drops_of s ((q, r) :: tr)
  = ((if decide (q = s /\ r = true) then 1 else 0) + drops_of s tr)%nat.
Proof.
  unfold drops_of. rewrite filter_cons. cbn [fst snd].
  by destruct (decide (q = s /\ r = true)).
Qed.

(** Once [s] is in the set no call on [s] answers [true]; before that, at
    most one does. *)
Lemma drop_calls_single_shot (seqs : list Z) (d : option DropPolicy) (s : Z) :
  (s ∈ dropped_set d -> drops_of s (drop_calls d seqs).1 = 0%nat)
  /\ (drops_of s (drop_calls d seqs).1 <= 1)%nat.
Proof.
  revert d. induction seqs as [|q rest IH]; intros d.
  { cbn. split; [done|]. unfold drops_of. cbn. lia. }
  cbn [drop_calls].
  pose proof (ShouldDrop_dropped_mono d q) as Hmono.
  pose proof (ShouldDrop_true_inserts d q) as Htrue.
  destruct (ShouldDrop d q) as [r d']. destruct (IH d') as [IH0 IH1].
  destruct (drop_calls d' rest) as [tr d'']. cbn [fst snd] in *.
  rewrite drops_of_cons. destruct (decide (q = s /\ r = true)) as [[Hq Hr]|Hne].
  - subst q. destruct (Htrue Hr) as [Hnot Hin]. rewrite (IH0 Hin).
    split; [done|lia].
  - split; [|lia]. intros Hs. rewrite IH0; [done|]. by apply Hmono.
Qed.

(** For a rate above zero the constructor does build a policy. *)
Lemma positive_rate_not_le (r : float) :
  PrimFloat.ltb 0 r = true -> PrimFloat.leb r 0 = false.
Proof.
  rewrite FloatAxioms.ltb_spec, FloatAxioms.leb_spec.
  change (FloatOps.Prim2SF 0) with (SpecFloat.S754_zero false).
  destruct (FloatOps.Prim2SF r) as [[]|[]| |[] m e]; cbn; congruence.
Qed.

(** C1. The constructor returns the nil policy for a rate that is not
    above zero, and the nil policy never drops.  For a rate above zero it
    returns a policy with an empty set, and in every sequence of calls on
    that policy at most one call on a given sequence number answers true;
    for any policy, once [s] is in the dropped set it stays there and every
    later [ShouldDrop s] answers false. *)
Theorem ShouldDrop_single_shot :
  (forall rate seed, PrimFloat.leb rate 0 = true -> NewDrop rate seed = None)
  /\ (forall s, ShouldDrop None s = (false, None))
  /\ (forall rate seed, PrimFloat.ltb 0 rate = true ->
        exists p, NewDrop rate seed = Some p /\ dropped p = ∅
          /\ forall seqs s, (drops_of s (drop_calls (Some p) seqs).1 <= 1)%nat)
  /\ (forall d s seqs, s ∈ dropped_set d ->
        drops_of s (drop_calls d seqs).1 = 0%nat
        /\ s ∈ dropped_set (drop_calls d seqs).2
        /\ (ShouldDrop (drop_calls d seqs).2 s).1 = false).
Proof.
  split; [|split; [|split]].
  - intros r seed Hr. unfold NewDrop. by rewrite Hr.
  - done.
  - intros r seed Hr. unfold NewDrop. rewrite (positive_rate_not_le r Hr).
    eexists. split; [done|]. split; [done|].
    intros seqs s. apply drop_calls_single_shot.
  - intros d s seqs Hs.
    pose proof (drop_calls_dropped_mono seqs d) as Hm.
    split; [by apply drop_calls_single_shot|].
    split; [set_solver|].
    rewrite ShouldDrop_already_dropped; [done|set_solver].
Qed.

End drop_policy_facts.

Import clientudp.

Lemma ShouldDrop_single_shot_witness :
  Nat.le
    (drops_of 3 (drop_calls (@NewDrop cycleRand 0.5%float 0) [3; 3; 3; 4; 3]).1)
    1
  /\ @NewDrop cycleRand (-0.5)%float 0 = None.
Proof.
  destruct (@ShouldDrop_single_shot cycleRand) as (Hnil & _ & Hpos & _).
  split.
  - destruct (Hpos 0.5%float 0 eq_refl) as (p & Hp & _ & Hle).
    rewrite Hp. apply Hle.
  - apply Hnil. reflexivity.
Defined.

Example drop_calls_sample :
  (drop_calls (@NewDrop cycleRand 0.5%float 0) [3; 3; 3; 4; 3]).1
  = [(3, false); (3, true); (3, false); (4, false); (3, false)].
Proof. vm_compute. reflexivity. Qed.

(* ===================================================================== *)
(** ** Client: processing one datagram                                    *)
(* ===================================================================== *)

Lemma Z_of_byte_bounds (b : byte) : 0 <= Z_of_byte b <= 255.
Proof. pose proof (Z_of_byte_range b). lia. Qed.

Lemma index_Some {A : Type} (b : list A) (i : Z) (x : A) :
  index b i = Ret x -> 0 <= i < len b /\ b !! Z.to_nat i = Some x.
Proof.
  unfold index. destruct (0 <=? i) eqn:H0, (i <? len b) eqn:H1; try done.
  cbn [andb]. destruct (b !! Z.to_nat i) eqn:E; [|done].
  intros [= ->]. split; [lia|done].
Qed.

Lemma Uint16_range (b : list byte) (v : Z) :
  binary.Uint16 b = Ret v -> is_uint16 v.
Proof.
  unfold binary.Uint16, is_uint16.
  destruct (index b 1) as [b1|]; [|done]. cbn [mbind outcome_bind].
  destruct (index b 0) as [b0|]; [|done]. cbn [mbind outcome_bind].
  intros [= <-].
  pose proof (Z_of_byte_bounds b0). pose proof (Z_of_byte_bounds b1).
  lor_to_add. lia.
Qed.

Lemma Uint32_range (b : list byte) (v : Z) :
  binary.Uint32 b = Ret v -> is_uint32 v.
Proof.
  unfold binary.Uint32, is_uint32.
  destruct (index b 3) as [b3|]; [|done]. cbn [mbind outcome_bind].
  destruct (index b 2) as [b2|]; [|done]. cbn [mbind outcome_bind].
  destruct (index b 1) as [b1|]; [|done]. cbn [mbind outcome_bind].
  destruct (index b 0) as [b0|]; [|done]. cbn [mbind outcome_bind].
  intros [= <-].
  pose proof (Z_of_byte_bounds b0). pose proof (Z_of_byte_bounds b1).
  pose proof (Z_of_byte_bounds b2). pose proof (Z_of_byte_bounds b3).
  lor_to_add. lia.
Qed.

(** A header that [UnpackHeader] accepts has fields within their widths. *)
Lemma UnpackHeader_valid (b : list byte) (h : DataHeader.t) :
  UnpackHeader b = Ret (h, None) -> DataHeader.valid h.
Proof.
  unfold UnpackHeader. destruct (len b <? dataHeaderSize); [done|].
  destruct (index b 0) as [b0|]; [|done]. cbn [mbind outcome_bind].
  destruct (index b 1) as [b1|]; [|done]. cbn [mbind outcome_bind].
  destruct (index b 2) as [b2|]; [|done]. cbn [mbind outcome_bind].
  destruct (_ || _); [done|].
  destruct (sub b 4 8) as [s1|]; [|done]. cbn [mbind outcome_bind].
  destruct (binary.Uint32 s1) as [v1|] eqn:E1; [|done]. cbn [mbind outcome_bind].
  destruct (sub b 8 12) as [s2|]; [|done]. cbn [mbind outcome_bind].
  destruct (binary.Uint32 s2) as [v2|] eqn:E2; [|done]. cbn [mbind outcome_bind].
  destruct (sub b 12 14) as [s3|]; [|done]. cbn [mbind outcome_bind].
  destruct (binary.Uint16 s3) as [v3|] eqn:E3; [|done]. cbn [mbind outcome_bind].
  destruct (sub b 14 18) as [s4|]; [|done]. cbn [mbind outcome_bind].
  destruct (binary.Uint32 s4) as [v4|] eqn:E4; [|done]. cbn [mbind outcome_bind].
  intros [= <-]. unfold DataHeader.valid. cbn [DataHeader.Seq DataHeader.Total
    DataHeader.Size DataHeader.CRC32].
  pose proof (Uint32_range _ _ E1). pose proof (Uint32_range _ _ E2).
  pose proof (Uint16_range _ _ E3). pose proof (Uint32_range _ _ E4). done.
Qed.

Lemma index_in_range {A : Type} (b : list A) (i : Z) :
  0 <= i < len b -> exists x, index b i = Ret x.
Proof.
  intros Hi. unfold index.
  replace (0 <=? i) with true by lia. replace (i <? len b) with true by lia.
  cbn [andb]. destruct (b !! Z.to_nat i) eqn:E; [eauto|].
  apply lookup_ge_None in E. unfold len in Hi. lia.
Qed.

Lemma Uint16_total (b : list byte) :
  2 <= len b -> exists v, binary.Uint16 b = Ret v.
Proof.
  intros Hb. unfold binary.Uint16.
  destruct (index_in_range b 1) as [x1 ->]; [lia|].
  destruct (index_in_range b 0) as [x0 ->]; [lia|].
  cbn [mbind outcome_bind]. eauto.
Qed.

Lemma Uint32_total (b : list byte) :
  4 <= len b -> exists v, binary.Uint32 b = Ret v.
Proof.
  intros Hb. unfold binary.Uint32.
  destruct (index_in_range b 3) as [x3 ->]; [lia|].
  destruct (index_in_range b 2) as [x2 ->]; [lia|].
  destruct (index_in_range b 1) as [x1 ->]; [lia|].
  destruct (index_in_range b 0) as [x0 ->]; [lia|].
  cbn [mbind outcome_bind]. eauto.
Qed.

Lemma Uint64_total (b : list byte) :
  8 <= len b -> exists v, binary.Uint64 b = Ret v.
Proof.
  intros Hb. unfold binary.Uint64.
  destruct (index_in_range b 7) as [x7 ->]; [lia|].
  destruct (index_in_range b 6) as [x6 ->]; [lia|].
  destruct (index_in_range b 5) as [x5 ->]; [lia|].
  destruct (index_in_range b 4) as [x4 ->]; [lia|].
  destruct (index_in_range b 3) as [x3 ->]; [lia|].
  destruct (index_in_range b 2) as [x2 ->]; [lia|].
  destruct (index_in_range b 1) as [x1 ->]; [lia|].
  destruct (index_in_range b 0) as [x0 ->]; [lia|].
  cbn [mbind outcome_bind]. eauto.
Qed.

Lemma len_take_drop {A : Type} (b : list A) (lo hi : Z) :
  0 <= lo <= hi -> hi <= len b ->
  len (take (Z.to_nat (hi - lo)) (drop (Z.to_nat lo) b)) = hi - lo.
Proof.
  intros H1 H2. unfold len in *. rewrite length_take, length_drop. lia.
Qed.

(** Steps a goal through one in-range read of the outcome monad. *)
Tactic Notation "read_u32" constr(b) constr(lo) constr(hi) ident(v) :=
  rewrite (sub_in_range b lo hi) by lia; cbn [mbind outcome_bind];
  let H := fresh "E" v in
  destruct (Uint32_total (take (Z.to_nat (hi - lo)) (drop (Z.to_nat lo) b)))
    as [v H]; [rewrite len_take_drop by lia; lia|];
  rewrite H; cbn [mbind outcome_bind].

Tactic Notation "read_u16" constr(b) constr(lo) constr(hi) ident(v) :=
  rewrite (sub_in_range b lo hi) by lia; cbn [mbind outcome_bind];
  let H := fresh "E" v in
  destruct (Uint16_total (take (Z.to_nat (hi - lo)) (drop (Z.to_nat lo) b)))
    as [v H]; [rewrite len_take_drop by lia; lia|];
  rewrite H; cbn [mbind outcome_bind].

Tactic Notation "read_u64" constr(b) constr(lo) constr(hi) ident(v) :=
  rewrite (sub_in_range b lo hi) by lia; cbn [mbind outcome_bind];
  let H := fresh "E" v in
  destruct (Uint64_total (take (Z.to_nat (hi - lo)) (drop (Z.to_nat lo) b)))
    as [v H]; [rewrite len_take_drop by lia; lia|];
  rewrite H; cbn [mbind outcome_bind].

(** [UnpackHeader] never faults, whatever the bytes. *)
Lemma UnpackHeader_total (b : list byte) : exists r, UnpackHeader b = Ret r.
Proof.
  unfold UnpackHeader. destruct (len b <? dataHeaderSize) eqn:Hlen; [eauto|].
  assert (18 <= len b) as Hb by (unfold dataHeaderSize in Hlen; lia).
  destruct (index_in_range b 0) as [x0 ->]; [lia|].
  destruct (index_in_range b 1) as [x1 ->]; [lia|].
  destruct (index_in_range b 2) as [x2 ->]; [lia|].
  cbn [mbind outcome_bind]. destruct (_ || _); [eauto|].
  read_u32 b 4 8 vseq. read_u32 b 8 12 vtotal. read_u16 b 12 14 vsize.
  read_u32 b 14 18 vcrc. eauto.
Qed.

Section process_packet.
Context `{RandSource}.

Lemma reslice_in_range (b : slice) (lo hi : Z) :
  0 <= lo <= hi -> hi <= slice_cap b ->
  reslice b lo hi
  = Ret (mkSlice (take (Z.to_nat (hi - lo))
                       (drop (Z.to_nat lo) (visible b ++ spare b)))
                 (drop (Z.to_nat hi) (visible b ++ spare b))).
Proof.
  intros H1 H2. unfold reslice.
  replace (0 <=? lo) with true by lia. replace (lo <=? hi) with true by lia.
  by replace (hi <=? slice_cap b) with true by lia.
Qed.

Lemma reslice_Ret (b s : slice) (lo hi : Z) :
  reslice b lo hi = Ret s ->
  0 <= lo <= hi /\ hi <= slice_cap b
  /\ visible s = take (Z.to_nat (hi - lo))
                      (drop (Z.to_nat lo) (visible b ++ spare b)).
Proof.
  unfold reslice.
  destruct (0 <=? lo) eqn:H0, (lo <=? hi) eqn:H1, (hi <=? slice_cap b) eqn:H2;
    try done.
  cbn [andb]. intros [= <-]. cbn. split; [lia|]. split; [lia|done].
Qed.

Lemma slice_cap_len (b : slice) : slice_len b <= slice_cap b.
Proof. unfold slice_len, slice_cap. pose proof (len_nonneg (spare b)). lia. Qed.

(** Every way [processPacket] can return: the state is untouched, or the
    packet was accepted and its payload stored. *)
Lemma processPacket_cases (b : slice) (dp dp' : option DropPolicy)
  (cb : Callbacks) (st st' : recvState) (eof : bool) (evs : list event) :
  processPacket b dp cb st = Ret (eof, dp', st', evs) ->
  st' = st
  \/ (eof = false /\ IsCtrl (visible b) = false
      /\ exists h, accepted b dp st h
         /\ len (payload_bytes b h) = DataHeader.Size h
         /\ st' = mkRecvState
                    (<[DataHeader.Seq h := payload_bytes b h]> (recv st))
                    (uint64 (bytesRecv st + uint64 (DataHeader.Size h)))
                    (uint64 (segsRecv st + 1))).
Proof.
  unfold processPacket. destruct (IsCtrl (visible b)) eqn:Hctrl.
  { destruct (DecodeCtrl (visible b)) as [[[typ v] [e|]]|]; cbn; try done.
    - intros [= _ _ <- _]. by left.
    - intros [= _ _ <- _]. by left. }
  unfold reslice_to, reslice_from.
  destruct (reslice b 0 HeaderSize) as [hb|] eqn:Ehb; [|done].
  cbn [mbind outcome_bind].
  apply reslice_Ret in Ehb as (_ & _ & Ehb).
  change (drop (Z.to_nat 0) ?l) with l in Ehb.
  rewrite Z.sub_0_r in Ehb. fold (header_bytes b) in Ehb. rewrite Ehb.
  destruct (UnpackHeader (header_bytes b)) as [[h [e|]]|] eqn:Eh;
    cbn [mbind outcome_bind]; try done.
  { intros [= _ _ <- _]. by left. }
  destruct (reslice b HeaderSize (slice_len b)) as [p0|] eqn:Ep0; [|done].
  cbn [mbind outcome_bind].
  apply reslice_Ret in Ep0 as (Hlen18 & _ & _).
  destruct (slice_len b <? HeaderSize + DataHeader.Size h) eqn:Hshort.
  { intros [= _ _ <- _]. by left. }
  pose proof (UnpackHeader_valid _ _ Eh) as (_ & _ & Hsize & _).
  unfold is_uint16 in Hsize. pose proof (slice_cap_len b) as Hcap.
  rewrite reslice_in_range by lia. cbn [mbind outcome_bind].
  set (payload := take _ (drop _ (visible b ++ spare b))).
  assert (payload = payload_bytes b h) as Hpay.
  { unfold payload, payload_bytes.
    replace (HeaderSize + DataHeader.Size h - HeaderSize)
      with (DataHeader.Size h) by lia.
    rewrite drop_app_le by (unfold slice_len, len in *; lia).
    rewrite take_app_le; [done|]. rewrite length_drop.
    unfold slice_len, len in *. lia. }
  assert (len payload = DataHeader.Size h) as Hplen.
  { rewrite Hpay. unfold payload_bytes, len. rewrite length_take, length_drop.
    unfold slice_len, len in *. lia. }
  unfold slice_len at 1 2. cbn [visible]. rewrite Hplen, Z.eqb_refl.
  cbn [negb].
  assert ((match dp with
           | Some _ => ShouldDrop dp (DataHeader.Seq h)
           | None => (false, dp)
           end).1 = drop_selected dp (DataHeader.Seq h)) as Hsel.
  { by destruct dp. }
  destruct (match dp with
            | Some _ => ShouldDrop dp (DataHeader.Seq h)
            | None => (false, dp)
            end) as [dropit d1]. cbn [fst] in Hsel. subst dropit.
  destruct (drop_selected dp (DataHeader.Seq h)) eqn:Hdrop.
  { intros [= _ _ <- _]. by left. }
  destruct (CRC32 payload =? DataHeader.CRC32 h) eqn:Hcrc; cbn [negb].
  2:{ intros [= _ _ <- _]. by left. }
  destruct (recv st !! DataHeader.Seq h) eqn:Hdup.
  { intros [= _ _ <- _]. by left. }
  intros [= <- _ <- _]. right. split; [done|]. split; [done|].
  exists h. rewrite <- Hpay. unfold slice_len. cbn [visible]. rewrite Hplen.
  split; [|done]. unfold accepted. rewrite <- Hpay.
  repeat split; try done; lia.
Qed.

(** Conversely, a packet that meets the conditions is stored. *)
Lemma processPacket_accepts (b : slice) (dp : option DropPolicy)
  (cb : Callbacks) (st : recvState) (h : DataHeader.t) :
  IsCtrl (visible b) = false -> accepted b dp st h ->
  exists dp' evs,
    processPacket b dp cb st
    = Ret (false, dp',
           mkRecvState
             (<[DataHeader.Seq h := payload_bytes b h]> (recv st))
             (uint64 (bytesRecv st + uint64 (DataHeader.Size h)))
             (uint64 (segsRecv st + 1)),
           evs).
Proof.
  intros Hctrl (Hh & Hfit & Hsel & Hcrc & Hnew).
  pose proof (UnpackHeader_valid _ _ Hh) as (_ & _ & Hsize & _).
  unfold is_uint16 in Hsize. pose proof (slice_cap_len b) as Hcap.
  assert (HeaderSize = 18) as H18 by reflexivity.
  unfold processPacket. rewrite Hctrl. unfold reslice_to, reslice_from.
  rewrite (reslice_in_range b 0 HeaderSize) by lia.
  cbn [mbind outcome_bind visible].
  change (drop (Z.to_nat 0) ?l) with l. rewrite Z.sub_0_r.
  fold (header_bytes b). rewrite Hh. cbn [mbind outcome_bind].
  rewrite (reslice_in_range b HeaderSize (slice_len b)) by lia.
  cbn [mbind outcome_bind].
  rewrite (proj2 (Z.ltb_ge (slice_len b) (HeaderSize + DataHeader.Size h)))
    by lia.
  rewrite reslice_in_range by lia. cbn [mbind outcome_bind].
  set (payload := take _ (drop _ (visible b ++ spare b))).
  assert (payload = payload_bytes b h) as Hpay.
  { unfold payload, payload_bytes.
    replace (HeaderSize + DataHeader.Size h - HeaderSize)
      with (DataHeader.Size h) by lia.
    rewrite drop_app_le by (unfold slice_len, len in *; lia).
    rewrite take_app_le; [done|]. rewrite length_drop.
    unfold slice_len, len in *. lia. }
  assert (len payload = DataHeader.Size h) as Hplen.
  { rewrite Hpay. unfold payload_bytes, len. rewrite length_take, length_drop.
    unfold slice_len, len in *. lia. }
  unfold slice_len at 1 2. cbn [visible]. rewrite Hplen, Z.eqb_refl.
  cbn [negb].
  assert ((match dp with
           | Some _ => ShouldDrop dp (DataHeader.Seq h)
           | None => (false, dp)
           end).1 = drop_selected dp (DataHeader.Seq h)) as Hsel'.
  { by destruct dp. }
  destruct (match dp with
            | Some _ => ShouldDrop dp (DataHeader.Seq h)
            | None => (false, dp)
            end) as [dropit d1]. cbn [fst] in Hsel'. subst dropit.
  rewrite Hsel, Hpay, Hcrc, Z.eqb_refl. cbn [negb]. rewrite Hnew.
  rewrite <- Hpay. unfold slice_len. cbn [visible]. rewrite Hplen.
  eauto.
Qed.

Lemma stored_bytes_empty : stored_bytes ∅ = 0.
Proof. apply map_fold_empty. Qed.

Lemma stored_bytes_insert (m : gmap Z (list byte)) (k : Z) (v : list byte) :
  m !! k = None -> stored_bytes (<[k := v]> m) = stored_bytes m + len v.
Proof.
  intros Hk. unfold stored_bytes.
  rewrite map_fold_insert_L; [done| |done]. intros. lia.
Qed.

Lemma stored_bytes_bound (m : gmap Z (list byte)) :
  map_Forall (fun k v => is_uint32 k /\ len v <= 65535) m ->
  0 <= stored_bytes m <= 65535 * Z.of_nat (size m).
Proof.
  induction m as [|k v m Hk _ IH] using map_first_key_ind.
  - intros _. rewrite stored_bytes_empty, map_size_empty. lia.
  - intros Hall. apply map_Forall_insert in Hall as [[_ Hv] Hall]; [|done].
    rewrite stored_bytes_insert, map_size_insert_None by done.
    pose proof (len_nonneg v). specialize (IH Hall). lia.
Qed.

Lemma size_bounded_keys (m : gmap Z (list byte)) :
  map_Forall (fun k v => is_uint32 k /\ len v <= 65535) m ->
  Z.of_nat (size m) <= 2 ^ 32.
Proof.
  intros Hall. rewrite <- (size_dom (D := gset Z)).
  assert (dom m ⊆ (list_to_set (seqZ 0 (2 ^ 32)) : gset Z)) as Hsub.
  { intros k Hk. apply elem_of_dom in Hk as [v Hv].
    apply Hall in Hv as [Hk _]. unfold is_uint32 in Hk.
    apply elem_of_list_to_set, elem_of_seqZ. lia. }
  apply subseteq_size in Hsub.
  rewrite size_list_to_set in Hsub by apply NoDup_seqZ.
  rewrite length_seqZ in Hsub. lia.
Qed.

(** The exact counters stay clear of the 64-bit wrap-around. *)
Lemma counters_exact_small (st : recvState) :
  counters_exact st ->
  0 <= segsRecv st <= 2 ^ 32 /\ 0 <= bytesRecv st <= 65535 * 2 ^ 32.
Proof.
  intros (Hsegs & Hbytes & Hall).
  pose proof (size_bounded_keys _ Hall). pose proof (stored_bytes_bound _ Hall).
  rewrite Hsegs, Hbytes. lia.
Qed.

(** One call of [processPacket] keeps the counters exact, and an accepted
    packet moves them by the payload length and by one, without wrapping. *)
Lemma processPacket_step (b : slice) (dp dp' : option DropPolicy)
  (cb : Callbacks) (st st' : recvState) (eof : bool) (evs : list event) :
  counters_exact st ->
  processPacket b dp cb st = Ret (eof, dp', st', evs) ->
  counters_exact st'
  /\ (st' = st
      \/ (eof = false /\ IsCtrl (visible b) = false
          /\ exists h, accepted b dp st h
             /\ len (payload_bytes b h) = DataHeader.Size h
             /\ recv st' = <[DataHeader.Seq h := payload_bytes b h]> (recv st)
             /\ bytesRecv st' = bytesRecv st + len (payload_bytes b h)
             /\ segsRecv st' = segsRecv st + 1)).
Proof.
  intros Hinv Hrun. pose proof (counters_exact_small st Hinv) as [Hs Hb].
  destruct (processPacket_cases _ _ _ _ _ _ _ _ Hrun)
    as [->|(Heof & Hctrl & h & Hacc & Hplen & ->)]; [by split; [|left]|].
  pose proof Hacc as (Hh & Hfit & Hsel & Hcrc & Hnew).
  pose proof (UnpackHeader_valid _ _ Hh) as (Hseq & _ & Hsize & _).
  unfold is_uint16 in Hsize. destruct Hinv as (Hsegs & Hbytes & Hall).
  assert (uint64 (DataHeader.Size h) = DataHeader.Size h) as Hu
    by (unfold uint64; apply Z.mod_small; lia).
  assert (uint64 (bytesRecv st + DataHeader.Size h)
          = bytesRecv st + DataHeader.Size h) as Hub
    by (unfold uint64; apply Z.mod_small; lia).
  assert (uint64 (segsRecv st + 1) = segsRecv st + 1) as Hus
    by (unfold uint64; apply Z.mod_small; lia).
  rewrite Hu, Hub, Hus. split.
  - unfold counters_exact. cbn [recv bytesRecv segsRecv].
    rewrite map_size_insert_None, stored_bytes_insert by done.
    split; [lia|]. split; [lia|].
    apply map_Forall_insert; [done|]. split; [|done]. split; [done|lia].
  - right. split; [done|]. split; [done|]. exists h. cbn. rewrite Hplen. done.
Qed.

Lemma reachable_counters_exact (st : recvState) :
  reachable st -> counters_exact st.
Proof.
  induction 1 as [|st st' b dp dp' cb eof evs _ IH Hrun].
  - unfold counters_exact. cbn. rewrite map_size_empty, stored_bytes_empty.
    split; [done|]. split; [done|]. apply map_Forall_empty.
  - by destruct (processPacket_step _ _ _ _ _ _ _ _ IH Hrun).
Qed.

(** A datagram of at least 18 bytes never faults in [processPacket],
    provided that it is not a control frame. *)
Lemma processPacket_long_enough (b : slice) (dp : option DropPolicy)
  (cb : Callbacks) (st : recvState) :
  IsCtrl (visible b) = false -> HeaderSize <= slice_len b ->
  exists r, processPacket b dp cb st = Ret r.
Proof.
  intros Hctrl Hlen. unfold processPacket. rewrite Hctrl.
  pose proof (slice_cap_len b) as Hcap.
  assert (HeaderSize = 18) as H18 by reflexivity.
  unfold reslice_to, reslice_from.
  rewrite (reslice_in_range b 0 HeaderSize) by lia.
  cbn [mbind outcome_bind visible].
  destruct (UnpackHeader_total
              (take (Z.to_nat (HeaderSize - 0))
                 (drop (Z.to_nat 0) (visible b ++ spare b))))
    as [[h e] Eh].
  rewrite Eh. cbn [mbind outcome_bind]. destruct e as [e|]; [eauto|].
  rewrite (reslice_in_range b HeaderSize (slice_len b)) by lia.
  cbn [mbind outcome_bind].
  destruct (slice_len b <? _) eqn:Hshort; [eauto|].
  pose proof (UnpackHeader_valid _ _ Eh) as (_ & _ & Hsize & _).
  unfold is_uint16 in Hsize.
  rewrite reslice_in_range by lia. cbn [mbind outcome_bind].
  destruct (negb _); [eauto|].
  destruct (match dp with Some _ => _ | None => _ end) as [dropit d1].
  destruct dropit; [eauto|]. destruct (negb _); [eauto|].
  destruct (recv st !! _); eauto.
Qed.

(** C2, as amended.  From any state that a transfer can reach, a DATA
    datagram of at least 18 bytes is processed to completion, and whenever
    [processPacket] returns: the new state is again reachable and its
    counters are exact; either nothing changed, or the header parsed, the
    datagram is at least as long as the header and the declared size
    together, the drop policy did not select the sequence, the CRC32 of the
    first [Size] bytes behind the header equals the header field, the
    sequence was not yet a key, and then exactly those [Size] bytes are
    stored under the sequence, the bytes counter grows by their number and
    the segments counter by one; a packet that is shorter than the header
    and the declared size together, is selected by the drop policy, fails
    the CRC or repeats a stored sequence leaves the map and both counters
    as they were.  Conversely every packet that meets the conditions is
    stored: bytes behind the declared size do not make the packet fail, they
    are left out. *)
Theorem processPacket_receive_invariant (b : slice) (dp : option DropPolicy)
  (cb : Callbacks) (st : recvState) :
  reachable st -> IsCtrl (visible b) = false ->
  (HeaderSize <= slice_len b -> exists r, processPacket b dp cb st = Ret r)
  /\ (forall eof dp' st' evs,
       processPacket b dp cb st = Ret (eof, dp', st', evs) ->
       reachable st' /\ counters_exact st'
       /\ (st' = st
           \/ exists h, accepted b dp st h
              /\ len (payload_bytes b h) = DataHeader.Size h
              /\ recv st' = <[DataHeader.Seq h := payload_bytes b h]> (recv st)
              /\ bytesRecv st' = bytesRecv st + len (payload_bytes b h)
              /\ segsRecv st' = segsRecv st + 1)
       /\ forall h, UnpackHeader (header_bytes b) = Ret (h, None) ->
            slice_len b < HeaderSize + DataHeader.Size h
            \/ drop_selected dp (DataHeader.Seq h) = true
            \/ CRC32 (payload_bytes b h) <> DataHeader.CRC32 h
            \/ is_Some (recv st !! DataHeader.Seq h) ->
            recv st' = recv st /\ bytesRecv st' = bytesRecv st
            /\ segsRecv st' = segsRecv st)
  /\ forall h, accepted b dp st h ->
       exists dp' st' evs,
         processPacket b dp cb st = Ret (false, dp', st', evs)
         /\ recv st' = <[DataHeader.Seq h := payload_bytes b h]> (recv st)
         /\ bytesRecv st' = bytesRecv st + DataHeader.Size h
         /\ segsRecv st' = segsRecv st + 1.
Proof.
  intros Hreach Hctrl. split; [by apply processPacket_long_enough|].
  pose proof (reachable_counters_exact st Hreach) as Hinv.
  split.
  - intros eof dp' st' evs Hrun.
    destruct (processPacket_step _ _ _ _ _ _ _ _ Hinv Hrun) as [Hinv' Hcases].
    split; [by eapply reachable_step|]. split; [done|]. split.
    + destruct Hcases as [->|(_ & _ & h & Hacc)]; [by left|right; eauto].
    + intros h Hh Hrej.
      destruct Hcases as [->|(_ & _ & h' & Hacc & _)]; [done|].
      destruct Hacc as (Hh' & Hfit & Hsel & Hcrc & Hnew).
      rewrite Hh in Hh'. injection Hh' as <-.
      destruct Hrej as [Hshort|[Hdrop|[Hbad|[v Hdup]]]].
      * lia.
      * congruence.
      * done.
      * congruence.
  - intros h Hacc.
    destruct (processPacket_accepts b dp cb st h Hctrl Hacc)
      as (dp' & evs & Hrun).
    destruct (processPacket_step _ _ _ _ _ _ _ _ Hinv Hrun)
      as [_ [Hsame|(_ & _ & h' & Hacc' & Hplen & Hrecv & Hbytes & Hsegs)]].
    + exfalso. destruct Hacc as (_ & _ & _ & _ & Hnew).
      apply (f_equal (fun x => recv x !! DataHeader.Seq h)) in Hsame.
      cbn [recv] in Hsame. rewrite lookup_insert_eq, Hnew in Hsame. done.
    + destruct Hacc as (Hh & _). destruct Hacc' as (Hh' & _).
      rewrite Hh in Hh'. injection Hh' as <-.
      do 3 eexists. split; [exact Hrun|]. cbn [recv] in *.
      split; [done|]. split; [by rewrite Hbytes, Hplen|done].
Qed.

(** C8 fails in the client.  A three-byte datagram [U D 0x01], read into
    the 1042-byte receive buffer, makes [processPacket] fault: [b[:18]]
    reaches into the zeroed rest of the buffer, the header check passes, and
    [b[18:]] is then out of range for a slice of length 3. *)
Theorem processPacket_short_datagram_faults (dp : option DropPolicy)
  (cb : Callbacks) (st : recvState) :
  slice_len (read_into data_bufsize short_datagram) = 3
  /\ slice_cap (read_into data_bufsize short_datagram) = 1042
  /\ UnpackHeader (header_bytes (read_into data_bufsize short_datagram))
     = Ret (DataHeader.zero, None)
  /\ processPacket (read_into data_bufsize short_datagram) dp cb st = Panic.
Proof. repeat split; vm_compute; reflexivity. Qed.

End process_packet.

Lemma processPacket_receive_invariant_witness :
  exists r,
    @processPacket cycleRand (read_into data_bufsize sample_frame) None
      no_callbacks (mkRecvState ∅ 0 0) = Ret r.
Proof.
  apply (@processPacket_receive_invariant cycleRand).
  - apply reachable_init.
  - reflexivity.
  - vm_compute. discriminate.
Defined.

(** C2 fails as written.  [long_frame] is a 25-byte datagram whose header
    declares three payload bytes while seven follow it, so the length of its
    payload is not the declared size; [processPacket] does not drop it but
    stores the first three bytes under sequence 0 and moves the counters to
    3 bytes and 1 segment. *)
Lemma processPacket_long_payload_stored :
  len long_frame = 25
  /\ UnpackHeader (header_bytes (read_into data_bufsize long_frame))
     = Ret (DataHeader.mk 0 1 3 (CRC32 sample_payload), None)
  /\ len (drop (Z.to_nat HeaderSize) long_frame) = 7
  /\ exists st',
       @processPacket cycleRand (read_into data_bufsize long_frame) None
         no_callbacks (mkRecvState ∅ 0 0) = Ret (false, None, st', [])
       /\ recv st' !! 0 = Some sample_payload
       /\ bytesRecv st' = 3 /\ segsRecv st' = 1.
Proof.
  split; [reflexivity|]. split; [vm_compute; reflexivity|].
  split; [reflexivity|]. eexists.
  split; [vm_compute; reflexivity|]. by vm_compute.
Qed.

Example processPacket_sample :
  exists dp' st' evs,
    @processPacket cycleRand (read_into data_bufsize sample_frame) None
      no_callbacks (mkRecvState ∅ 0 0) = Ret (false, dp', st', evs)
    /\ recv st' !! 0 = Some sample_payload
    /\ bytesRecv st' = 3 /\ segsRecv st' = 1.
Proof. do 3 eexists. split; [vm_compute; reflexivity|]. by vm_compute. Qed.

(* ===================================================================== *)
(** ** Control parsing never faults                                       *)
(* ===================================================================== *)

Lemma parseCtrl_total (b : list byte) :
  exists t p e, parseCtrl b = Ret (t, p, e).
Proof.
  unfold parseCtrl. destruct (len b <? 6) eqn:Hlen; [eauto|].
  destruct (index_in_range b 0) as [x0 ->]; [lia|]. cbn [mbind outcome_bind].
  destruct (negb _); [eauto|].
  destruct (index_in_range b 1) as [x1 ->]; [lia|]. cbn [mbind outcome_bind].
  destruct (negb _); [eauto|].
  destruct (index_in_range b 2) as [x2 ->]; [lia|]. cbn [mbind outcome_bind].
  destruct (negb _); [eauto|].
  destruct (index_in_range b 3) as [x3 ->]; [lia|]. cbn [mbind outcome_bind].
  read_u16 b 4 6 l. pose proof (Uint16_range _ _ El) as Hl.
  unfold is_uint16 in Hl.
  destruct (len b <? 6 + l) eqn:Hfit; [eauto|].
  rewrite sub_in_range by lia. cbn [mbind outcome_bind]. eauto.
Qed.

Lemma unpackMETA_total (p : list byte) : exists r, unpackMETA p = Ret r.
Proof.
  unfold unpackMETA. destruct (len p <? _) eqn:Hlen; [eauto|].
  read_u32 p 0 4 total. read_u64 p 4 12 size. read_u16 p 12 14 chunk.
  read_u16 p 14 16 fnLen. pose proof (Uint16_range _ _ EfnLen) as Hfn.
  unfold is_uint16 in Hfn.
  destruct (len p <? 16 + fnLen + 32) eqn:Hfit; [eauto|].
  rewrite !sub_in_range by lia. cbn [mbind outcome_bind]. eauto.
Qed.

Lemma unpackERR_total (p : list byte) : exists r, unpackERR p = Ret r.
Proof.
  unfold unpackERR. destruct (len p <? 4) eqn:Hlen; [eauto|].
  read_u16 p 2 4 ml. pose proof (Uint16_range _ _ Eml) as Hml.
  unfold is_uint16 in Hml.
  destruct (len p <? 4 + ml) eqn:Hfit; [eauto|].
  rewrite sub_in_range by lia. cbn [mbind outcome_bind]. eauto.
Qed.

Lemma unpackNACK_loop_total (n : nat) (p : list byte) (off : Z) (m : list Z) :
  0 <= off -> off + 4 * Z.of_nat n <= len p ->
  exists r, unpackNACK_loop n p off m = Ret r.
Proof.
  revert off m. induction n as [|n IH]; intros off m Hoff Hfit; [cbn; eauto|].
  cbn [unpackNACK_loop]. read_u32 p off (off + 4) v. apply IH; lia.
Qed.

Lemma unpackNACK_total (p : list byte) : exists r, unpackNACK p = Ret r.
Proof.
  unfold unpackNACK. destruct (len p <? 2) eqn:Hlen; [eauto|].
  read_u16 p 0 2 n. pose proof (Uint16_range _ _ En) as Hn.
  unfold is_uint16 in Hn.
  destruct (len p <? 2 + 4 * n) eqn:Hfit; [eauto|].
  destruct (unpackNACK_loop_total (Z.to_nat n) p 2 []) as [r ->]; [lia|lia|].
  cbn [mbind outcome_bind]. eauto.
Qed.

Lemma unpackLST_loop_total (n : nat) (p : list byte) (off : Z)
  (names : list string) :
  0 <= off -> exists r, unpackLST_loop n p off names = Ret r.
Proof.
  revert off names. induction n as [|n IH]; intros off names Hoff; [cbn; eauto|].
  cbn [unpackLST_loop]. destruct (len p <? off + 2) eqn:Hlen; [eauto|].
  read_u16 p off (off + 2) l. pose proof (Uint16_range _ _ El) as Hl.
  unfold is_uint16 in Hl.
  destruct (len p <? off + 2 + l) eqn:Hfit; [eauto|].
  rewrite sub_in_range by lia. cbn [mbind outcome_bind]. apply IH. lia.
Qed.

Lemma unpackLST_total (p : list byte) : exists r, unpackLST p = Ret r.
Proof.
  unfold unpackLST. destruct (len p <? 2) eqn:Hlen; [eauto|].
  read_u16 p 0 2 n. by apply unpackLST_loop_total.
Qed.

(** [DecodeCtrl] returns for every byte sequence: a malformed control
    frame yields an error value, never a fault. *)
Lemma DecodeCtrl_total (b : list byte) :
  exists typ v e, DecodeCtrl b = Ret (typ, v, e).
Proof.
  unfold DecodeCtrl. destruct (parseCtrl_total b) as (t & p & e & ->).
  cbn [mbind outcome_bind]. destruct e as [e|]; [eauto|].
  destruct (t =? ctrlTypeREQ); [cbn; eauto|].
  destruct (t =? ctrlTypeMETA).
  { destruct (unpackMETA_total p) as [[m e] ->]. cbn. eauto. }
  destruct (t =? ctrlTypeERR).
  { destruct (unpackERR_total p) as [[m e] ->]. cbn. eauto. }
  destruct (t =? ctrlTypeEOF); [cbn; eauto|].
  destruct (t =? ctrlTypeNACK).
  { destruct (unpackNACK_total p) as [[m e] ->]. cbn. eauto. }
  destruct (t =? ctrlTypeLIST); [eauto|].
  destruct (t =? ctrlTypeLST).
  { destruct (unpackLST_total p) as [[m e] ->]. cbn. eauto. }
  eauto.
Qed.

Section process_packet_faults.
Context `{RandSource}.

Lemma read_into_cap (d : list byte) :
  slice_cap (read_into data_bufsize d) = data_bufsize
  /\ slice_len (read_into data_bufsize d) <= data_bufsize.
Proof.
  unfold read_into, slice_cap, slice_len. cbn [visible spare].
  change data_bufsize with 1042.
  assert (len (take (Z.to_nat 1042) d) <= 1042) as Hle.
  { unfold len. rewrite length_take. lia. }
  rewrite len_make by lia. lia.
Qed.

(** The client faults on exactly those datagrams that are shorter than the
    header and still pass the header check against the zeroed buffer. *)
Lemma processPacket_fault_iff (d : list byte) (dp : option DropPolicy)
  (cb : Callbacks) (st : recvState) :
  processPacket (read_into data_bufsize d) dp cb st = Panic
  <-> IsCtrl (visible (read_into data_bufsize d)) = false
      /\ slice_len (read_into data_bufsize d) < HeaderSize
      /\ exists h, UnpackHeader (header_bytes (read_into data_bufsize d))
                   = Ret (h, None).
Proof.
  set (b := read_into data_bufsize d).
  destruct (read_into_cap d) as [Hcap Hlen]. fold b in Hcap, Hlen.
  assert (HeaderSize = 18) as H18 by reflexivity.
  assert (data_bufsize = 1042) as Hbuf by reflexivity.
  pose proof (len_nonneg (visible b)) as Hnn. fold (slice_len b) in Hnn.
  destruct (IsCtrl (visible b)) eqn:Hctrl.
  { split; [|by intros [? _]]. unfold processPacket. rewrite Hctrl.
    destruct (DecodeCtrl_total (visible b)) as (typ & v & e & ->).
    cbn. by destruct e. }
  destruct (Z.le_gt_cases HeaderSize (slice_len b)) as [Hlong|Hshort].
  { split; [|intros (_ & ? & _); lia].
    destruct (processPacket_long_enough b dp cb st Hctrl Hlong) as [r ->].
    done. }
  unfold processPacket. rewrite Hctrl. unfold reslice_to, reslice_from.
  rewrite (reslice_in_range b 0 HeaderSize) by lia.
  cbn [mbind outcome_bind visible].
  change (take (Z.to_nat (HeaderSize - 0))
            (drop (Z.to_nat 0) (visible b ++ spare b)))
    with (header_bytes b).
  destruct (UnpackHeader_total (header_bytes b)) as [[h e] Eh]. rewrite Eh.
  cbn [mbind outcome_bind]. destruct e as [e|].
  { split; [done|]. intros (_ & _ & h' & Hh'). congruence. }
  assert (reslice b HeaderSize (slice_len b) = Panic) as ->.
  { unfold reslice. replace (HeaderSize <=? slice_len b) with false by lia.
    by rewrite andb_false_r. }
  cbn [mbind outcome_bind]. split; [|done]. intros _.
  split; [done|]. split; [lia|eauto].
Qed.

End process_packet_faults.

(* ===================================================================== *)
(** ** Client: request attempts and NACK rounds                           *)
(* ===================================================================== *)

(** The dynamic type of the value agrees with the type string. *)
Lemma DecodeCtrl_tag (b : list byte) (typ : string) (v : any) (e : error) :
  DecodeCtrl b = Ret (typ, v, e) ->
  (typ = ""%string /\ v = any_nil) \/ (typ = frames.tag v /\ v <> any_nil).
Proof.
  unfold DecodeCtrl. destruct (parseCtrl b) as [[[t p] e0]|]; [|done].
  cbn [mbind outcome_bind]. destruct e0 as [e0|].
  { intros [= <- <- _]. by left. }
  destruct (t =? ctrlTypeREQ).
  { cbn. intros [= <- <- _]. by right. }
  destruct (t =? ctrlTypeMETA).
  { destruct (unpackMETA p) as [[m e1]|]; [|done]. cbn.
    intros [= <- <- _]. by right. }
  destruct (t =? ctrlTypeERR).
  { destruct (unpackERR p) as [[m e1]|]; [|done]. cbn.
    intros [= <- <- _]. by right. }
  destruct (t =? ctrlTypeEOF).
  { cbn. intros [= <- <- _]. by right. }
  destruct (t =? ctrlTypeNACK).
  { destruct (unpackNACK p) as [[m e1]|]; [|done]. cbn.
    intros [= <- <- _]. by right. }
  destruct (t =? ctrlTypeLIST).
  { intros [= <- <- _]. by right. }
  destruct (t =? ctrlTypeLST).
  { destruct (unpackLST p) as [[m e1]|]; [|done]. cbn.
    intros [= <- <- _]. by right. }
  intros [= <- <- _]. by left.
Qed.

Section retry_budget.
Context `{RandSource}.

Lemma poll_Cancel_frame (chan : bool) (c : Conn) :
  inbox (poll_Cancel chan c).2 = inbox c
  /\ write_errs (poll_Cancel chan c).2 = write_errs c
  /\ clock (poll_Cancel chan c).2 = clock c
  /\ outbox (poll_Cancel chan c).2 = outbox c.
Proof. unfold poll_Cancel. destruct chan; [|done]. by destruct (cancels c). Qed.

Lemma conn_Read_frame (c : Conn) :
  write_errs (conn_Read c).2 = write_errs c
  /\ clock (conn_Read c).2 = clock c
  /\ outbox (conn_Read c).2 = outbox c
  /\ (length (inbox (conn_Read c).2) <= length (inbox c))%nat
  /\ (inbox c <> [] -> S (length (inbox (conn_Read c).2)) = length (inbox c))
  /\ (inbox c = [] -> (conn_Read c).1 = ReadErr).
Proof.
  unfold conn_Read. destruct (inbox c) as [|r rest] eqn:E; cbn; rewrite ?E.
  - repeat split; done || lia.
  - repeat split; done || lia.
Qed.

(** One wait for META writes nothing and always comes back. *)
Lemma awaitMeta_frame (fuel : nat) (cfg : Config) (cb : Callbacks) (try : Z)
  (c : Conn) (evs : list event) :
  (length (inbox c) < fuel)%nat ->
  exists w c' evs',
    awaitMeta fuel cfg cb try c evs = Done (w, c', evs')
    /\ outbox c' = outbox c /\ write_errs c' = write_errs c.
Proof.
  revert c evs. induction fuel as [|fuel IH]; intros c evs Hfuel; [lia|].
  cbn [awaitMeta].
  pose proof (poll_Cancel_frame (Cancel cfg) c) as (Hi1 & Hw1 & _ & Ho1).
  destruct (poll_Cancel (Cancel cfg) c) as [canceled c1]. cbn [snd] in *.
  destruct canceled; [by eauto 10|].
  pose proof (conn_Read_frame c1) as (Hw2 & _ & Ho2 & Hle & Hne & _).
  destruct (conn_Read c1) as [r c2] eqn:Eread. cbn [fst snd] in *.
  assert (outbox c2 = outbox c) as Ho by congruence.
  assert (write_errs c2 = write_errs c) as Hw by congruence.
  destruct r as [|d]; [by eauto 10|].
  assert (length (inbox c2) < fuel)%nat as Hfuel'.
  { assert (inbox c1 <> []) as Hne1.
    { intros E. unfold conn_Read in Eread. rewrite E in Eread. done. }
    specialize (Hne Hne1). rewrite Hi1 in Hne. lia. }
  destruct (IH c2 evs Hfuel') as (w & c' & evs' & Hrec & Ho' & Hw').
  assert (exists w c' evs',
             awaitMeta fuel cfg cb try c2 evs = Done (w, c', evs')
             /\ outbox c' = outbox c /\ write_errs c' = write_errs c) as Hcont.
  { exists w, c', evs'. split; [done|]. split; congruence. }
  destruct (negb _); [done|].
  destruct (DecodeCtrl_total (take (Z.to_nat 4096) d)) as (typ & v & e & Ed).
  rewrite Ed. destruct e as [e|]; [done|].
  apply DecodeCtrl_tag in Ed.
  destruct (String.eqb typ TypeMETA) eqn:Emeta.
  { apply String.eqb_eq in Emeta as ->.
    destruct Ed as [[? _]|[Ht _]]; [done|]. destruct v; try done. eauto 10. }
  destruct (String.eqb typ TypeERR) eqn:Eerr; [|done].
  apply String.eqb_eq in Eerr as ->.
  destruct Ed as [[? _]|[Ht _]]; [done|]. destruct v; try done. eauto 10.
Qed.

Lemma conn_Write_frame (d : list byte) (c : Conn) :
  inbox (conn_Write d c).2 = inbox c
  /\ cancels (conn_Write d c).2 = cancels c
  /\ clock (conn_Write d c).2 = clock c
  /\ (writes_succeed c -> writes_succeed (conn_Write d c).2)
  /\ (((conn_Write d c).1 = None /\ outbox (conn_Write d c).2 = outbox c ++ [d])
      \/ ((conn_Write d c).1 <> None /\ ~ writes_succeed c
          /\ outbox (conn_Write d c).2 = outbox c)).
Proof.
  unfold conn_Write, writes_succeed.
  destruct (write_errs c) as [|[e|] rest] eqn:E; cbn; rewrite ?E.
  - repeat split; try done. by left.
  - repeat split; try done.
    + intros Hw. by apply Forall_cons in Hw as [_ ?].
    + right. repeat split; try done. intros Hw.
      by apply Forall_cons in Hw as [? _].
  - repeat split; try done.
    + intros Hw. by apply Forall_cons in Hw as [_ ?].
    + by left.
Qed.

(** Phase 1 sends at most as many REQ frames as it has attempts, and
    nothing else. *)
Lemma requestLoop_bound (n : nat) (cfg : Config) (cb : Callbacks) (try : Z)
  (c : Conn) (evs : list event) :
  exists m e c' evs' k,
    requestLoop n cfg cb try c evs = Done (m, e, c', evs')
    /\ (k <= n)%nat
    /\ outbox c' = outbox c ++ repeat (CtrlREQ (Path cfg)) k.
Proof.
  revert try c evs. induction n as [|n IH]; intros try c evs.
  { cbn. exists Meta.zero, (Some err_meta_exhausted), c, evs, 0%nat.
    cbn. by rewrite app_nil_r. }
  cbn [requestLoop].
  pose proof (conn_Write_frame (CtrlREQ (Path cfg)) c) as (_ & _ & _ & _ & Hw).
  destruct (conn_Write (CtrlREQ (Path cfg)) c) as [werr c1]. cbn [fst snd] in *.
  destruct Hw as [[-> Ho1]|(Hne & _ & Ho1)].
  2:{ destruct werr as [e|]; [|done]. eexists _, _, _, _, 0%nat.
      split; [done|]. split; [lia|]. cbn. by rewrite app_nil_r. }
  destruct (awaitMeta_frame (S (length (inbox c1))) cfg cb try c1
              (evs ++ log cb (LogText "STATUS: Enviando REQ")))
    as (w & c2 & evs2 & -> & Ho2 & _); [lia|].
  assert (outbox c2 = outbox c ++ repeat (CtrlREQ (Path cfg)) 1) as Ho
    by (rewrite Ho2, Ho1; reflexivity).
  destruct w as [m|msg| |];
    try (eexists _, _, _, _, 1%nat; split; [done|]; split; [lia|done]).
  destruct (IH (try + 1) c2 evs2) as (m & e & c' & evs' & k & -> & Hk & Ho').
  exists m, e, c', evs', (S k). split; [done|]. split; [lia|].
  rewrite Ho', Ho2, Ho1. cbn. by rewrite <- app_assoc.
Qed.

Lemma awaitMeta_quiet (fuel : nat) (cfg : Config) (cb : Callbacks) (try : Z)
  (c : Conn) (evs : list event) :
  quiet c ->
  exists c' evs',
    awaitMeta (S fuel) cfg cb try c evs = Done (WaitTimeout, c', evs')
    /\ outbox c' = outbox c /\ quiet c'.
Proof.
  intros (Hin & Hw & Hc). cbn [awaitMeta].
  assert (exists c1, poll_Cancel (Cancel cfg) c = (false, c1)
            /\ inbox c1 = inbox c /\ write_errs c1 = write_errs c
            /\ outbox c1 = outbox c /\ Forall (eq false) (cancels c1))
    as (c1 & -> & Hi1 & Hw1 & Ho1 & Hc1).
  { unfold poll_Cancel. destruct (Cancel cfg); [|by eauto 10].
    destruct (cancels c) as [|x rest] eqn:E.
    - exists c. rewrite E. done.
    - apply Forall_cons in Hc as [<- Hrest]. eexists. split; [done|]. done. }
  assert (exists c2, conn_Read c1 = (ReadErr, c2)
            /\ write_errs c2 = write_errs c1 /\ outbox c2 = outbox c1
            /\ cancels c2 = cancels c1 /\ Forall (eq ReadErr) (inbox c2))
    as (c2 & -> & Hw2 & Ho2 & Hc2 & Hi2).
  { unfold conn_Read. rewrite Hi1.
    destruct (inbox c) as [|r rest] eqn:E.
    - exists c1. rewrite Hi1. done.
    - apply Forall_cons in Hin as [<- Hrest]. eexists. split; [done|]. done. }
  eexists _, _. split; [done|]. split; [congruence|].
  unfold quiet. rewrite Hw2, Hw1, Hc2. done.
Qed.

(** With nobody answering, Phase 1 sends exactly one REQ per attempt and
    then gives up. *)
Lemma requestLoop_quiet (n : nat) (cfg : Config) (cb : Callbacks) (try : Z)
  (c : Conn) (evs : list event) :
  quiet c ->
  exists c' evs',
    requestLoop n cfg cb try c evs
    = Done (Meta.zero, Some err_meta_exhausted, c', evs')
    /\ outbox c' = outbox c ++ repeat (CtrlREQ (Path cfg)) n.
Proof.
  revert try c evs. induction n as [|n IH]; intros try c evs Hq.
  { cbn. eexists _, _. split; [done|]. by rewrite app_nil_r. }
  cbn [requestLoop].
  pose proof (conn_Write_frame (CtrlREQ (Path cfg)) c)
    as (Hi & Hc & _ & Hws & Hw).
  destruct Hq as (Hqi & Hqw & Hqc).
  destruct (conn_Write (CtrlREQ (Path cfg)) c) as [werr c1]. cbn [fst snd] in *.
  destruct Hw as [[-> Ho1]|(_ & Hbad & _)]; [|done].
  assert (quiet c1) as Hq1.
  { unfold quiet. rewrite Hi, Hc. split; [done|]. split; [by apply Hws|done]. }
  destruct (awaitMeta_quiet (length (inbox c1)) cfg cb try c1
              (evs ++ log cb (LogText "STATUS: Enviando REQ")) Hq1)
    as (c2 & evs2 & -> & Ho2 & Hq2).
  destruct (IH (try + 1) c2 evs2 Hq2) as (c' & evs' & -> & Ho').
  eexists _, _. split; [done|].
  rewrite Ho', Ho2, Ho1. cbn. by rewrite <- app_assoc.
Qed.

Lemma process_frame (d : list byte) (cb : Callbacks) (cl : Client) :
  process d cb cl <> OutOfFuel
  /\ forall eof cl', process d cb cl = Done (eof, cl') -> conn cl' = conn cl.
Proof.
  unfold process.
  destruct (processPacket _ _ _ _) as [[[[eof dp] st] evs]|]; [|done].
  split; [done|]. by intros eof' cl' [= _ <-].
Qed.

Lemma conn_Read_cases (c : Conn) :
  (inbox c = [] /\ conn_Read c = (ReadErr, c))
  \/ (exists r rest,
        inbox c = r :: rest
        /\ conn_Read c
           = (r, mkConn rest (write_errs c) (cancels c) (clock c) (outbox c))).
Proof.
  unfold conn_Read. destruct (inbox c) as [|r rest]; [by left|right; eauto].
Qed.

(** Phase 2 always leaves its loop, and writes nothing. *)
Lemma initialLoop_frame (fuel : nat) (cfg : Config) (cb : Callbacks)
  (M idle : Z) (cl : Client) :
  0 <= idle -> idle_budget M idle (conn cl) <= Z.of_nat fuel ->
  initialLoop fuel cfg cb M idle cl <> OutOfFuel
  /\ forall eof e cl',
       initialLoop fuel cfg cb M idle cl = Done (eof, e, cl') ->
       outbox (conn cl') = outbox (conn cl)
       /\ write_errs (conn cl') = write_errs (conn cl)
       /\ (e = None \/ e = Some err_canceled \/ e = Some err_no_data).
Proof.
  revert idle cl. induction fuel as [|fuel IH]; intros idle cl Hidle Hfuel.
  { unfold idle_budget in Hfuel. lia. }
  cbn [initialLoop].
  pose proof (poll_Cancel_frame (Cancel cfg) (conn cl)) as (Hi1 & Hw1 & _ & Ho1).
  destruct (poll_Cancel (Cancel cfg) (conn cl)) as [canceled c1].
  cbn [fst snd] in *. destruct canceled.
  { split; [done|]. intros eof e cl' [= _ <- <-]. cbn. eauto. }
  unfold idle_budget in Hfuel. rewrite <- Hi1 in Hfuel.
  cbn [with_conn conn policy rst events].
  destruct (conn_Read_cases c1) as [[Hempty ->]|(r & rest & Hcons & ->)].
  - (* the script is over: a timeout *)
    rewrite Hempty in Hfuel. cbn [length] in Hfuel.
    cbn [with_conn conn policy rst events].
    set (cl1 := if (idle + 1) mod 5 =? 0 then _ else _).
    assert (conn cl1 = c1) as Hc1 by (unfold cl1; by destruct (_ =? 0)).
    destruct (_ && _).
    { split; [done|]. intros eof e cl' [= _ <- <-]. cbn. rewrite Hc1. eauto. }
    destruct (M <? idle + 1) eqn:Hover.
    { split; [done|]. intros eof e cl' [= _ <- <-]. rewrite Hc1. eauto 6. }
    destruct (IH (idle + 1) cl1) as [Hnf Hd]; [lia| |].
    { unfold idle_budget. rewrite Hc1, Hempty. cbn [length]. lia. }
    split; [done|]. intros eof e cl' Hrun.
    destruct (Hd _ _ _ Hrun) as (Ho & Hw & He). rewrite Hc1 in Ho, Hw.
    split; [congruence|]. split; [congruence|done].
  - rewrite Hcons in Hfuel. cbn [length] in Hfuel.
    cbn [with_conn conn policy rst events].
    set (c2 := mkConn rest _ _ _ _).
    assert (Z.of_nat (length rest) + Z.max 1 (M + 2) <= Z.of_nat fuel) as Hrest
      by lia.
    assert (forall i, 0 <= i -> idle_budget M i c2 <= Z.of_nat fuel) as Hbud.
    { intros i Hi. unfold idle_budget, c2. cbn [inbox]. destruct rest; lia. }
    destruct r as [|d].
    + set (cl1 := if (idle + 1) mod 5 =? 0 then _ else _).
      assert (conn cl1 = c2) as Hc1 by (unfold cl1; by destruct (_ =? 0)).
      destruct (_ && _).
      { split; [done|]. intros eof e cl' [= _ <- <-]. cbn. rewrite Hc1. eauto. }
      destruct (M <? idle + 1) eqn:Hover.
      { split; [done|]. intros eof e cl' [= _ <- <-]. rewrite Hc1. eauto 6. }
      destruct (IH (idle + 1) cl1) as [Hnf Hd]; [lia| |].
      { rewrite Hc1. apply Hbud. lia. }
      split; [done|]. intros eof e cl' Hrun.
      destruct (Hd _ _ _ Hrun) as (Ho & Hw & He). rewrite Hc1 in Ho, Hw.
      split; [by rewrite Ho|]. split; [by rewrite Hw|done].
    + match goal with |- context [process d cb ?x] => set (cl1 := x) end.
      destruct (process_frame d cb cl1) as [Hnf1 Hconn].
      destruct (process d cb cl1) as [[[|] cl2]| |]; try done.
      { split; [done|]. intros eof e cl' [= _ <- <-].
        rewrite (Hconn _ _ eq_refl). eauto. }
      destruct (IH 0 cl2) as [Hnf Hd]; [lia| |].
      { rewrite (Hconn _ _ eq_refl). cbn [cl1 conn]. apply Hbud. lia. }
      split; [done|]. intros eof e cl' Hrun.
      destruct (Hd _ _ _ Hrun) as (Ho & Hw & He).
      rewrite (Hconn _ _ eq_refl) in Ho, Hw.
      split; [by rewrite Ho|]. split; [by rewrite Hw|done].
Qed.

Lemma before_deadline_cases (c : Conn) :
  (clock c = [] /\ before_deadline c = (false, c))
  \/ (exists x rest,
        clock c = x :: rest
        /\ before_deadline c
           = (x, mkConn (inbox c) (write_errs c) (cancels c) rest (outbox c))).
Proof.
  unfold before_deadline. destruct (clock c) as [|x rest]; [by left|right; eauto].
Qed.

(** One NACK round's receive loop ends with the clock script, and writes
    nothing. *)
Lemma retransmissionLoop_frame (fuel : nat) (cfg : Config) (cb : Callbacks)
  (received : bool) (cl : Client) :
  (length (clock (conn cl)) < fuel)%nat ->
  retransmissionLoop fuel cfg cb received cl <> OutOfFuel
  /\ forall rcv e cl',
       retransmissionLoop fuel cfg cb received cl = Done (rcv, e, cl') ->
       outbox (conn cl') = outbox (conn cl)
       /\ write_errs (conn cl') = write_errs (conn cl)
       /\ (e = None \/ e = Some err_canceled).
Proof.
  revert received cl. induction fuel as [|fuel IH]; intros received cl Hfuel;
    [lia|].
  cbn [retransmissionLoop].
  destruct (before_deadline_cases (conn cl))
    as [[Hempty ->]|(x & rest & Hcons & ->)].
  { cbn. split; [done|]. intros rcv e cl' [= _ <- <-]. cbn. eauto. }
  cbn [with_conn conn policy rst events]. destruct x; cbn [negb].
  2:{ split; [done|]. intros rcv e cl' [= _ <- <-]. cbn. eauto. }
  set (c0 := mkConn _ _ _ rest _).
  pose proof (poll_Cancel_frame (Cancel cfg) c0) as (Hi1 & Hw1 & Hk1 & Ho1).
  destruct (poll_Cancel (Cancel cfg) c0) as [canceled c1].
  cbn [fst snd] in *. destruct canceled.
  { split; [done|]. intros rcv e cl' [= _ <- <-]. cbn. eauto. }
  pose proof (conn_Read_frame c1) as (Hw2 & Hk2 & Ho2 & _).
  destruct (conn_Read c1) as [r c2]. cbn [fst snd] in *.
  assert (length (clock c2) < fuel)%nat as Hfuel'.
  { rewrite Hk2, Hk1. unfold c0. cbn [clock]. rewrite Hcons in Hfuel.
    cbn [length] in Hfuel. lia. }
  assert (outbox c2 = outbox (conn cl)) as Ho by (rewrite Ho2, Ho1; done).
  assert (write_errs c2 = write_errs (conn cl)) as Hw
    by (rewrite Hw2, Hw1; done).
  destruct r as [|d].
  - destruct (IH received (mkClient c2 (policy cl) (rst cl) (events cl)))
      as [Hnf Hd]; [done|].
    split; [done|]. intros rcv e cl' Hrun.
    destruct (Hd _ _ _ Hrun) as (Ho' & Hw' & He). cbn [conn] in *.
    split; [congruence|]. split; [congruence|done].
  - match goal with |- context [process d cb ?x] => set (cl1 := x) end.
    destruct (process_frame d cb cl1) as [Hnf1 Hconn].
    destruct (process d cb cl1) as [[eof cl2]| |]; try done.
    pose proof (Hconn _ _ eq_refl) as Hc2.
    change (conn cl1) with c2 in Hc2.
    assert (forall rc, retransmissionLoop fuel cfg cb rc cl2 <> OutOfFuel
              /\ forall rcv e cl',
                   retransmissionLoop fuel cfg cb rc cl2 = Done (rcv, e, cl') ->
                   outbox (conn cl') = outbox (conn cl)
                   /\ write_errs (conn cl') = write_errs (conn cl)
                   /\ (e = None \/ e = Some err_canceled)) as Hrec.
    { intros rc. destruct (IH rc cl2) as [Hnf Hd]; [by rewrite Hc2|].
      split; [done|]. intros rcv e cl' Hrun.
      destruct (Hd _ _ _ Hrun) as (Ho' & Hw' & He). rewrite Hc2 in Ho', Hw'.
      split; [congruence|]. split; [congruence|done]. }
    destruct eof; apply Hrec.
Qed.

(** Phase 3 writes NACK frames only, at most one per round of its budget,
    and exactly one per round when it gives up with gaps left. *)
Lemma nackLoop_budget (fuel : nat) (meta : Meta.t) (cfg : Config)
  (cb : Callbacks) (maxRounds rounds : Z) (cl : Client) :
  0 <= rounds -> (Z.to_nat (maxRounds - rounds) < fuel)%nat ->
  nackLoop fuel meta cfg cb maxRounds rounds cl <> OutOfFuel
  /\ forall e cl',
       nackLoop fuel meta cfg cb maxRounds rounds cl = Done (e, cl') ->
       exists ms,
         outbox (conn cl') = outbox (conn cl) ++ map CtrlNACK ms
         /\ (length ms <= Z.to_nat (maxRounds - rounds))%nat
         /\ (writes_succeed (conn cl) -> e = Some err_incomplete ->
             length ms = Z.to_nat (maxRounds - rounds)).
Proof.
  revert rounds cl. induction fuel as [|fuel IH]; intros rounds cl Hr Hfuel;
    [lia|].
  cbn [nackLoop].
  pose proof (poll_Cancel_frame (Cancel cfg) (conn cl)) as (Hi1 & Hw1 & Hk1 & Ho1).
  destruct (poll_Cancel (Cancel cfg) (conn cl)) as [canceled c1].
  cbn [fst snd with_conn conn policy rst events] in *. destruct canceled.
  { split; [done|]. intros e cl' [= <- <-]. exists []. cbn.
    rewrite app_nil_r. split; [done|]. split; [lia|done]. }
  set (missing := computeMissing (Meta.Total meta) (recv (rst cl))).
  destruct (len missing =? 0).
  { split; [done|]. intros e cl' [= <- <-]. exists []. cbn.
    rewrite app_nil_r. split; [done|]. split; [lia|done]. }
  destruct (maxRounds <=? rounds) eqn:Hmax.
  { split; [done|]. intros e cl' [= <- <-]. exists []. cbn.
    rewrite app_nil_r. split; [done|]. split; lia. }
  pose proof (conn_Write_frame (nack_written cb missing) c1)
    as (_ & _ & Hk2 & Hws & Hwr).
  change (conn (add_log cb (LogText "STATUS: NACK round") (with_conn cl c1)))
    with c1.
  destruct (conn_Write (nack_written cb missing) c1) as [werr c2].
  cbn [fst snd] in *.
  match goal with
  | |- context [retransmissionLoop ?f cfg cb false ?x] => set (cl2 := x)
  end.
  destruct (retransmissionLoop_frame (S (length (clock c2))) cfg cb false cl2)
    as [Hnf2 Hd2]; [cbn; lia|].
  change (conn cl2) with c2 in *.
  destruct (retransmissionLoop (S (length (clock c2))) cfg cb false cl2)
    as [[[rcv e2] cl3]| |]; try done.
  destruct (Hd2 _ _ _ eq_refl) as (Ho3 & Hw3 & He2).
  assert (exists sent, outbox (conn cl3) = outbox (conn cl) ++ map CtrlNACK sent
            /\ (length sent <= 1)%nat
            /\ (writes_succeed (conn cl) ->
                length sent = 1%nat /\ writes_succeed (conn cl3)))
    as (sent & Hsent & Hlen & Hexact).
  { unfold writes_succeed in *. rewrite Hw3, Ho3.
    destruct Hwr as [[_ Ho2]|(_ & Hbad & Ho2)].
    - exists [(display_missing cb missing).2]. rewrite Ho2, Ho1.
      split; [done|]. split; [cbn; lia|].
      intros Hs. split; [done|]. apply Hws. by rewrite Hw1.
    - exists []. rewrite Ho2, Ho1. cbn. rewrite app_nil_r. split; [done|].
      split; [lia|]. intros Hs. rewrite Hw1 in Hbad. done. }
  destruct e2 as [e2|].
  { split; [done|]. intros e cl' [= <- <-]. exists sent.
    split; [done|]. split; [lia|].
    intros _ He. destruct He2 as [?|He2]; [done|].
    rewrite He2 in He. done. }
  match goal with
  | |- context [nackLoop fuel meta cfg cb maxRounds (rounds + 1) ?x] =>
      set (cl4 := x)
  end.
  assert (conn cl4 = conn cl3) as Hc4.
  { unfold cl4. destruct (0 <? _); [done|]. by destruct (negb rcv). }
  destruct (IH (rounds + 1) cl4) as [Hnf Hd]; [lia|lia|].
  split; [done|]. intros e cl' Hrun.
  destruct (Hd _ _ Hrun) as (ms & Hms & Hmlen & Hmex). rewrite Hc4 in Hms, Hmex.
  exists (sent ++ ms). rewrite Hms, Hsent, map_app, app_assoc.
  split; [done|]. rewrite length_app. split; [lia|].
  intros Hs He. destruct (Hexact Hs) as [-> Hs3]. rewrite (Hmex Hs3 He). lia.
Qed.

Lemma effective_retries_positive (cfg : Config) : 1 <= effective_retries cfg.
Proof. unfold effective_retries. destruct (Retries cfg <=? 0) eqn:E; lia. Qed.

Lemma receiveData_budget (meta : Meta.t) (cfg : Config) (cb : Callbacks)
  (c : Conn) (dp : option DropPolicy) (evs : list event) :
  receiveData meta cfg cb c dp evs <> OutOfFuel
  /\ forall e cl',
       receiveData meta cfg cb c dp evs = Done (e, cl') ->
       exists ms,
         outbox (conn cl') = outbox c ++ map CtrlNACK ms
         /\ (length ms <= Z.to_nat (effective_retries cfg))%nat
         /\ (writes_succeed c -> e = Some err_incomplete ->
             length ms = Z.to_nat (effective_retries cfg)).
Proof.
  pose proof (effective_retries_positive cfg) as Hpos.
  unfold receiveData, receiveUntilIdleOrEOF.
  set (cl0 := add_log cb _ _). set (M := effective_retries cfg * 3).
  assert (conn cl0 = c) as Hc0 by reflexivity.
  destruct (initialLoop_frame
              (length (inbox (conn cl0)) + Z.to_nat M + 2) cfg cb M 0 cl0)
    as [Hnf Hd]; [done| |].
  { unfold idle_budget. destruct (inbox (conn cl0)); lia. }
  destruct (initialLoop _ cfg cb M 0 cl0) as [[[eof e1] cl1]| |]; try done.
  destruct (Hd _ _ _ eq_refl) as (Ho1 & Hw1 & He1). rewrite Hc0 in Ho1, Hw1.
  destruct e1 as [e1|].
  { split; [done|]. intros e cl' [= <- <-]. exists []. cbn.
    rewrite app_nil_r. split; [done|]. split; [lia|]. intros _ He.
    destruct He1 as [?|[He1|He1]]; try done; rewrite He1 in He; done. }
  unfold runNackRounds.
  destruct (nackLoop_budget (S (Z.to_nat (effective_retries cfg))) meta cfg cb
              (effective_retries cfg) 0 cl1) as [Hnf2 Hd2]; [lia|lia|].
  split; [done|]. intros e cl' Hrun.
  destruct (Hd2 _ _ Hrun) as (ms & Hms & Hlen & Hex).
  rewrite Z.sub_0_r in Hlen, Hex. exists ms. rewrite Hms, Ho1.
  split; [done|]. split; [done|]. intros Hs. apply Hex.
  unfold writes_succeed in *. by rewrite Hw1.
Qed.

(** C7, as amended.  The number of REQ/META attempts of Phase 1 and the
    NACK round budget of Phase 3 both equal Retries when Retries is
    positive, and 3 when it is zero or negative: Phase 1 never sends more
    REQ frames than that and sends exactly that many when nobody answers;
    Phase 3 never sends more NACK frames than that and has sent exactly
    that many when it gives up with chunks still missing. *)
Theorem retries_budget (cfg : Config) (cb : Callbacks) :
  let budget := if Retries cfg <=? 0 then 3 else Retries cfg in
  (forall c evs, exists m e c' evs' k,
      sendREQAndGetMeta cfg cb c evs = Done (m, e, c', evs')
      /\ Z.of_nat k <= budget
      /\ outbox c' = outbox c ++ repeat (CtrlREQ (Path cfg)) k)
  /\ (forall c evs, quiet c ->
        exists c' evs',
          sendREQAndGetMeta cfg cb c evs
          = Done (Meta.zero, Some err_meta_exhausted, c', evs')
          /\ outbox c'
             = outbox c ++ repeat (CtrlREQ (Path cfg)) (Z.to_nat budget))
  /\ (forall meta c dp evs,
        receiveData meta cfg cb c dp evs <> OutOfFuel
        /\ forall e cl',
             receiveData meta cfg cb c dp evs = Done (e, cl') ->
             exists ms,
               outbox (conn cl') = outbox c ++ map CtrlNACK ms
               /\ Z.of_nat (length ms) <= budget
               /\ (writes_succeed c -> e = Some err_incomplete ->
                   Z.of_nat (length ms) = budget)).
Proof.
  cbn zeta. fold (effective_retries cfg).
  pose proof (effective_retries_positive cfg) as Hpos.
  split; [|split].
  - intros c evs. unfold sendREQAndGetMeta.
    destruct (requestLoop_bound (Z.to_nat (effective_retries cfg)) cfg cb 1 c
                (evs ++ log cb (LogText "STATUS: Solicitando META")))
      as (m & e & c' & evs' & k & Hrun & Hk & Ho).
    exists m, e, c', evs', k. split; [done|]. split; [lia|done].
  - intros c evs Hq. unfold sendREQAndGetMeta. by apply requestLoop_quiet.
  - intros meta c dp evs.
    destruct (receiveData_budget meta cfg cb c dp evs) as [Hnf Hd].
    split; [done|]. intros e cl' Hrun.
    destruct (Hd _ _ Hrun) as (ms & Hms & Hlen & Hex).
    exists ms. split; [done|]. split; [lia|].
    intros Hs He. rewrite (Hex Hs He). lia.
Qed.

End retry_budget.

Lemma retries_budget_witness :
  exists c' evs',
    @sendREQAndGetMeta (config_with_retries 2) no_callbacks silent []
    = Done (Meta.zero, Some err_meta_exhausted, c', evs')
    /\ outbox c' = [CtrlREQ "test.bin"; CtrlREQ "test.bin"].
Proof.
  destruct (@retries_budget cycleRand (config_with_retries 2) no_callbacks)
    as (_ & Hquiet & _).
  apply (Hquiet silent []). unfold quiet, silent. cbn. repeat split; constructor.
Defined.

(** C7 as stated fails: with Retries = 1 and no answer the client sends a
    single REQ and gives up; and when Phase 3 starts with a chunk missing
    it sends a single NACK and gives up.  There is no floor of 3. *)
Lemma one_retry_one_attempt :
  (exists c' evs',
     @sendREQAndGetMeta (config_with_retries 1) no_callbacks silent []
     = Done (Meta.zero, Some err_meta_exhausted, c', evs')
     /\ outbox c' = [CtrlREQ "test.bin"])
  /\ (exists cl',
        @receiveData cycleRand meta_two_chunks (config_with_retries 1)
          no_callbacks first_chunk_only None []
        = Done (Some err_incomplete, cl')
        /\ outbox (conn cl') = [CtrlNACK [1]]).
Proof.
  split.
  - eexists _, _. split; vm_compute; reflexivity.
  - eexists. split; vm_compute; reflexivity.
Qed.

(* ===================================================================== *)
(** ** Client: assembly and verification                                  *)
(* ===================================================================== *)

Example unix_Clean_samples :
  unixpath.Clean "a/../.." = ".."%string
  /\ unixpath.Clean "" = "."%string
  /\ unixpath.Clean "/../a" = "/a"%string
  /\ unixpath.Clean "a//b/./c/.." = "a/b"%string
  /\ unixpath.Clean "../x" = "../x"%string
  /\ unixpath.Clean "x/.." = "."%string
  /\ unixpath.Dir "out" = "."%string
  /\ unixpath.Dir "a/b/c.bin" = "a/b"%string
  /\ unixpath.Base "a/b/c.bin" = "c.bin"%string
  /\ unixpath.Join "out" "recv_empty.bin" = "out/recv_empty.bin"%string
  /\ unixpath.TrimSpace "  " = ""%string.
Proof. repeat split; vm_compute; reflexivity. Qed.

Section assembly_facts.
Context `{PathLib} `{FileSystem}.

Lemma computeMissing_spec (total : Z) (recv : gmap Z (list byte)) (i : Z) :
  i ∈ computeMissing total recv <-> 0 <= i < total /\ recv !! i = None.
Proof.
  unfold computeMissing. rewrite list_elem_of_filter, elem_of_seqZ.
  split; intros [? ?]; split; done || lia.
Qed.

Lemma computeMissing_nil (total : Z) (recv : gmap Z (list byte)) :
  computeMissing total recv = []
  <-> forall i, 0 <= i < total -> is_Some (recv !! i).
Proof.
  split.
  - intros Hnil i Hi. destruct (recv !! i) eqn:E; [eauto|].
    assert (i ∈ computeMissing total recv) as Hin
      by (by apply computeMissing_spec).
    rewrite Hnil in Hin. by apply elem_of_nil in Hin.
  - intros Hall. destruct (computeMissing total recv) as [|i l] eqn:E; [done|].
    assert (i ∈ computeMissing total recv) as Hin by (rewrite E; left).
    apply computeMissing_spec in Hin as [Hi Hnone].
    destruct (Hall i Hi) as [v Hv]. congruence.
Qed.

Lemma write_chunks_content (path : string) (chunks : list (list byte))
  (w w' : World) (old : list byte) :
  file_content w path = Some old ->
  write_chunks path chunks w = (None, w') ->
  file_content w' path = Some (old ++ concat chunks).
Proof.
  revert w old. induction chunks as [|c rest IH]; intros w old Hold Hrun.
  - cbn in *. injection Hrun as <-. by rewrite app_nil_r.
  - cbn [write_chunks] in Hrun.
    destruct (os_Write path c w) as [[e|] w1] eqn:Ew; [done|].
    pose proof (os_Write_content _ _ _ _ _ Ew Hold) as Hc.
    rewrite (IH _ _ Hc Hrun). cbn [concat]. by rewrite app_assoc.
Qed.

(** C3, as amended.  If some sequence below Total is absent from the map
    the transfer fails with the incomplete-file error and the file system
    is left as it was.  Otherwise the output path is [recv_<basename>] when
    the given path is blank and the given path itself in every other case;
    and when creating the parent directory, creating the file and writing
    the chunks succeed, the file holds the chunks in order: at the resolved
    path with success reported when the computed SHA-256 equals META's, at
    [<resolved>.corrupt] with the mismatch error when it does not. *)
Theorem assembleAndVerify_post (meta : Meta.t) (recv : gmap Z (list byte))
  (outputPath : string) (w : World) :
  ((exists i, 0 <= i < Meta.Total meta /\ recv !! i = None) ->
   exists n, 0 < n
     /\ assembleAndVerify meta recv outputPath w
        = ((""%string, false, Some (err_incomplete_file n)), w))
  /\ ((forall i, 0 <= i < Meta.Total meta -> is_Some (recv !! i)) ->
      let chunks := ordered_chunks (Meta.Total meta) recv in
      let matches := String.eqb (SHA256FileChunks chunks) (Meta.SHA256 meta) in
      let resolved := resolve_output meta outputPath in
      let final := if matches then resolved else resolved +:+ ".corrupt" in
      (strings_TrimSpace outputPath = ""%string ->
       resolved = "recv_" +:+ filepath_Base (Meta.Filename meta))
      /\ (strings_TrimSpace outputPath <> ""%string -> resolved = outputPath)
      /\ forall w1 w2 w3,
           os_MkdirAll (filepath_Dir resolved) w = (None, w1) ->
           os_Create final w1 = (None, w2) ->
           write_chunks final chunks w2 = (None, w3) ->
           file_content w3 final = Some (concat chunks)
           /\ assembleAndVerify meta recv outputPath w
              = ((final, matches,
                  if matches then None
                  else Some (err_sha_mismatch (Meta.SHA256 meta)
                               (SHA256FileChunks chunks) (filepath_Base final))),
                 w3)).
Proof.
  split.
  - intros (i & Hi & Hnone). unfold assembleAndVerify.
    assert (i ∈ computeMissing (Meta.Total meta) recv) as Hin
      by (by apply computeMissing_spec).
    destruct (computeMissing (Meta.Total meta) recv) as [|j l] eqn:E.
    { by apply elem_of_nil in Hin. }
    exists (len (j :: l)). rewrite len_cons. pose proof (len_nonneg l).
    split; [lia|]. by replace (0 <? 1 + len l) with true by lia.
  - intros Hall. cbn zeta. split; [|split].
    + intros Hblank. unfold resolve_output. by rewrite Hblank.
    + intros Hgiven. unfold resolve_output.
      destruct (String.eqb_spec (strings_TrimSpace outputPath) ""); done.
    + intros w1 w2 w3 Hmk Hcreate Hwrite.
      split.
      { rewrite (write_chunks_content _ _ _ _ [] (os_Create_content _ _ _ Hcreate)
                   Hwrite). done. }
      unfold assembleAndVerify.
      apply computeMissing_nil in Hall. rewrite Hall.
      change (0 <? len []) with false. cbv iota.
      rewrite Hmk.
      destruct (String.eqb (SHA256FileChunks _) (Meta.SHA256 meta));
        by rewrite Hcreate, Hwrite.
Qed.

End assembly_facts.

Lemma assembleAndVerify_post_witness :
  @assembleAndVerify unixPathLib memFileSystem frames.meta_sample ∅ ""
    memfs.with_out_dir
  = (("recv_empty.bin"%string, true, None),
     memfs.mk {[ "."%string; "out"%string ]}
              {[ "recv_empty.bin"%string := [] ]}).
Proof.
  destruct (@assembleAndVerify_post unixPathLib memFileSystem
              frames.meta_sample ∅ "" memfs.with_out_dir) as [_ Hok].
  destruct Hok as (_ & _ & Hrun).
  { intros i Hi. cbn in Hi. lia. }
  refine (proj2 (Hrun _ _ _ _ _ _)); vm_compute; reflexivity.
Defined.

(** C3 as stated fails for a path that names an existing directory:
    [assembleAndVerify] uses the path as it is, creating the file fails,
    and nothing is written under the directory. *)
Lemma assembleAndVerify_directory_path :
  @os_Stat memFileSystem "out" memfs.with_out_dir = Some (mkFileInfo true 0)
  /\ exists w',
       @assembleAndVerify unixPathLib memFileSystem frames.meta_sample ∅ "out"
         memfs.with_out_dir
       = ((""%string, false, Some "is a directory"%string), w')
       /\ @file_content memFileSystem w'
            (@filepath_Join unixPathLib "out" "recv_empty.bin") = None.
Proof.
  split; [vm_compute; reflexivity|].
  eexists. split; vm_compute; reflexivity.
Qed.

(* ===================================================================== *)
(** ** Server: path sanitisation in handleREQ                             *)
(* ===================================================================== *)

Section server_facts.
Context `{PathLib} `{FileSystem}.
Import serverudp.

Lemma CtrlERR_invalid_path_decodes :
  IsCtrl (CtrlERR "caminho inválido") = true
  /\ DecodeCtrl (CtrlERR "caminho inválido")
     = Ret (TypeERR, any_ErrMsg (mkErrMsg "caminho inválido"), None).
Proof. split; vm_compute; reflexivity. Qed.

(** C6. When the cleaned path of a REQ is [.], is [..] or starts with
    [..], the server writes one datagram to the peer, the control frame
    ERR("caminho inválido"), and nothing else: the active-transfers map and
    the counters are unchanged, so no transfer is registered and no META,
    DATA or EOF frame is sent. *)
Theorem handleREQ_rejects_traversal (addr : string) (req : Req) (w : World)
  (s : Server) :
  filepath_Clean (protocol.Path req) = "."%string
  \/ filepath_Clean (protocol.Path req) = ".."%string
  \/ strings_HasPrefix (filepath_Clean (protocol.Path req)) ".." = true ->
  sent (handleREQ addr req w s)
  = sent s ++ [(addr, CtrlERR "caminho inválido")]
  /\ activeTransfers (handleREQ addr req w s) = activeTransfers s
  /\ mtr (handleREQ addr req w s) = mtr s
  /\ IsCtrl (CtrlERR "caminho inválido") = true
  /\ DecodeCtrl (CtrlERR "caminho inválido")
     = Ret (TypeERR, any_ErrMsg (mkErrMsg "caminho inválido"), None).
Proof.
  intros Hbad. unfold handleREQ.
  assert (String.eqb (filepath_Clean (protocol.Path req)) "."
          || String.eqb (filepath_Clean (protocol.Path req)) ".."
          || strings_HasPrefix (filepath_Clean (protocol.Path req)) ".." = true) as ->.
  { destruct Hbad as [-> | [-> | ->]]; [done|done|]. apply orb_true_r. }
  cbn. repeat split; try done; apply CtrlERR_invalid_path_decodes.
Qed.

End server_facts.

Lemma handleREQ_rejects_traversal_witness :
  serverudp.sent
    (@serverudp.handleREQ unixPathLib memFileSystem "10.0.0.7:40000"
       (mkReq "../secret") memfs.with_served_file serverudp.empty_server)
  = [("10.0.0.7:40000"%string, CtrlERR "caminho inválido")].
Proof.
  apply (@handleREQ_rejects_traversal unixPathLib memFileSystem
           "10.0.0.7:40000" (mkReq "../secret") memfs.with_served_file
           serverudp.empty_server).
  right. right. vm_compute. reflexivity.
Defined.

Example handleREQ_serves_file :
  map (fun d => (DecodeCtrl d.2 ≫= fun r => Ret r.1.1))
    (serverudp.sent
       (@serverudp.handleREQ unixPathLib memFileSystem "10.0.0.7:40000"
          (mkReq "hello.txt") memfs.with_served_file serverudp.empty_server))
  = [Ret TypeMETA; Ret ""%string; Ret TypeEOF].
Proof. vm_compute. reflexivity. Qed.

(* ===================================================================== *)
(** ** The two frame families are disjoint                                *)
(* ===================================================================== *)

Lemma IsCtrl_ctrlHeader (t n : Z) (payload : list byte) :
  IsCtrl (ctrlHeader t n ++ payload) = true.
Proof.
  rewrite ctrlHeader_layout. unfold IsCtrl. rewrite !len_app.
  pose proof (len_nonneg payload).
  replace (2 <=? _) with true by (len_simpl; cbn; lia).
  reflexivity.
Qed.

Lemma encode_frame (v : any) :
  v <> any_nil ->
  exists t payload,
    frames.encode v = ctrlHeader t (frames.payload_len v) ++ payload
    /\ 1 <= t <= 7 /\ len payload = frames.payload_len v.
Proof.
  intros Hv. destruct v as [|[path]|m|[msg]| |[missing]| |[names]]; [done|..];
    cbn [frames.encode frames.payload_len Path Message Missing Names].
  - exists ctrlTypeREQ, (bytes_of_string path). unfold ctrlTypeREQ. done.
  - eexists ctrlTypeMETA, _. unfold CtrlMETA. rewrite packMETA_layout.
    split; [reflexivity|]. split; [unfold ctrlTypeMETA; lia|].
    len_simpl. rewrite parseHexSha_length. lia.
  - eexists ctrlTypeERR, _. unfold CtrlERR. rewrite packERR_layout.
    split; [reflexivity|]. split; [unfold ctrlTypeERR; lia|]. len_simpl. lia.
  - exists ctrlTypeEOF, []. unfold CtrlEOF, packEOF. rewrite app_nil_r. done.
  - eexists ctrlTypeNACK, _. unfold CtrlNACK. rewrite packNACK_layout.
    split; [reflexivity|]. split; [unfold ctrlTypeNACK; lia|].
    len_simpl. rewrite len_flat_map_be32. lia.
  - exists ctrlTypeLIST, []. unfold CtrlLIST, packLIST. rewrite app_nil_r. done.
  - eexists ctrlTypeLST, _. unfold CtrlLST. rewrite packLST_layout.
    split; [reflexivity|]. split; [unfold ctrlTypeLST; lia|].
    rewrite packLST_plen_sum. len_simpl. lia.
Qed.

(** A datagram is either a control frame or a DATA frame, never both:
    [IsCtrl] answers true on everything the control encoders build and
    false on everything that starts with a packed DATA header; the control
    decoder rejects a DATA frame and the DATA header parser rejects a
    control frame, each with an error value. *)
Theorem IsCtrl_separates_frames (v : any) (h : DataHeader.t)
  (payload : list byte) :
  (v <> any_nil ->
   IsCtrl (frames.encode v) = true
   /\ exists e, UnpackHeader (frames.encode v) = Ret (DataHeader.zero, Some e))
  /\ IsCtrl (PackHeader h ++ payload) = false
  /\ DecodeCtrl (PackHeader h ++ payload)
     = Ret (""%string, any_nil, Some "ctrl header inválido"%string).
Proof.
  split; [|split].
  - intros Hv. destruct (encode_frame v Hv) as (t & p & -> & _ & _).
    split; [apply IsCtrl_ctrlHeader|].
    rewrite ctrlHeader_layout. unfold UnpackHeader.
    destruct (len _ <? dataHeaderSize); [eauto|].
    run_outcome.
    change (Ascii.eqb ctrlMagic1 dataMagic1) with false.
    rewrite orb_true_r. cbn [orb]. eauto.
  - rewrite PackHeader_layout. unfold IsCtrl.
    change (Ascii.eqb (at_index _ 1) "C") with false.
    by rewrite andb_false_r.
  - rewrite PackHeader_layout. unfold DecodeCtrl, parseCtrl.
    pose proof (len_nonneg payload).
    replace (len _ <? 6) with false by (len_simpl; cbn; lia).
    run_outcome.
    change (negb (Ascii.eqb dataMagic0 ctrlMagic0)) with false. cbv iota.
    run_outcome.
    change (negb (Ascii.eqb dataMagic1 ctrlMagic1)) with true. cbv iota.
    reflexivity.
Qed.

(* ===================================================================== *)
(** ** DATA header: what is accepted, and packing what was unpacked       *)
(* ===================================================================== *)

Lemma byte_of_Z_eq (z : Z) (b : byte) : z mod 256 = Z_of_byte b -> byte_of_Z z = b.
Proof.
  intros Hz. rewrite <- (byte_of_Z_of_byte b). unfold byte_of_Z.
  rewrite Hz. by rewrite (Z.mod_small (Z_of_byte b)) by apply Z_of_byte_range.
Qed.

Lemma be16_Uint16 (b0 b1 : byte) (v : Z) :
  binary.Uint16 [b0; b1] = Ret v -> binary.be16 v = [b0; b1].
Proof.
  unfold binary.Uint16. run_outcome. intros [= <-].
  pose proof (Z_of_byte_range b0). pose proof (Z_of_byte_range b1).
  lor_to_add. unfold binary.be16. rewrite !Z.shiftr_div_pow2 by lia.
  repeat (apply (f_equal2 cons);
            [apply byte_of_Z_eq; Z.div_mod_to_equations; lia|]).
  done.
Qed.

Lemma be32_Uint32 (b0 b1 b2 b3 : byte) (v : Z) :
  binary.Uint32 [b0; b1; b2; b3] = Ret v -> binary.be32 v = [b0; b1; b2; b3].
Proof.
  unfold binary.Uint32. run_outcome. intros [= <-].
  pose proof (Z_of_byte_range b0). pose proof (Z_of_byte_range b1).
  pose proof (Z_of_byte_range b2). pose proof (Z_of_byte_range b3).
  lor_to_add. unfold binary.be32. rewrite !Z.shiftr_div_pow2 by lia.
  repeat (apply (f_equal2 cons);
            [apply byte_of_Z_eq; Z.div_mod_to_equations; lia|]).
  done.
Qed.

Lemma ascii_eqb_false_ne (a b : ascii) : negb (Ascii.eqb a b) = false -> a = b.
Proof. intros E. apply Ascii.eqb_eq. by destruct (Ascii.eqb a b). Qed.

(** [UnpackHeader] reports a short buffer below 18 bytes and an invalid
    header when magic or version differ; it accepts every other buffer,
    whatever its flags byte and whatever follows the 18th byte, and packing
    the header it returns gives back the first 18 bytes with the flags
    byte cleared. *)
Theorem UnpackHeader_accepts (b : list byte) :
  (len b < 18 ->
   UnpackHeader b
   = Ret (DataHeader.zero, Some "buffer curto para header"%string))
  /\ (18 <= len b ->
      take 3 b <> [dataMagic0; dataMagic1; byte_of_Z config.ProtocolVersion] ->
      UnpackHeader b = Ret (DataHeader.zero, Some "header inválido"%string))
  /\ (18 <= len b ->
      take 3 b = [dataMagic0; dataMagic1; byte_of_Z config.ProtocolVersion] ->
      exists h, UnpackHeader b = Ret (h, None)
        /\ DataHeader.valid h
        /\ PackHeader h = <[3%nat := byte_of_Z 0]> (take 18 b)).
Proof.
  split; [|split].
  - intros Hlen. unfold UnpackHeader.
    by replace (len b <? dataHeaderSize) with true
      by (unfold dataHeaderSize; lia).
  - intros Hlen Hbad. unfold UnpackHeader.
    replace (len b <? dataHeaderSize) with false
      by (unfold dataHeaderSize; lia).
    destruct b as [|x0 [|x1 [|x2 b]]]; try (unfold len in Hlen; cbn in Hlen; lia).
    run_outcome.
    destruct (_ || _) eqn:E; [done|].
    apply orb_false_elim in E as [E E2]. apply orb_false_elim in E as [E0 E1].
    apply ascii_eqb_false_ne in E0, E1, E2. subst. done.
  - intros Hlen Hok.
    destruct b as [|x0 [|x1 [|x2 [|x3 [|s0 [|s1 [|s2 [|s3 [|t0 [|t1 [|t2 [|t3
      [|z0 [|z1 [|c0 [|c1 [|c2 [|c3 b]]]]]]]]]]]]]]]]]];
      try (unfold len in Hlen; cbn in Hlen; lia).
    injection Hok as -> -> ->.
    unfold UnpackHeader.
    replace (len _ <? dataHeaderSize) with false
      by (unfold dataHeaderSize; lia).
    run_outcome.
    change (negb (Ascii.eqb dataMagic0 dataMagic0)
            || negb (Ascii.eqb dataMagic1 dataMagic1)
            || negb (Ascii.eqb (byte_of_Z config.ProtocolVersion)
                               (byte_of_Z config.ProtocolVersion)))
      with false. cbv iota.
    rewrite !sub_in_range by lia.
    match goal with |- context [drop (Z.to_nat 4) ?l] => set (pkt := l) end.
    change (take (Z.to_nat (8 - 4)) (drop (Z.to_nat 4) pkt))
      with [s0; s1; s2; s3].
    change (take (Z.to_nat (12 - 8)) (drop (Z.to_nat 8) pkt))
      with [t0; t1; t2; t3].
    change (take (Z.to_nat (14 - 12)) (drop (Z.to_nat 12) pkt)) with [z0; z1].
    change (take (Z.to_nat (18 - 14)) (drop (Z.to_nat 14) pkt))
      with [c0; c1; c2; c3].
    destruct (Uint32_total [s0; s1; s2; s3]) as [vs Es]; [by cbn|].
    destruct (Uint32_total [t0; t1; t2; t3]) as [vt Et]; [by cbn|].
    destruct (Uint16_total [z0; z1]) as [vz Ez]; [by cbn|].
    destruct (Uint32_total [c0; c1; c2; c3]) as [vc Ec]; [by cbn|].
    cbn [mbind outcome_bind]. rewrite Es. cbn [mbind outcome_bind].
    rewrite Et. cbn [mbind outcome_bind]. rewrite Ez. cbn [mbind outcome_bind].
    rewrite Ec. cbn [mbind outcome_bind].
    eexists. split; [reflexivity|]. split.
    { unfold DataHeader.valid. cbn.
      pose proof (Uint32_range _ _ Es). pose proof (Uint32_range _ _ Et).
      pose proof (Uint16_range _ _ Ez). pose proof (Uint32_range _ _ Ec). done. }
    rewrite PackHeader_layout. cbn [DataHeader.Seq DataHeader.Total
      DataHeader.Size DataHeader.CRC32].
    rewrite (be32_Uint32 _ _ _ _ _ Es), (be32_Uint32 _ _ _ _ _ Et),
      (be16_Uint16 _ _ _ Ez), (be32_Uint32 _ _ _ _ _ Ec).
    reflexivity.
Qed.

(* ===================================================================== *)
(** ** Control frames: trailing bytes and truncation                      *)
(* ===================================================================== *)

Lemma index_app_l {A : Type} (b junk : list A) (i : Z) (x : A) :
  index b i = Ret x -> index (b ++ junk) i = Ret x.
Proof.
  intros Hx. apply index_Some in Hx as [Hi Hx].
  apply index_lookup; [lia|]. by apply lookup_app_l_Some.
Qed.

Lemma sub_Ret {A : Type} (b s : list A) (lo hi : Z) :
  sub b lo hi = Ret s ->
  0 <= lo <= hi /\ hi <= len b
  /\ s = take (Z.to_nat (hi - lo)) (drop (Z.to_nat lo) b).
Proof.
  unfold sub.
  destruct (0 <=? lo) eqn:H0, (lo <=? hi) eqn:H1, (hi <=? len b) eqn:H2;
    try done.
  cbn [andb]. intros [= <-]. split; [lia|]. split; [lia|done].
Qed.

Lemma sub_app_l {A : Type} (b junk s : list A) (lo hi : Z) :
  sub b lo hi = Ret s -> sub (b ++ junk) lo hi = Ret s.
Proof.
  intros Hs. apply sub_Ret in Hs as (Hlo & Hhi & ->).
  pose proof (len_nonneg junk).
  rewrite sub_in_range by (rewrite ?len_app; lia). f_equal.
  rewrite drop_app_le by (unfold len in *; lia).
  rewrite take_app_le; [done|]. rewrite length_drop. unfold len in *. lia.
Qed.

Lemma parseCtrl_app (b junk p : list byte) (t : Z) :
  parseCtrl b = Ret (t, p, None) -> parseCtrl (b ++ junk) = Ret (t, p, None).
Proof.
  unfold parseCtrl. pose proof (len_nonneg junk) as Hj. rewrite len_app.
  destruct (len b <? 6) eqn:Hlen; [done|].
  replace (len b + len junk <? 6) with false by lia.
  destruct (index b 0) as [x0|] eqn:E0; [|done].
  rewrite (index_app_l _ junk _ _ E0). cbn [mbind outcome_bind].
  destruct (negb _); [done|].
  destruct (index b 1) as [x1|] eqn:E1; [|done].
  rewrite (index_app_l _ junk _ _ E1). cbn [mbind outcome_bind].
  destruct (negb _); [done|].
  destruct (index b 2) as [x2|] eqn:E2; [|done].
  rewrite (index_app_l _ junk _ _ E2). cbn [mbind outcome_bind].
  destruct (negb _); [done|].
  destruct (index b 3) as [x3|] eqn:E3; [|done].
  rewrite (index_app_l _ junk _ _ E3). cbn [mbind outcome_bind].
  destruct (sub b 4 6) as [s|] eqn:Es; [|done].
  rewrite (sub_app_l _ junk _ _ _ Es). cbn [mbind outcome_bind].
  destruct (binary.Uint16 s) as [l|]; [|done]. cbn [mbind outcome_bind].
  destruct (len b <? 6 + l) eqn:Hfit; [done|].
  replace (len b + len junk <? 6 + l) with false by lia.
  destruct (sub b 6 (6 + l)) as [q|] eqn:Eq; [|done].
  by rewrite (sub_app_l _ junk _ _ _ Eq).
Qed.

(** [DecodeCtrl] reads the declared payload length and nothing beyond it:
    a datagram that decodes without error decodes to the same type and
    value when any bytes are added behind it. *)
Theorem DecodeCtrl_ignores_trailing (b junk : list byte) (typ : string)
  (v : any) :
  DecodeCtrl b = Ret (typ, v, None) ->
  DecodeCtrl (b ++ junk) = Ret (typ, v, None).
Proof.
  unfold DecodeCtrl.
  destruct (parseCtrl b) as [[[t p] [e|]]|] eqn:Ep; try done.
  by rewrite (parseCtrl_app _ junk _ _ Ep).
Qed.

Lemma DecodeCtrl_ignores_trailing_witness :
  DecodeCtrl (CtrlNACK [3; 7] ++ bytes_of_string "trailing")
  = Ret (TypeNACK, any_Nack (mkNack [3; 7]), None).
Proof.
  apply (DecodeCtrl_ignores_trailing (CtrlNACK [3; 7])).
  vm_compute. reflexivity.
Defined.

Lemma parseCtrl_short_payload (t n : Z) (payload : list byte) :
  len payload < uint16 n ->
  parseCtrl (ctrlHeader t n ++ payload)
  = Ret (0, [], Some "ctrl payload curto"%string).
Proof.
  intros Hn. pose proof (uint16_range n) as Hr.
  pose proof (len_nonneg payload) as Hp.
  unfold parseCtrl. rewrite ctrlHeader_layout.
  set (b := (_ ++ payload)%list).
  assert (len b = 6 + len payload) as Hlen.
  { unfold b. rewrite len_app. reflexivity. }
  rewrite Hlen. replace (6 + len payload <? 6) with false by lia.
  run_outcome.
  change (negb (Ascii.eqb ctrlMagic0 ctrlMagic0)) with false. cbv iota.
  change (negb (Ascii.eqb ctrlMagic1 ctrlMagic1)) with false. cbv iota.
  change (negb (Ascii.eqb (byte_of_Z config.ProtocolVersion)
                          (byte_of_Z config.ProtocolVersion))) with false.
  cbv iota.
  rewrite (sub_in_range b 4 6) by lia.
  change (take (Z.to_nat (6 - 4)) (drop (Z.to_nat 4) b))
    with (binary.be16 (uint16 n)).
  cbn [mbind outcome_bind]. rewrite Uint16_be16, uint16_idem.
  cbn [mbind outcome_bind].
  by replace (6 + len payload <? 6 + uint16 n) with true by lia.
Qed.

Lemma parseCtrl_short_header (b : list byte) :
  len b < 6 -> parseCtrl b = Ret (0, [], Some "ctrl header inválido"%string).
Proof. intros Hb. unfold parseCtrl. by replace (len b <? 6) with true by lia. Qed.

(** Truncation is detected: for a control value that fits the wire format,
    every proper prefix of its frame is refused by [DecodeCtrl] with an
    error value (a short header below 6 bytes, a short payload from there
    on), never decoded to some other value. *)
Theorem DecodeCtrl_rejects_truncated (v : any) (k : nat) :
  frames.representable v -> (k < length (frames.encode v))%nat ->
  DecodeCtrl (take k (frames.encode v))
  = Ret (""%string, any_nil,
         Some (if (k <? 6)%nat then "ctrl header inválido"%string
               else "ctrl payload curto"%string)).
Proof.
  intros [Hb Hfit] Hk.
  assert (v <> any_nil) as Hv by (by destruct v).
  destruct (encode_frame v Hv) as (t & p & E & Ht & Hp). rewrite E in *.
  pose proof (len_nonneg p) as Hp0.
  unfold DecodeCtrl. destruct (k <? 6)%nat eqn:Hk6.
  - apply Nat.ltb_lt in Hk6. rewrite parseCtrl_short_header; [done|].
    unfold len. rewrite length_take. lia.
  - apply Nat.ltb_ge in Hk6.
    rewrite take_app_ge by (rewrite ctrlHeader_layout; cbn; lia).
    rewrite parseCtrl_short_payload; [done|].
    rewrite uint16_small by lia.
    rewrite length_app in Hk. unfold len in *. rewrite length_take.
    rewrite ctrlHeader_layout in *. cbn [length app binary.be16] in *. lia.
Qed.

Lemma DecodeCtrl_rejects_truncated_witness :
  DecodeCtrl (take 53 (CtrlMETA frames.meta_sample))
  = Ret (""%string, any_nil, Some "ctrl payload curto"%string).
Proof.
  apply (DecodeCtrl_rejects_truncated (any_Meta frames.meta_sample) 53).
  - split; [|vm_compute; discriminate].
    cbn [frames.fields_in_bounds].
    split; [vm_compute; discriminate|].
    split; [unfold is_uint32; cbn; lia|].
    split; [cbn; lia|].
    split; [unfold is_uint16; cbn; lia|].
    apply sha_of_empty_hex.
  - vm_compute. lia.
Defined.

(* ===================================================================== *)
(** ** Digest strings                                                     *)
(* ===================================================================== *)

Lemma hex_of_byte_lower (v : byte) :
  Forall frames.is_lower_hex (hex_of_byte v)
  /\ frames.hex_pairs (hex_of_byte v) = [v].
Proof.
  destruct v as [[] [] [] [] [] [] [] []];
    (split; [repeat constructor; unfold frames.is_lower_hex;
             vm_compute; tauto
            | vm_compute; reflexivity]).
Qed.

Lemma hex_pairs_cons2 (c1 c2 : byte) (rest : list byte) :
  frames.hex_pairs (c1 :: c2 :: rest)
  = frames.hex_pairs [c1; c2] ++ frames.hex_pairs rest.
Proof. reflexivity. Qed.

Lemma fmtHash_bytes (b : list byte) :
  Forall frames.is_lower_hex (flat_map hex_of_byte b)
  /\ length (flat_map hex_of_byte b) = (2 * length b)%nat
  /\ frames.hex_pairs (flat_map hex_of_byte b) = b.
Proof.
  induction b as [|v b (IH1 & IH2 & IH3)]; [by repeat constructor|].
  destruct (hex_of_byte_lower v) as [Hl Hp].
  cbn [flat_map]. split; [by apply Forall_app|].
  split; [rewrite length_app, IH2; cbn; lia|].
  change (hex_of_byte v) with [at_index hexdigits (Z.shiftr (Z_of_byte v) 4);
                               at_index hexdigits (Z.land (Z_of_byte v) 0x0f)]
    in *.
  cbn [app]. rewrite hex_pairs_cons2, Hp, IH3. done.
Qed.

Lemma fmtHash_is_sha_hex (b : list byte) :
  len b = 32 -> frames.is_sha_hex (fmtHash b).
Proof.
  intros Hb. destruct (fmtHash_bytes b) as (Hl & Hlen & _).
  unfold frames.is_sha_hex, fmtHash. rewrite bytes_of_string_of_bytes.
  split; [unfold len in *; lia|done].
Qed.

(** [fmtHash] writes two lower-case hexadecimal characters per byte, and on
    digests it is inverted by [parseHexSha]: parsing the 64 characters
    formatted from 32 bytes returns those 32 bytes. *)
Theorem parseHexSha_fmtHash (b : list byte) :
  len (bytes_of_string (fmtHash b)) = 2 * len b
  /\ Forall frames.is_lower_hex (bytes_of_string (fmtHash b))
  /\ (len b = 32 -> parseHexSha (fmtHash b) = b).
Proof.
  destruct (fmtHash_bytes b) as (Hl & Hlen & Hp).
  unfold fmtHash at 1 2. rewrite bytes_of_string_of_bytes.
  split; [unfold len; lia|]. split; [done|]. intros Hb.
  destruct (parseHexSha_valid _ (fmtHash_is_sha_hex b Hb)) as [-> _].
  unfold fmtHash. by rewrite bytes_of_string_of_bytes.
Qed.

Lemma length_round (s : list Z) (kw : Z * Z) :
  length (sha256.round s kw) = length s.
Proof.
  unfold sha256.round.
  by destruct s as [|a [|b [|c [|d [|e [|f [|g [|h [|]]]]]]]]].
Qed.

Lemma length_block (s : list Z) (blk : list byte) :
  length (sha256.block s blk) = length s.
Proof.
  unfold sha256.block. rewrite length_zip_with.
  assert (forall l s0, length (fold_left sha256.round l s0) = length s0) as Hf.
  { induction l as [|kw l IH]; intros s0; [done|].
    cbn [fold_left]. by rewrite IH, length_round. }
  rewrite Hf. lia.
Qed.

Lemma length_blocks (fuel : nat) (s : list Z) (b : list byte) :
  length (sha256.blocks fuel s b) = length s.
Proof.
  revert s b. induction fuel as [|fuel IH]; intros s b; [done|].
  cbn [sha256.blocks]. destruct b; [done|]. by rewrite IH, length_block.
Qed.

Lemma len_Sum256 (data : list byte) : len (sha256.Sum256 data) = 32.
Proof.
  unfold sha256.Sum256. rewrite len_flat_map_be32. unfold len.
  rewrite length_blocks. reflexivity.
Qed.

(** Whatever the chunks, [SHA256FileChunks] returns 64 lower-case
    hexadecimal characters, so a META that carries it keeps its digest
    unchanged through [parseHexSha] on the sending side and [fmtHash] on
    the receiving side. *)
Theorem SHA256FileChunks_wire_safe (chunks : list (list byte)) :
  frames.is_sha_hex (SHA256FileChunks chunks)
  /\ fmtHash (parseHexSha (SHA256FileChunks chunks)) = SHA256FileChunks chunks.
Proof.
  assert (frames.is_sha_hex (SHA256FileChunks chunks)) as Hhex.
  { apply fmtHash_is_sha_hex, len_Sum256. }
  split; [done|]. by destruct (parseHexSha_valid _ Hhex) as [_ ->].
Qed.

(* ===================================================================== *)
(** ** Server: segmenting a file and serving it                           *)
(* ===================================================================== *)

Section serving.
Context `{PathLib} `{FileSystem}.
Import serverudp.

Lemma ChunkSize_nat : Z.to_nat config.ChunkSize = 1024%nat.
Proof. reflexivity. Qed.

Lemma read_chunks_concat (fuel : nat) (content : list byte) :
  (length content <= fuel)%nat ->
  concat (read_chunks fuel content) = content.
Proof.
  revert content. induction fuel as [|fuel IH]; intros content Hfuel.
  - destruct content; [done|cbn in Hfuel; lia].
  - cbn [read_chunks]. destruct content as [|x content]; [done|].
    set (c := x :: content) in *. cbn [concat].
    rewrite IH; [apply take_drop|].
    rewrite length_drop, ChunkSize_nat. unfold c in *. cbn [length] in *. lia.
Qed.

Lemma read_chunks_sizes (fuel : nat) (content : list byte) :
  Forall (fun c => 1 <= len c <= config.ChunkSize) (read_chunks fuel content).
Proof.
  revert content. induction fuel as [|fuel IH]; intros content; [constructor|].
  cbn [read_chunks]. destruct content as [|x content]; [constructor|].
  constructor; [|apply IH].
  unfold len. rewrite length_take, ChunkSize_nat. cbn [length].
  unfold config.ChunkSize. lia.
Qed.

Lemma read_chunks_full (fuel : nat) (content : list byte) (k : nat)
  (c : list byte) :
  read_chunks fuel content !! k = Some c ->
  (S k < length (read_chunks fuel content))%nat ->
  len c = config.ChunkSize.
Proof.
  revert content k. induction fuel as [|fuel IH]; intros content k; [done|].
  cbn [read_chunks]. destruct content as [|x content]; [done|].
  set (ct := x :: content). destruct k as [|k].
  - cbn [lookup list_lookup length]. intros Hc Hmore.
    apply (inj Some) in Hc. subst c.
    destruct fuel as [|fuel]; [cbn in Hmore; lia|].
    cbn [read_chunks] in Hmore.
    destruct (drop (Z.to_nat config.ChunkSize) ct) eqn:Ed;
      [cbn in Hmore; lia|].
    apply (f_equal length) in Ed. rewrite length_drop in Ed. cbn [length] in Ed.
    unfold len. rewrite length_take. rewrite ChunkSize_nat in *.
    unfold config.ChunkSize. lia.
  - cbn [lookup list_lookup length]. intros Hk Hmore.
    apply (IH _ _ Hk). lia.
Qed.

Lemma read_chunks_count (fuel : nat) (content : list byte) :
  (length content <= fuel)%nat ->
  len (read_chunks fuel content)
  = (len content + (config.ChunkSize - 1)) / config.ChunkSize.
Proof.
  revert content. induction fuel as [|fuel IH]; intros content Hfuel.
  - destruct content; [done|cbn in Hfuel; lia].
  - cbn [read_chunks]. destruct content as [|x content]; [done|].
    set (ct := x :: content) in *.
    assert (1 <= length ct)%nat as Hne by (unfold ct; cbn; lia).
    rewrite len_cons, IH.
    2:{ rewrite length_drop, ChunkSize_nat. lia. }
    unfold len. rewrite length_drop, ChunkSize_nat. unfold config.ChunkSize.
    change (1024 - 1) with 1023. Z.div_mod_to_equations. lia.
Qed.

(** [loadFile] cuts a regular file into chunks that lose nothing: their
    concatenation is the file, every chunk has between 1 and 1024 bytes,
    every chunk but the last has exactly 1024, and there are
    ceil(size/1024) of them; META names the base name of the path, the
    chunk count cut to 32 bits, and the SHA-256 of the whole content. *)
Theorem loadFile_chunks (path : string) (w : World) (st : FileInfo)
  (content : list byte) :
  os_Stat path w = Some st -> IsDir st = false ->
  os_ReadFile path w = Some content ->
  exists entry,
    loadFile path w = (Some entry, None)
    /\ concat (chunks entry) = content
    /\ Forall (fun c => 1 <= len c <= 1024) (chunks entry)
    /\ (forall k c, chunks entry !! k = Some c ->
          (S k < length (chunks entry))%nat -> len c = 1024)
    /\ len (chunks entry) = (len content + 1023) / 1024
    /\ protocol.Meta.Filename (meta entry) = filepath_Base path
    /\ protocol.Meta.Total (meta entry) = uint32 (len (chunks entry))
    /\ protocol.Meta.Size (meta entry) = FileSize st
    /\ protocol.Meta.Chunk (meta entry) = 1024
    /\ protocol.Meta.SHA256 (meta entry) = fmtHash (sha256.Sum256 content).
Proof.
  intros Hst Hdir Hread. unfold loadFile. rewrite Hst, Hdir, Hread.
  eexists. split; [reflexivity|]. cbn [chunks meta protocol.Meta.Filename
    protocol.Meta.Total protocol.Meta.Size protocol.Meta.Chunk
    protocol.Meta.SHA256].
  split; [by apply read_chunks_concat|].
  split; [apply read_chunks_sizes|].
  split; [apply read_chunks_full|].
  split; [by apply read_chunks_count|].
  repeat split. unfold SHA256FileChunks. by rewrite read_chunks_concat.
Qed.

Lemma uint64_add_l (a b : Z) : uint64 (uint64 a + b) = uint64 (a + b).
Proof. unfold uint64. by rewrite Zplus_mod_idemp_l. Qed.

Lemma uint64_add_r (a b : Z) : uint64 (a + uint64 b) = uint64 (a + b).
Proof. unfold uint64. by rewrite Zplus_mod_idemp_r. Qed.

Lemma send_chunks_trace (addr : string) (total i : Z)
  (cs : list (list byte)) (s : Server) :
  let s' := send_chunks addr total i cs s in
  sent s' = sent s ++ map (pair addr) (data_frames total i cs)
  /\ activeTransfers s' = activeTransfers s
  /\ baseDir s' = baseDir s
  /\ logged s' = logged s
  /\ uint64 (BytesSent (mtr s'))
     = uint64 (BytesSent (mtr s) + 18 * len cs + len (concat cs))
  /\ uint64 (SegmentsSent (mtr s')) = uint64 (SegmentsSent (mtr s) + len cs)
  /\ NacksReceived (mtr s') = NacksReceived (mtr s)
  /\ Retransmissions (mtr s') = Retransmissions (mtr s)
  /\ ActiveClients (mtr s') = ActiveClients (mtr s).
Proof.
  cbn zeta. revert i s. induction cs as [|c cs IH]; intros i s.
  - cbn [send_chunks data_frames map concat]. rewrite app_nil_r.
    unfold len. cbn [length]. repeat split; f_equal; lia.
  - cbn [send_chunks data_frames map concat WriteToUDP].
    match goal with |- context [send_chunks addr total (i + 1) cs ?x] =>
      set (s1 := x) end.
    destruct (IH (i + 1) s1) as (Hs & Ha & Hb & Hl & Hby & Hsg & Hn & Hr & Hc).
    rewrite Hs, Ha, Hb, Hl, Hby, Hsg, Hn, Hr, Hc. unfold s1.
    cbn [sent activeTransfers baseDir logged mtr with_mtr BytesSent
         SegmentsSent NacksReceived Retransmissions ActiveClients].
    rewrite <- app_assoc. split; [done|]. repeat split.
    + rewrite !len_app, len_cons, PackHeader_length.
      unfold uint64. Z.div_mod_to_equations. lia.
    + rewrite len_cons. unfold uint64. Z.div_mod_to_equations. lia.
Qed.


Lemma path_allowed_test (safe : string) :
  path_allowed safe ->
  String.eqb safe "." || String.eqb safe ".." || strings_HasPrefix safe ".."
  = false.
Proof.
  intros (H1 & H2 & ->).
  destruct (String.eqb_spec safe "."); [done|].
  by destruct (String.eqb_spec safe "..").
Qed.


(** A REQ whose path passes the traversal test but which [loadFile]
    cannot serve (no such file, a directory, an unreadable file) is
    answered by the single frame ERR("arquivo não encontrado"), which
    decodes at the peer; counters and registrations stay as they were, so
    an earlier transfer registered for the same peer remains the one that
    NACKs are served from. *)
Theorem handleREQ_not_found (addr : string) (req : Req) (w : World)
  (s : Server) :
  path_allowed (filepath_Clean (protocol.Path req)) ->
  (loadFile (filepath_Join (baseDir s) (filepath_Clean (protocol.Path req))) w).1
  = None ->
  let s' := handleREQ addr req w s in
  sent s' = sent s ++ [(addr, CtrlERR "arquivo não encontrado")]
  /\ activeTransfers s' = activeTransfers s
  /\ mtr s' = mtr s
  /\ DecodeCtrl (CtrlERR "arquivo não encontrado")
     = Ret (TypeERR, any_ErrMsg (mkErrMsg "arquivo não encontrado"), None).
Proof.
  intros Hok Hload. cbn zeta. unfold handleREQ.
  rewrite (path_allowed_test _ Hok).
  destruct (loadFile _ w) as [[e|] err]; [done|].
  cbn [WriteToUDP snd sent activeTransfers mtr].
  do 3 (split; [done|]). vm_compute. reflexivity.
Qed.

(** [loadFile] refuses what is not a regular file. *)
Lemma loadFile_refuses (path : string) (w : World) :
  (os_Stat path w = None
   \/ (exists st, os_Stat path w = Some st /\ IsDir st = true)
   \/ os_ReadFile path w = None) ->
  (loadFile path w).1 = None.
Proof.
  unfold loadFile. intros [->|[(st & -> & ->)|Hread]]; [done|done|].
  destruct (os_Stat path w) as [st|]; [|done].
  destruct (IsDir st); [done|]. by rewrite Hread.
Qed.

End serving.

(* ===================================================================== *)
(** ** Client and server together: DATA frames                            *)
(* ===================================================================== *)

Lemma lxor_range (a b n : Z) :
  0 <= n -> 0 <= a < 2 ^ n -> 0 <= b < 2 ^ n -> 0 <= Z.lxor a b < 2 ^ n.
Proof.
  intros Hn Ha Hb. split; [apply Z.lxor_nonneg; lia|].
  destruct (Z.eq_dec n 0) as [->|Hn0].
  { assert (a = 0) as -> by lia. assert (b = 0) as -> by lia. done. }
  destruct (Z.eq_dec (Z.lxor a b) 0) as [->|Hne]; [lia|].
  apply Z.log2_lt_pow2; [pose proof (Z.lxor_nonneg a b); lia|].
  eapply Z.le_lt_trans; [apply Z.log2_lxor; lia|].
  apply Z.max_lub_lt.
  - destruct (Z.eq_dec a 0) as [->|?]; [cbn; lia|]. apply Z.log2_lt_pow2; lia.
  - destruct (Z.eq_dec b 0) as [->|?]; [cbn; lia|]. apply Z.log2_lt_pow2; lia.
Qed.

Lemma shiftr1_range (c : Z) : 0 <= c < 2 ^ 32 -> 0 <= Z.shiftr c 1 < 2 ^ 32.
Proof.
  intros Hc. rewrite Z.shiftr_div_pow2 by lia. Z.div_mod_to_equations. lia.
Qed.

Lemma shift_bits_range (n : nat) (c : Z) :
  0 <= c < 2 ^ 32 -> 0 <= crc32.shift_bits n c < 2 ^ 32.
Proof.
  revert c. induction n as [|n IH]; intros c Hc; [done|].
  cbn [crc32.shift_bits]. apply IH. pose proof (shiftr1_range c Hc).
  destruct (Z.odd c); [|done].
  apply lxor_range; [lia|done|]. unfold crc32.IEEE. lia.
Qed.

Lemma CRC32_range (data : list byte) : is_uint32 (CRC32 data).
Proof.
  unfold CRC32, crc32.ChecksumIEEE, is_uint32.
  apply lxor_range; [lia| |lia].
  assert (forall c, 0 <= c < 2 ^ 32 ->
            0 <= fold_left crc32.update data c < 2 ^ 32) as Hf.
  { induction data as [|x data IH]; intros c Hc; [done|].
    cbn [fold_left]. apply IH. unfold crc32.update. apply shift_bits_range.
    apply lxor_range; [lia|done|]. pose proof (Z_of_byte_range x). lia. }
  apply Hf. lia.
Qed.

Lemma UnpackHeader_packed (h : DataHeader.t) :
  DataHeader.valid h -> UnpackHeader (PackHeader h) = Ret (h, None).
Proof.
  intros (Hseq & Htot & Hsize & Hcrc).
  unfold UnpackHeader. rewrite PackHeader_length.
  change (18 <? dataHeaderSize) with false. cbv iota.
  rewrite PackHeader_layout. run_outcome.
  change (negb (Ascii.eqb dataMagic0 dataMagic0)
          || negb (Ascii.eqb dataMagic1 dataMagic1)
          || negb (Ascii.eqb (byte_of_Z config.ProtocolVersion)
                             (byte_of_Z config.ProtocolVersion)))
    with false. cbv iota.
  rewrite !sub_in_range by (unfold len; cbn; lia).
  set (pkt := (_ ++ _)%list).
  change (take (Z.to_nat (8 - 4)) (drop (Z.to_nat 4) pkt))
    with (binary.be32 (DataHeader.Seq h)).
  change (take (Z.to_nat (12 - 8)) (drop (Z.to_nat 8) pkt))
    with (binary.be32 (DataHeader.Total h)).
  change (take (Z.to_nat (14 - 12)) (drop (Z.to_nat 12) pkt))
    with (binary.be16 (DataHeader.Size h)).
  change (take (Z.to_nat (18 - 14)) (drop (Z.to_nat 14) pkt))
    with (binary.be32 (DataHeader.CRC32 h)).
  cbn [mbind outcome_bind].
  rewrite Uint32_be32. cbn [mbind outcome_bind].
  rewrite Uint32_be32. cbn [mbind outcome_bind].
  rewrite Uint16_be16. cbn [mbind outcome_bind].
  rewrite Uint32_be32. cbn [mbind outcome_bind].
  unfold uint32, uint16, is_uint32, is_uint16 in *.
  rewrite !Z.mod_small by lia. by destruct h.
Qed.

Section data_frames_received.
Context `{RandSource}.

(** The receive state after a fresh payload has been stored. *)
Lemma read_into_whole (d : list byte) :
  len d <= data_bufsize ->
  visible (read_into data_bufsize d) = d
  /\ slice_len (read_into data_bufsize d) = len d
  /\ slice_cap (read_into data_bufsize d) = data_bufsize.
Proof.
  intros Hd. unfold read_into. cbn [visible].
  rewrite take_ge by (unfold len in Hd; lia).
  split; [done|]. split; [done|].
  unfold slice_cap. cbn [visible spare]. pose proof (len_nonneg d).
  rewrite len_make by lia. lia.
Qed.

Lemma processPacket_data_frame (seq total : Z) (chunk : list byte)
  (cb : Callbacks) (st : recvState) :
  is_uint32 seq -> is_uint32 total -> len chunk <= config.ChunkSize ->
  processPacket (read_into data_bufsize (data_frame seq total chunk)) None cb st
  = match recv st !! seq with
    | Some _ => Ret (false, None, st, [])
    | None =>
        let st' := mkRecvState (<[seq := chunk]> (recv st))
                     (uint64 (bytesRecv st + uint64 (len chunk)))
                     (uint64 (segsRecv st + 1)) in
        Ret (false, None, st',
             (if OnLog cb && (seq mod 500 =? 0) then
                [EvLog (LogProgress seq (uint32 (total - 1)))]
              else [])
             ++ (if OnProgress cb then
                   [EvProgress (bytesRecv st') (segsRecv st')]
                 else []))
    end.
Proof.
  intros Hseq Htot Hlen. pose proof (len_nonneg chunk) as Hc0.
  unfold config.ChunkSize in Hlen.
  set (h := DataHeader.mk seq total (uint16 (len chunk)) (CRC32 chunk)).
  assert (DataHeader.valid h) as Hvalid.
  { unfold DataHeader.valid, h. cbn. split; [done|]. split; [done|].
    split; [apply uint16_range|apply CRC32_range]. }
  assert (data_frame seq total chunk = PackHeader h ++ chunk) as Hframe
    by reflexivity.
  set (d := data_frame seq total chunk) in *.
  assert (len d = 18 + len chunk) as Hd.
  { rewrite Hframe, len_app, PackHeader_length. done. }
  destruct (read_into_whole d) as (Hvis & Hsl & Hcap).
  { change data_bufsize with 1042. lia. }
  set (b := read_into data_bufsize d) in *.
  assert (HeaderSize = 18) as H18 by reflexivity.
  assert (data_bufsize = 1042) as Hbuf by reflexivity.
  unfold processPacket. rewrite Hvis.
  assert (IsCtrl d = false) as ->.
  { rewrite Hframe, PackHeader_layout. unfold IsCtrl.
    change (Ascii.eqb (at_index _ 1) "C") with false.
    by rewrite andb_false_r. }
  unfold reslice_to, reslice_from.
  rewrite (reslice_in_range b 0 HeaderSize) by lia.
  cbn [mbind outcome_bind visible].
  assert (take (Z.to_nat (HeaderSize - 0))
            (drop (Z.to_nat 0) (visible b ++ spare b)) = PackHeader h) as ->.
  { rewrite Hvis, Hframe. change (drop (Z.to_nat 0) ?l) with l.
    rewrite <- app_assoc. apply take_app_length'. reflexivity. }
  rewrite (UnpackHeader_packed h Hvalid). cbn [mbind outcome_bind].
  rewrite (reslice_in_range b HeaderSize (slice_len b)) by lia.
  cbn [mbind outcome_bind].
  change (DataHeader.Size h) with (uint16 (len chunk)).
  change (DataHeader.Seq h) with seq. change (DataHeader.Total h) with total.
  change (DataHeader.CRC32 h) with (CRC32 chunk).
  rewrite !uint16_small by lia.
  replace (slice_len b <? HeaderSize + len chunk) with false by lia.
  rewrite reslice_in_range by lia. cbn [mbind outcome_bind].
  assert (take (Z.to_nat (HeaderSize + len chunk - HeaderSize))
            (drop (Z.to_nat HeaderSize) (visible b ++ spare b)) = chunk) as ->.
  { rewrite Hvis, Hframe, <- app_assoc.
    rewrite drop_app_length' by reflexivity.
    replace (HeaderSize + len chunk - HeaderSize) with (len chunk) by lia.
    unfold len. rewrite Nat2Z.id. apply take_app_length. }
  unfold slice_len at 1. cbn [visible]. rewrite !Z.eqb_refl. cbn [negb].
  destruct (recv st !! seq); [done|].
  unfold slice_len. cbn [visible]. reflexivity.
Qed.

(** A DATA frame built by the server for a chunk of at most 1024 bytes is
    taken by [processPacket] (no drop policy) from any state: a new
    sequence is stored with its payload and the counters move by the
    payload length and by one (modulo 2^64); a sequence already stored is
    ignored without any log; and handing the same frame in again changes
    nothing, so duplicates are never counted twice. *)
Theorem processPacket_takes_server_frame (seq total : Z) (chunk : list byte)
  (cb : Callbacks) (st : recvState) :
  is_uint32 seq -> is_uint32 total -> len chunk <= 1024 ->
  let b := read_into data_bufsize (data_frame seq total chunk) in
  (recv st !! seq = None ->
   exists evs,
     processPacket b None cb st
     = Ret (false, None,
            mkRecvState (<[seq := chunk]> (recv st))
              (uint64 (bytesRecv st + len chunk)) (uint64 (segsRecv st + 1)),
            evs))
  /\ (is_Some (recv st !! seq) ->
      processPacket b None cb st = Ret (false, None, st, []))
  /\ (forall eof dp' st' evs,
        processPacket b None cb st = Ret (eof, dp', st', evs) ->
        processPacket b None cb st' = Ret (false, None, st', [])).
Proof.
  intros Hseq Htot Hlen. cbn zeta.
  pose proof (processPacket_data_frame seq total chunk cb) as Hp.
  split; [|split].
  - intros Hnew. rewrite Hp, Hnew by done. cbn zeta. eexists.
    rewrite uint64_add_r. reflexivity.
  - intros [v Hv]. by rewrite Hp, Hv.
  - intros eof dp' st' evs. rewrite (Hp st) by done.
    destruct (recv st !! seq) eqn:E.
    + intros [= _ _ <- _]. by rewrite Hp, E.
    + cbn zeta. intros [= _ _ <- _]. rewrite Hp by done. cbn [recv].
      by rewrite lookup_insert_eq.
Qed.

End data_frames_received.

Lemma processPacket_takes_server_frame_witness :
  exists evs,
    @processPacket cycleRand
      (read_into data_bufsize (data_frame 0 1 (bytes_of_string "abc")))
      None no_callbacks (mkRecvState ∅ 0 0)
    = Ret (false, None,
           mkRecvState {[ 0 := bytes_of_string "abc" ]} 3 1, evs).
Proof.
  destruct (@processPacket_takes_server_frame cycleRand 0 1
              (bytes_of_string "abc") no_callbacks (mkRecvState ∅ 0 0))
    as (Hnew & _ & _).
  - unfold is_uint32. lia.
  - unfold is_uint32. lia.
  - vm_compute. discriminate.
  - apply Hnew. reflexivity.
Defined.

(* ===================================================================== *)
(** ** A whole transfer over a channel that loses nothing                 *)
(* ===================================================================== *)

Section lossless.
Context `{RandSource}.

Lemma poll_Cancel_idle (chan : bool) (c : Conn) :
  cancels c = [] -> poll_Cancel chan c = (false, c).
Proof. intros Hc. unfold poll_Cancel. rewrite Hc. by destruct chan. Qed.

Lemma processPacket_EOF (dp : option DropPolicy) (cb : Callbacks)
  (st : recvState) :
  processPacket (read_into data_bufsize CtrlEOF) dp cb st
  = Ret (true, dp, st, []).
Proof. reflexivity. Qed.

Lemma data_frames_cons (total i : Z) (c : list byte) (cs : list (list byte)) :
  is_uint32 i -> is_uint32 total ->
  serverudp.data_frames total i (c :: cs)
  = data_frame i total c :: serverudp.data_frames total (i + 1) cs.
Proof.
  intros Hi Ht. cbn [serverudp.data_frames]. unfold data_frame.
  unfold uint32, is_uint32 in *. by rewrite !Z.mod_small by lia.
Qed.

Lemma length_data_frames (total i : Z) (cs : list (list byte)) :
  length (serverudp.data_frames total i cs) = length cs.
Proof.
  revert i. induction cs as [|c cs IH]; intros i; [done|].
  cbn [serverudp.data_frames length]. by rewrite IH.
Qed.

(** Phase 2 on the frames of a file followed by EOF: every chunk is
    stored under its sequence number and the loop ends on the EOF. *)
Lemma initialLoop_lossless (cfg : Config) (cb : Callbacks) (M total : Z)
  (cs : list (list byte)) :
  is_uint32 total -> Forall (fun c => len c <= config.ChunkSize) cs ->
  forall (i idle : Z) (cl : Client) (fuel : nat) (rest : list read_result),
    0 <= i -> i + len cs <= 2 ^ 32 ->
    policy cl = None ->
    inbox (conn cl)
    = map ReadOk (serverudp.data_frames total i cs ++ [CtrlEOF]) ++ rest ->
    cancels (conn cl) = [] ->
    (forall j, i <= j -> recv (rst cl) !! j = None) ->
    (length cs < fuel)%nat ->
    exists cl',
      initialLoop fuel cfg cb M idle cl = Done (true, None, cl')
      /\ policy cl' = None
      /\ conn cl' = mkConn rest (write_errs (conn cl)) [] (clock (conn cl))
                      (outbox (conn cl))
      /\ forall j, recv (rst cl') !! j
                   = if decide (i <= j < i + len cs)
                     then cs !! Z.to_nat (j - i)
                     else recv (rst cl) !! j.
Proof.
  intros Htot Hsizes. induction cs as [|c cs IH];
    intros i idle cl fuel rest Hi Hfit Hpol Hin Hcan Hnew Hfuel.
  - destruct fuel as [|fuel]; [cbn in Hfuel; lia|]. cbn [initialLoop].
    rewrite (poll_Cancel_idle _ _ Hcan).
    unfold conn_Read. cbn [with_conn conn]. rewrite Hin.
    cbn [serverudp.data_frames app map with_conn conn].
    unfold process. cbn [policy rst with_conn]. rewrite processPacket_EOF.
    eexists. split; [reflexivity|]. cbn [policy conn rst].
    split; [done|]. split; [by rewrite Hcan|].
    intros j. rewrite len_nil. destruct (decide _); [lia|done].
  - destruct fuel as [|fuel]; [cbn in Hfuel; lia|]. cbn [initialLoop].
    apply Forall_cons in Hsizes as [Hc Hsizes]. specialize (IH Hsizes).
    rewrite len_cons in Hfit. pose proof (len_nonneg cs) as Hcs.
    rewrite data_frames_cons in Hin by (unfold is_uint32; done || lia).
    rewrite (poll_Cancel_idle _ _ Hcan).
    unfold conn_Read. cbn [with_conn conn]. rewrite Hin.
    cbn [app map with_conn conn].
    unfold process. cbn [policy rst with_conn conn events]. rewrite Hpol.
    rewrite processPacket_data_frame by (unfold is_uint32; done || lia).
    rewrite Hnew by lia. cbv beta iota zeta.
    match goal with |- context [initialLoop fuel cfg cb M 0 ?x] =>
      set (cl1 := x) end.
    destruct (IH (i + 1) 0 cl1 fuel rest) as (cl' & Hrun & Hpol' & Hconn & Hrecv);
      try done; try lia.
    { intros j Hj. unfold cl1. cbn [rst recv].
      rewrite lookup_insert_ne by lia. apply Hnew. lia. }
    { cbn in Hfuel. lia. }
    exists cl'. split; [done|]. split; [done|]. split; [done|].
    intros j. rewrite Hrecv. unfold cl1. cbn [rst recv]. rewrite len_cons.
    destruct (decide (i + 1 <= j < i + 1 + len cs)) as [Hin1|Hout1].
    + rewrite decide_True by lia.
      replace (Z.to_nat (j - i)) with (S (Z.to_nat (j - (i + 1)))) by lia.
      done.
    + destruct (decide (j = i)) as [->|Hne].
      * rewrite decide_True by lia. rewrite lookup_insert_eq.
        by replace (Z.to_nat (i - i)) with 0%nat by lia.
      * rewrite decide_False by lia. by rewrite lookup_insert_ne.
Qed.

Lemma DecodeCtrl_CtrlMETA (m : Meta.t) :
  len (bytes_of_string (Meta.Filename m)) <= 65487 ->
  is_uint32 (Meta.Total m) -> 0 <= Meta.Size m < 2 ^ 63 ->
  is_uint16 (Meta.Chunk m) -> frames.is_sha_hex (Meta.SHA256 m) ->
  DecodeCtrl (CtrlMETA m) = Ret (TypeMETA, any_Meta m, None).
Proof.
  intros Hfn Htot Hsize Hchunk Hsha.
  unfold CtrlMETA. rewrite packMETA_layout.
  set (payload := (binary.be32 _ ++ _)%list).
  pose proof (parseHexSha_length (Meta.SHA256 m)) as Hshalen.
  pose proof (len_nonneg (bytes_of_string (Meta.Filename m))) as Hfn0.
  assert (len payload
          = 4 + 8 + 2 + 2 + len (bytes_of_string (Meta.Filename m)) + 32)
    as Hpl by (unfold payload; len_simpl; lia).
  rewrite <- Hpl, DecodeCtrl_fitting by (done || lia).
  cbn [mbind outcome_bind].
  change (ctrlTypeMETA =? ctrlTypeREQ) with false.
  change (ctrlTypeMETA =? ctrlTypeMETA) with true. cbv iota.
  unfold payload. rewrite unpackMETA_payload by (done || lia).
  cbn [mbind outcome_bind].
  destruct (parseHexSha_valid _ Hsha) as [_ ->].
  rewrite string_of_bytes_of_string. by destruct m.
Qed.

Lemma len_CtrlMETA (m : Meta.t) :
  len (CtrlMETA m) = 54 + len (bytes_of_string (Meta.Filename m)).
Proof.
  unfold CtrlMETA. rewrite packMETA_layout, ctrlHeader_layout.
  len_simpl. rewrite parseHexSha_length. lia.
Qed.

(** Phase 1 when the first datagram to arrive is the META frame. *)
Lemma sendREQAndGetMeta_served (cfg : Config) (cb : Callbacks) (c : Conn)
  (m : Meta.t) (rest : list read_result) (evs : list event) :
  inbox c = ReadOk (CtrlMETA m) :: rest ->
  write_errs c = [] -> cancels c = [] ->
  len (CtrlMETA m) <= 4096 ->
  DecodeCtrl (CtrlMETA m) = Ret (TypeMETA, any_Meta m, None) ->
  exists evs',
    sendREQAndGetMeta cfg cb c evs
    = Done (m, None,
            mkConn rest [] [] (clock c) (outbox c ++ [CtrlREQ (Path cfg)]),
            evs').
Proof.
  intros Hin Hw Hcan Hlen Hdec. unfold sendREQAndGetMeta.
  pose proof (effective_retries_positive cfg) as Hpos.
  destruct (Z.to_nat (effective_retries cfg)) as [|n] eqn:En; [lia|].
  cbn [requestLoop]. unfold conn_Write. rewrite Hw.
  cbn [awaitMeta inbox].
  rewrite poll_Cancel_idle by done.
  unfold conn_Read. cbn [inbox]. rewrite Hin.
  rewrite take_ge by (unfold len in Hlen; lia).
  assert (IsCtrl (CtrlMETA m) = true) as ->.
  { unfold CtrlMETA. rewrite packMETA_layout. apply IsCtrl_ctrlHeader. }
  cbn [negb]. rewrite Hdec.
  change (String.eqb TypeMETA TypeMETA) with true. cbv iota.
  rewrite Hcan. eauto.
Qed.

Lemma ordered_chunks_all (cs : list (list byte)) (m : gmap Z (list byte)) :
  (forall j, 0 <= j < len cs -> m !! j = cs !! Z.to_nat j) ->
  ordered_chunks (len cs) m = cs.
Proof.
  intros Hm. unfold ordered_chunks. apply list_eq. intros k.
  rewrite list_lookup_fmap.
  destruct (decide (k < length cs)%nat) as [Hk|Hk].
  - rewrite lookup_seqZ_lt by (unfold len; lia). cbn.
    rewrite Hm by (unfold len; lia).
    replace (Z.to_nat (0 + Z.of_nat k)) with k by lia.
    destruct (lookup_lt_is_Some_2 cs k Hk) as [c ->]. done.
  - rewrite lookup_seqZ_ge by (unfold len; lia). cbn.
    symmetry. apply lookup_ge_None. lia.
Qed.

End lossless.

Section lossless_transfer.
Context `{RandSource} `{PathLib} `{FileSystem}.
Import serverudp.

Lemma handleREQ_sent (addr : string) (req : Req) (w : World) (s : Server)
  (entry : fileEntry) :
  path_allowed (filepath_Clean (protocol.Path req)) ->
  loadFile (filepath_Join (baseDir s) (filepath_Clean (protocol.Path req))) w
  = (Some entry, None) ->
  sent (handleREQ addr req w s)
  = sent s
    ++ map (pair addr)
         (CtrlMETA (meta entry)
          :: data_frames (len (chunks entry)) 0 (chunks entry) ++ [CtrlEOF])
  /\ activeTransfers (handleREQ addr req w s)
     = <[addr := entry]> (activeTransfers s).
Proof.
  intros Hok Hload. unfold handleREQ.
  rewrite (path_allowed_test _ Hok), Hload.
  match goal with |- context [send_chunks addr ?t 0 ?cs ?x] =>
    set (s1 := x) end.
  destruct (send_chunks_trace addr (len (chunks entry)) 0 (chunks entry) s1)
    as (Hs & Ha & _).
  cbn [add_active logAppend WriteToUDP with_mtr sent activeTransfers snd].
  rewrite Hs, Ha. unfold s1.
  cbn [add_active logAppend WriteToUDP with_mtr sent activeTransfers snd].
  cbn [map]. rewrite map_app, <- !app_assoc. done.
Qed.

Lemma loadFile_entry (path : string) (w : World) (entry : fileEntry) :
  loadFile path w = (Some entry, None) ->
  exists st content,
    os_Stat path w = Some st /\ os_ReadFile path w = Some content
    /\ chunks entry = read_chunks (length content) content
    /\ meta entry
       = Meta.mk (filepath_Base path) (uint32 (len (chunks entry)))
           (FileSize st) (SHA256FileChunks (chunks entry)) config.ChunkSize.
Proof.
  unfold loadFile. destruct (os_Stat path w) as [st|]; [|done].
  destruct (IsDir st); [done|].
  destruct (os_ReadFile path w) as [content|]; [|done].
  intros [= <-]. by exists st, content.
Qed.

(** End to end, over a channel that loses nothing.  The server answers a
    REQ for a regular file; the client is handed the server's datagrams in
    the order they were sent.  Then [transferOnce] writes one REQ, stores
    every chunk, needs no NACK, finds the SHA-256 of META confirmed and
    leaves the content of the served file at the resolved output path with
    success reported, provided that the META frame fits the client's
    4096-byte buffer (a file name of at most 4042 bytes), the file has
    fewer than 2^32 chunks, and the output file can be created and
    written. *)
Theorem transferOnce_lossless (addr : string) (req : Req) (ws : World)
  (s : Server) (entry : fileEntry) (cfg : Config) (cb : Callbacks)
  (wc w1 w2 w3 : World) :
  let target := filepath_Join (baseDir s) (filepath_Clean (protocol.Path req)) in
  let name := resolve_output (meta entry) (OutputPath cfg) in
  let c := mkConn (map (fun p => ReadOk p.2) (sent (handleREQ addr req ws s)))
             [] [] [] [] in
  path_allowed (filepath_Clean (protocol.Path req)) ->
  loadFile target ws = (Some entry, None) ->
  sent s = [] ->
  len (bytes_of_string (Meta.Filename (meta entry))) <= 4042 ->
  0 <= Meta.Size (meta entry) < 2 ^ 63 ->
  len (chunks entry) < 2 ^ 32 ->
  os_MkdirAll (filepath_Dir name) wc = (None, w1) ->
  os_Create name w1 = (None, w2) ->
  write_chunks name (chunks entry) w2 = (None, w3) ->
  exists r content,
    transferOnce cfg None cb (DialOk c) wc = Done r
    /\ out r = name /\ ok r = true /\ err r = None /\ world r = w3
    /\ written r = [CtrlREQ (Path cfg)]
    /\ os_ReadFile target ws = Some content
    /\ file_content w3 name = Some content.
Proof.
  cbn zeta. intros Hok Hload Hfresh Hname Hsize Hcount Hmk Hcreate Hwrite.
  destruct (handleREQ_sent addr req ws s entry Hok Hload) as [Hsent _].
  rewrite Hsent, Hfresh. cbn [app].
  assert (forall l : list (list byte),
            map (fun p : string * list byte => ReadOk p.2) (map (pair addr) l)
            = map ReadOk l) as Hmap.
  { intros l. rewrite map_map. by apply map_ext. }
  rewrite Hmap. cbn [map].
  destruct (loadFile_entry _ _ _ Hload) as (st & content & Hst & Hread & Hcs & Hmeta).
  set (cs := chunks entry) in *. set (m := meta entry) in *.
  pose proof (len_nonneg cs) as Hcs0.
  assert (Meta.Total m = len cs) as Htotal.
  { rewrite Hmeta. cbn. unfold uint32. apply Z.mod_small. lia. }
  assert (Meta.SHA256 m = SHA256FileChunks cs) as Hsha by (by rewrite Hmeta).
  assert (frames.is_sha_hex (Meta.SHA256 m)) as Hhex.
  { rewrite Hsha. apply fmtHash_is_sha_hex, len_Sum256. }
  assert (DecodeCtrl (CtrlMETA m) = Ret (TypeMETA, any_Meta m, None)) as Hdec.
  { apply DecodeCtrl_CtrlMETA; try done; try lia.
    - unfold is_uint32. lia.
    - rewrite Hmeta. cbn. unfold is_uint16, config.ChunkSize. lia. }
  unfold transferOnce.
  destruct (sendREQAndGetMeta_served cfg cb
              (mkConn (ReadOk (CtrlMETA m)
                       :: map ReadOk (data_frames (len cs) 0 cs ++ [CtrlEOF]))
                 [] [] [] [])
              m (map ReadOk (data_frames (len cs) 0 cs ++ [CtrlEOF])) [])
    as [evs1 ->]; try done.
  { rewrite len_CtrlMETA. lia. }
  cbn [clock outbox app].
  (* Phase 2 *)
  unfold receiveData, receiveUntilIdleOrEOF.
  match goal with |- context [initialLoop ?f cfg cb ?M 0 ?x] =>
    set (fuel := f); set (cl0 := x) end.
  destruct (initialLoop_lossless cfg cb (effective_retries cfg * 3) (len cs) cs)
    with (i := 0) (idle := 0) (cl := cl0) (fuel := fuel) (rest := @nil read_result)
    as (cl1 & -> & Hpol1 & Hconn1 & Hrecv1); try done; try lia.
  { rewrite Hcs. eapply Forall_impl; [apply read_chunks_sizes|].
    intros c Hc. cbn in Hc. lia. }
  { unfold cl0. cbn [add_log conn inbox]. by rewrite app_nil_r. }
  { unfold fuel, cl0. cbn [add_log conn inbox].
    rewrite length_map, length_app, length_data_frames. cbn [length]. lia. }
  (* Phase 3 *)
  unfold runNackRounds. cbn [nackLoop].
  all: rewrite poll_Cancel_idle by (rewrite Hconn1; done).
  all: cbn [with_conn rst].
  all: assert (computeMissing (Meta.Total m) (recv (rst cl1)) = []) as Hmiss.
  all: try (apply computeMissing_nil; intros j Hj; rewrite Hrecv1;
            rewrite decide_True by lia;
            apply lookup_lt_is_Some; unfold len in *; lia).
  all: rewrite Hmiss; change (len [] =? 0) with true; cbv iota.
  all: cbn [with_conn rst events conn].
  all: unfold assembleAndVerify; rewrite Hmiss.
  all: change (0 <? len []) with false; cbv iota.
  all: assert (ordered_chunks (Meta.Total m) (recv (rst cl1)) = cs) as ->.
  all: try (rewrite Htotal; apply ordered_chunks_all; intros j Hj;
            rewrite Hrecv1, decide_True by lia; f_equal; lia).
  all: rewrite Hsha, String.eqb_refl, Hmk, Hcreate, Hwrite.
  all: eexists _, content; split; [reflexivity|].
  all: cbn [out ok err world written with_conn conn].
  all: rewrite Hconn1; unfold cl0; cbn [add_log conn outbox].
  all: repeat (split; [done|]).
  all: rewrite (write_chunks_content _ _ _ _ [] (os_Create_content _ _ _ Hcreate)
                  Hwrite).
  all: cbn [app]; f_equal; rewrite Hcs; by apply read_chunks_concat.
Qed.

End lossless_transfer.

Lemma transferOnce_lossless_witness :
  exists r,
    @transferOnce cycleRand unixPathLib memFileSystem (config_with_retries 2)
      None no_callbacks
      (DialOk
         (mkConn
            (map (fun p => ReadOk p.2)
               (serverudp.sent
                  (@serverudp.handleREQ unixPathLib memFileSystem
                     "10.0.0.7:40000" (mkReq "hello.txt")
                     memfs.with_served_file serverudp.empty_server)))
            [] [] [] []))
      memfs.with_out_dir
    = Done r
    /\ ok r = true
    /\ @file_content memFileSystem (world r) "recv_hello.txt"
       = Some (bytes_of_string "hello").
Proof.
  pose (entry := serverudp.mkFileEntry
                   (Meta.mk "hello.txt" 1 5
                      (SHA256FileChunks [bytes_of_string "hello"]) 1024)
                   [bytes_of_string "hello"]).
  pose (w1 := (memfs.MkdirAll "." memfs.with_out_dir).2).
  pose (w2 := (memfs.Create "recv_hello.txt" w1).2).
  pose (w3 := (memfs.Write "recv_hello.txt" (bytes_of_string "hello") w2).2).
  destruct (@transferOnce_lossless cycleRand unixPathLib memFileSystem
              "10.0.0.7:40000" (mkReq "hello.txt") memfs.with_served_file
              serverudp.empty_server entry (config_with_retries 2)
              no_callbacks memfs.with_out_dir w1 w2 w3)
    as (r & content & Hrun & Hout & Hok & _ & Hw & _ & Hread & Hfile).
  - repeat split; vm_compute; discriminate.
  - vm_compute. reflexivity.
  - reflexivity.
  - vm_compute. discriminate.
  - split; [vm_compute; discriminate|vm_compute; reflexivity].
  - vm_compute. reflexivity.
  - vm_compute. reflexivity.
  - vm_compute. reflexivity.
  - vm_compute. reflexivity.
  - exists r. split; [exact Hrun|]. split; [exact Hok|].
    rewrite Hw. vm_compute in Hread. injection Hread as <-. exact Hfile.
Defined.
Lemma loadFile_chunks_witness :
  exists entry,
    @serverudp.loadFile unixPathLib memFileSystem "hello.txt"
      memfs.with_served_file = (Some entry, None)
    /\ concat (serverudp.chunks entry) = bytes_of_string "hello"
    /\ len (serverudp.chunks entry) = 1.
Proof.
  destruct (@loadFile_chunks unixPathLib memFileSystem "hello.txt"
              memfs.with_served_file (mkFileInfo false 5)
              (bytes_of_string "hello"))
    as (entry & Hload & Hcat & _ & _ & Hcount & _).
  - vm_compute. reflexivity.
  - reflexivity.
  - vm_compute. reflexivity.
  - exists entry. split; [exact Hload|]. split; [exact Hcat|exact Hcount].
Defined.


Lemma handleREQ_not_found_witness :
  serverudp.sent
    (@serverudp.handleREQ unixPathLib memFileSystem "10.0.0.7:40000"
       (mkReq "missing.txt") memfs.with_served_file serverudp.empty_server)
  = [("10.0.0.7:40000"%string, CtrlERR "arquivo não encontrado")].
Proof.
  destruct (@handleREQ_not_found unixPathLib memFileSystem "10.0.0.7:40000"
              (mkReq "missing.txt") memfs.with_served_file
              serverudp.empty_server) as [Hsent _].
  - repeat split; vm_compute; discriminate.
  - vm_compute. reflexivity.
  - exact Hsent.
Defined.

(* ===================================================================== *)
(** ** Server: retransmission and dispatch                                *)
(* ===================================================================== *)

Lemma data_frames_lookup (total i : Z) (cs : list (list byte)) (k : nat) :
  serverudp.data_frames total i cs !! k
  = (fun c => PackHeader
                (DataHeader.mk (uint32 (i + Z.of_nat k)) (uint32 total)
                   (uint16 (len c)) (CRC32 c)) ++ c) <$> cs !! k.
Proof.
  revert i k. induction cs as [|c cs IH]; intros i k; [done|].
  cbn [serverudp.data_frames]. destruct k as [|k].
  - cbn. by rewrite Z.add_0_r.
  - cbn [lookup list_lookup]. rewrite IH.
    by replace (i + 1 + Z.of_nat k) with (i + Z.of_nat (S k)) by lia.
Qed.

Section retransmission.
Import serverudp.

Lemma resend_chunks_trace (addr : string) (cs : list (list byte))
  (missing : list Z) (s : Server) :
  Forall is_uint32 missing ->
  let resent := omap (fun seq => data_frames (len cs) 0 cs !! Z.to_nat seq)
                  missing in
  exists s',
    resend_chunks addr cs missing s = Ret s'
    /\ sent s' = sent s ++ map (pair addr) resent
    /\ activeTransfers s' = activeTransfers s
    /\ baseDir s' = baseDir s /\ logged s' = logged s
    /\ uint64 (BytesSent (mtr s'))
       = uint64 (BytesSent (mtr s) + len (concat resent))
    /\ uint64 (Retransmissions (mtr s'))
       = uint64 (Retransmissions (mtr s) + len resent)
    /\ SegmentsSent (mtr s') = SegmentsSent (mtr s)
    /\ NacksReceived (mtr s') = NacksReceived (mtr s)
    /\ ActiveClients (mtr s') = ActiveClients (mtr s).
Proof.
  intros Hall. cbn zeta. revert s.
  induction Hall as [|seq missing Hseq _ IH]; intros s.
  - exists s. cbn [resend_chunks omap map]. rewrite app_nil_r.
    unfold len. cbn [length concat]. rewrite !Z.add_0_r. done.
  - cbn [resend_chunks omap list_omap]. unfold is_uint32 in Hseq.
    rewrite data_frames_lookup.
    destruct (seq <? len cs) eqn:Hin.
    + destruct (lookup_lt_is_Some_2 cs (Z.to_nat seq)) as [c Hc];
        [unfold len in *; lia|].
      rewrite (index_lookup cs seq c) by (lia || done).
      cbn [mbind outcome_bind WriteToUDP]. rewrite Hc. cbn [fmap option_fmap option_map].
      match goal with |- context [resend_chunks addr cs missing ?x] =>
        set (s1 := x) end.
      destruct (IH s1) as (s' & -> & Hs & Ha & Hb & Hl & Hby & Hr & Hsg & Hn & Hc').
      exists s'. split; [done|].
      rewrite Hs, Ha, Hb, Hl, Hby, Hr, Hsg, Hn, Hc'. unfold s1.
      cbn [sent activeTransfers baseDir logged mtr with_mtr BytesSent
           SegmentsSent NacksReceived Retransmissions ActiveClients].
      replace (0 + Z.of_nat (Z.to_nat seq)) with seq by lia.
      rewrite <- app_assoc. cbn [map concat app]. split; [done|].
      repeat split.
      * rewrite !len_app. unfold uint64. Z.div_mod_to_equations. lia.
      * rewrite len_cons. unfold uint64. Z.div_mod_to_equations. lia.
    + rewrite (lookup_ge_None_2 cs) by (unfold len in *; lia).
      cbn [fmap option_fmap option_map]. apply IH.
Qed.

(** [handleNACK] never faults.  For a peer without a registered transfer
    it only counts the NACK.  For a registered one it sends, in request
    order, one datagram per requested sequence that is below the number of
    chunks and skips the others; each datagram is byte for byte the DATA
    frame of that sequence in the first transmission; the retransmission
    counter grows by the number of datagrams and the byte counter by their
    total length (modulo 2^64). *)
Theorem handleNACK_resends (addr : string) (nack : Nack) (s : Server) :
  Forall is_uint32 (Missing nack) ->
  exists s',
    handleNACK addr nack s = Ret s'
    /\ activeTransfers s' = activeTransfers s
    /\ NacksReceived (mtr s') = uint64 (NacksReceived (mtr s) + 1)
    /\ SegmentsSent (mtr s') = SegmentsSent (mtr s)
    /\ match activeTransfers s !! addr with
       | None => sent s' = sent s /\ BytesSent (mtr s') = BytesSent (mtr s)
                 /\ Retransmissions (mtr s') = Retransmissions (mtr s)
       | Some entry =>
           let first := data_frames (len (chunks entry)) 0 (chunks entry) in
           let resent := omap (fun seq => first !! Z.to_nat seq)
                           (Missing nack) in
           sent s' = sent s ++ map (pair addr) resent
           /\ uint64 (BytesSent (mtr s'))
              = uint64 (BytesSent (mtr s) + len (concat resent))
           /\ uint64 (Retransmissions (mtr s'))
              = uint64 (Retransmissions (mtr s) + len resent)
       end.
Proof.
  intros Hall. unfold handleNACK.
  cbn [with_mtr activeTransfers].
  destruct (activeTransfers s !! addr) as [entry|] eqn:E.
  - match goal with |- context [resend_chunks addr ?cs ?ms ?x] =>
      set (s1 := x) end.
    destruct (resend_chunks_trace addr (chunks entry) (Missing nack) s1 Hall)
      as (s' & -> & Hs & Ha & _ & _ & Hby & Hr & Hsg & Hn & _).
    exists s'. split; [done|]. rewrite Ha, Hn, Hsg, Hs, Hby, Hr.
    unfold s1. cbn. done.
  - eexists. split; [reflexivity|]. cbn. done.
Qed.

End retransmission.

Lemma handleNACK_resends_witness :
  exists s',
    serverudp.handleNACK "10.0.0.7:40000" (mkNack [0; 7])
      serverudp.serving_hello = Ret s'
    /\ serverudp.sent s'
       = [("10.0.0.7:40000"%string, data_frame 0 1 (bytes_of_string "hello"))].
Proof.
  destruct (handleNACK_resends "10.0.0.7:40000" (mkNack [0; 7])
              serverudp.serving_hello)
    as (s' & Hrun & _ & _ & _ & Hentry).
  - repeat constructor; unfold is_uint32; lia.
  - exists s'. split; [exact Hrun|].
    change (serverudp.activeTransfers serverudp.serving_hello
            !! "10.0.0.7:40000"%string)
      with (Some serverudp.hello_entry) in Hentry.
    destruct Hentry as [-> _]. reflexivity.
Defined.

Lemma unpackNACK_loop_uint32 (n : nat) (p : list byte) (off : Z)
  (acc m : list Z) :
  unpackNACK_loop n p off acc = Ret m ->
  Forall is_uint32 acc -> Forall is_uint32 m.
Proof.
  revert off acc. induction n as [|n IH]; intros off acc.
  - cbn. by intros [= <-].
  - cbn [unpackNACK_loop]. destruct (sub p off (off + 4)) as [s|]; [|done].
    cbn [mbind outcome_bind].
    destruct (binary.Uint32 s) as [v|] eqn:Ev; [|done]. cbn [mbind outcome_bind].
    intros Hrun Hacc. apply (IH _ _ Hrun). apply Forall_app. split; [done|].
    apply Forall_singleton. by apply (Uint32_range s).
Qed.

Lemma unpackNACK_uint32 (p : list byte) (nk : Nack) (e : error) :
  unpackNACK p = Ret (nk, e) -> Forall is_uint32 (Missing nk).
Proof.
  unfold unpackNACK. destruct (len p <? 2); [by intros [= <- _]|].
  destruct (sub p 0 2) as [s|]; [|done]. cbn [mbind outcome_bind].
  destruct (binary.Uint16 s) as [n|]; [|done]. cbn [mbind outcome_bind].
  destruct (len p <? 2 + 4 * n); [by intros [= <- _]|].
  destruct (unpackNACK_loop (Z.to_nat n) p 2 []) as [m|] eqn:Em; [|done].
  cbn [mbind outcome_bind]. intros [= <- _]. cbn.
  by apply (unpackNACK_loop_uint32 _ _ _ _ _ Em).
Qed.

(** The sequences of a decoded NACK are 32-bit values. *)
Lemma DecodeCtrl_NACK_uint32 (b : list byte) (n : Nack) (e : error) :
  DecodeCtrl b = Ret (TypeNACK, any_Nack n, e) -> Forall is_uint32 (Missing n).
Proof.
  unfold DecodeCtrl. destruct (parseCtrl b) as [[[t p] e0]|]; [|done].
  cbn [mbind outcome_bind]. destruct e0 as [e0|]; [done|].
  destruct (t =? ctrlTypeREQ); [done|].
  destruct (t =? ctrlTypeMETA).
  { destruct (unpackMETA p) as [[m e1]|]; done. }
  destruct (t =? ctrlTypeERR).
  { destruct (unpackERR p) as [[m e1]|]; done. }
  destruct (t =? ctrlTypeEOF); [done|].
  destruct (t =? ctrlTypeNACK).
  { destruct (unpackNACK p) as [[m e1]|] eqn:Eu; [|done]. cbn.
    intros [= <- _]. by apply (unpackNACK_uint32 _ _ _ Eu). }
  destruct (t =? ctrlTypeLIST); [done|].
  destruct (t =? ctrlTypeLST); [|done].
  destruct (unpackLST p) as [[m e1]|]; done.
Qed.

Section dispatch.
Context `{PathLib} `{FileSystem}.
Import serverudp.

Ltac not_LIST Ed :=
  let v0 := fresh in let Hx := fresh in
  intros v0 Hx; try rewrite Ed in Hx;
  apply (f_equal (fun r => match r with
                           | Ret (t, _, None) => String.eqb t TypeLIST
                           | _ => false
                           end)) in Hx;
  vm_compute in Hx; discriminate.

(** The names that the LIST branch of [dispatchCtrl] collects. *)
Lemma dispatchCtrl_cases (addr : string) (b : list byte) (logging : bool)
  (w : World) (s : Server) :
  exists s' t,
    dispatchCtrl addr b logging w s = Ret (s', t)
    /\ activeTransfers s' = activeTransfers s /\ mtr s' = mtr s
    /\ baseDir s' = baseDir s
    /\ match t with
       | Some (go_handleREQ a r) =>
           a = addr /\ DecodeCtrl b = Ret (TypeREQ, any_Req r, None)
           /\ sent s' = sent s /\ logged s' = logged s
       | Some (go_handleNACK a n) =>
           a = addr /\ DecodeCtrl b = Ret (TypeNACK, any_Nack n, None)
           /\ Forall is_uint32 (Missing n) /\ sent s' = sent s
           /\ length (logged s') = (length (logged s) + if logging then 1 else 0)%nat
       | None =>
           logged s' = logged s
           /\ ((sent s' = sent s
                /\ forall v, DecodeCtrl b <> Ret (TypeLIST, v, None))
               \/ (DecodeCtrl b = Ret (TypeLIST, any_List, None)
                   /\ sent s'
                      = sent s
                        ++ [(addr,
                             CtrlLST (map fst
                                        (filter (fun e => e.2 = false)
                                           (os_ReadDir (baseDir s) w))))]))
       end.
Proof.
  unfold dispatchCtrl.
  destruct (DecodeCtrl_total b) as (typ & v & e & Ed). rewrite Ed.
  cbn [mbind outcome_bind].
  destruct e as [e|].
  { exists s, None. repeat split; try done. left. split; [done|]. not_LIST Ed. }
  pose proof (DecodeCtrl_tag _ _ _ _ Ed) as [[-> ->]|[-> Hv]].
  { exists s, None. repeat split; try done. left. split; [done|]. not_LIST Ed. }
  destruct v as [|r|m|er| |n| |l]; try done; cbn [frames.tag].
  - change (String.eqb TypeREQ TypeREQ) with true. cbv iota.
    exists s, (Some (go_handleREQ addr r)). done.
  - exists s, None. repeat split; try done. left. split; [done|]. not_LIST Ed.
  - exists s, None. repeat split; try done. left. split; [done|]. not_LIST Ed.
  - exists s, None. repeat split; try done. left. split; [done|]. not_LIST Ed.
  - change (String.eqb TypeNACK TypeREQ) with false.
    change (String.eqb TypeNACK TypeNACK) with true. cbv iota.
    eexists _, (Some (go_handleNACK addr n)). split; [reflexivity|].
    pose proof (DecodeCtrl_NACK_uint32 _ _ _ Ed).
    destruct logging; cbn; repeat split; try done.
    rewrite length_app. cbn. lia.
  - change (String.eqb TypeLIST TypeREQ) with false.
    change (String.eqb TypeLIST TypeNACK) with false.
    change (String.eqb TypeLIST TypeLIST) with true. cbv iota.
    eexists _, None. split; [reflexivity|]. cbn [WriteToUDP snd activeTransfers
      mtr baseDir sent logged]. repeat split; try done. by right.
  - exists s, None. repeat split; try done. left. split; [done|]. not_LIST Ed.
Qed.

(** [dispatchCtrl] never faults, whatever the datagram, and leaves the
    registered transfers, the counters and the base directory alone.  It
    starts [handleREQ] exactly for a datagram that decodes as REQ and
    [handleNACK] exactly for one that decodes as NACK (whose sequences are
    then 32-bit values), both for the sender of the datagram and without
    writing anything itself; it answers a LIST with one LST frame naming
    the entries of the base directory that are not directories; every
    other datagram (undecodable, META, ERR, EOF, LST) has no effect. *)
Theorem dispatchCtrl_routes (addr : string) (b : list byte) (logging : bool)
  (w : World) (s : Server) :
  exists s' t,
    dispatchCtrl addr b logging w s = Ret (s', t)
    /\ activeTransfers s' = activeTransfers s /\ mtr s' = mtr s
    /\ baseDir s' = baseDir s
    /\ (forall r, t = Some (go_handleREQ addr r)
                  <-> DecodeCtrl b = Ret (TypeREQ, any_Req r, None))
    /\ (forall n, t = Some (go_handleNACK addr n)
                  <-> DecodeCtrl b = Ret (TypeNACK, any_Nack n, None))
    /\ (forall n, t = Some (go_handleNACK addr n) ->
                  Forall is_uint32 (Missing n))
    /\ (DecodeCtrl b = Ret (TypeLIST, any_List, None) ->
        sent s'
        = sent s
          ++ [(addr,
               CtrlLST (map fst (filter (fun e => e.2 = false)
                                   (os_ReadDir (baseDir s) w))))])
    /\ (DecodeCtrl b <> Ret (TypeLIST, any_List, None) -> sent s' = sent s).
Proof.
  destruct (dispatchCtrl_cases addr b logging w s)
    as (s' & t & Hrun & Ha & Hm & Hb & Ht).
  exists s', t. split; [done|]. split; [done|]. split; [done|]. split; [done|].
  destruct t as [[a r0|a n0]|].
  - destruct Ht as (-> & Hd & Hs & _). rewrite Hd. split_and!.
    + intros r. split; [by intros [= <-]|by intros [= <-]].
    + intros n. split; discriminate.
    + discriminate.
    + discriminate.
    + done.
  - destruct Ht as (-> & Hd & Hu & Hs & _). rewrite Hd. split_and!.
    + intros r. split; discriminate.
    + intros n. split; [by intros [= <-]|by intros [= <-]].
    + by intros n [= <-].
    + discriminate.
    + done.
  - destruct Ht as [_ [[Hs Hd]|[Hd Hs]]].
    + split_and!.
      * intros r. split; [discriminate|]. intros Hx.
        exfalso. revert Hrun. unfold dispatchCtrl. rewrite Hx.
        cbn [mbind outcome_bind].
        change (String.eqb TypeREQ TypeREQ) with true. cbv iota. discriminate.
      * intros n. split; [discriminate|]. intros Hx.
        exfalso. revert Hrun. unfold dispatchCtrl. rewrite Hx.
        cbn [mbind outcome_bind].
        change (String.eqb TypeNACK TypeREQ) with false.
        change (String.eqb TypeNACK TypeNACK) with true. cbv iota.
        discriminate.
      * discriminate.
      * intros Hl. by destruct (Hd any_List).
      * done.
    + rewrite Hd. split_and!.
      * intros r. split; discriminate.
      * intros n. split; discriminate.
      * discriminate.
      * done.
      * done.
Qed.

Lemma packetLoop_frame (arrivals : list arrival) (logging : bool) (s : Server) :
  exists s' ts,
    packetLoop arrivals logging s = Ret (s', ts)
    /\ activeTransfers s' = activeTransfers s /\ mtr s' = mtr s
    /\ baseDir s' = baseDir s
    /\ (length ts <= length arrivals)%nat
    /\ exists replies,
         sent s' = sent s ++ replies
         /\ Forall (fun d => exists names, d.2 = CtrlLST names) replies.
Proof.
  revert s. induction arrivals as [|a arrivals IH]; intros s.
  - exists s, []. cbn. repeat split; try done. exists [].
    by rewrite app_nil_r.
  - cbn [packetLoop length]. destruct a as [|addr d w].
    { destruct (IH s) as (s' & ts & -> & Ha & Hm & Hb & Hl & Hr).
      exists s', ts. repeat split; try done. lia. }
    destruct (IsCtrl _).
    2:{ destruct (IH s) as (s' & ts & -> & Ha & Hm & Hb & Hl & Hr).
        exists s', ts. repeat split; try done. lia. }
    destruct (dispatchCtrl_cases addr (take (Z.to_nat 4096) d) logging w s)
      as (s1 & t & -> & Ha1 & Hm1 & Hb1 & Ht).
    cbn [mbind outcome_bind].
    destruct (IH s1) as (s' & ts & -> & Ha & Hm & Hb & Hl & replies & Hs & Hr).
    cbn [mbind outcome_bind]. eexists _, _. split; [reflexivity|].
    split; [congruence|]. split; [congruence|]. split; [congruence|].
    split; [destruct t; cbn; lia|].
    destruct t as [[a r|a n]|].
    + destruct Ht as (_ & _ & Hs1 & _). exists replies. by rewrite Hs, Hs1.
    + destruct Ht as (_ & _ & _ & Hs1 & _). exists replies. by rewrite Hs, Hs1.
    + destruct Ht as [_ [[Hs1 _]|[_ Hs1]]].
      * exists replies. by rewrite Hs, Hs1.
      * eexists (_ :: replies). rewrite Hs, Hs1, <- app_assoc.
        split; [reflexivity|]. constructor; [|done]. cbn. eauto.
Qed.

Lemma packetLoop_no_control (arrivals : list arrival) (logging : bool)
  (s : Server) :
  Forall (fun a => match a with
                   | ArrivalErr => True
                   | Arrival _ d _ => IsCtrl (take (Z.to_nat 4096) d) = false
                   end) arrivals ->
  packetLoop arrivals logging s = Ret (s, []).
Proof.
  induction 1 as [|a arrivals Ha _ IH]; [done|].
  cbn [packetLoop]. destruct a as [|addr d w]; [done|]. by rewrite Ha.
Qed.

(** The read loop of the server never faults, whatever arrives and in
    whatever order: read errors, datagrams that are not control frames and
    malformed control frames are passed over; the loop itself writes
    nothing but LST replies, starts at most one handler per arrival, and
    changes neither the registered transfers nor the counters. *)
Theorem packetLoop_never_faults (arrivals : list arrival) (logging : bool)
  (s : Server) :
  exists s' ts,
    packetLoop arrivals logging s = Ret (s', ts)
    /\ activeTransfers s' = activeTransfers s /\ mtr s' = mtr s
    /\ (length ts <= length arrivals)%nat
    /\ (exists replies,
          sent s' = sent s ++ replies
          /\ Forall (fun d => exists names, d.2 = CtrlLST names) replies)
    /\ (Forall (fun a => match a with
                         | ArrivalErr => True
                         | Arrival _ d _ =>
                             IsCtrl (take (Z.to_nat 4096) d) = false
                         end) arrivals ->
        s' = s /\ ts = []).
Proof.
  destruct (packetLoop_frame arrivals logging s)
    as (s' & ts & Hrun & Ha & Hm & _ & Hl & Hr).
  exists s', ts. split_and!; try done.
  intros Hall. rewrite (packetLoop_no_control _ _ _ Hall) in Hrun.
  by injection Hrun as <- <-.
Qed.

End dispatch.

(* ===================================================================== *)
(** ** Listing the files of the server                                    *)
(* ===================================================================== *)

Lemma lst_entries_bounds (names : list string) :
  2 * len names <= len (flat_map frames.lst_entry names)
  /\ Forall (fun nm => len (bytes_of_string nm) + 2
                       <= len (flat_map frames.lst_entry names)) names.
Proof.
  induction names as [|nm names [IH1 IH2]].
  - split; [done|constructor].
  - cbn [flat_map]. unfold frames.lst_entry at 1 3.
    pose proof (len_nonneg (bytes_of_string nm)).
    pose proof (len_nonneg (flat_map frames.lst_entry names)).
    len_simpl. split; [lia|]. constructor; [lia|].
    eapply Forall_impl; [exact IH2|]. intros x Hx. cbn in Hx. lia.
Qed.

Lemma len_CtrlLST (names : list string) :
  len (CtrlLST names) = 8 + len (flat_map frames.lst_entry names).
Proof.
  unfold CtrlLST. rewrite packLST_layout, ctrlHeader_layout. len_simpl. lia.
Qed.

Lemma DecodeCtrl_CtrlLST (names : list string) :
  len (flat_map frames.lst_entry names) <= 65533 ->
  DecodeCtrl (CtrlLST names) = Ret (TypeLST, any_Lst (mkLst names), None).
Proof.
  intros Hfit. destruct (lst_entries_bounds names) as [Hcnt Hall].
  pose proof (len_nonneg names).
  unfold CtrlLST. rewrite packLST_layout, packLST_plen_sum.
  set (payload := (binary.be16 _ ++ _)%list).
  assert (len payload = 2 + len (flat_map frames.lst_entry names)) as Hpl
    by (unfold payload; len_simpl; lia).
  rewrite <- Hpl, DecodeCtrl_fitting by (done || lia).
  cbn [mbind outcome_bind].
  change (ctrlTypeLST =? ctrlTypeREQ) with false.
  change (ctrlTypeLST =? ctrlTypeMETA) with false.
  change (ctrlTypeLST =? ctrlTypeERR) with false.
  change (ctrlTypeLST =? ctrlTypeEOF) with false.
  change (ctrlTypeLST =? ctrlTypeNACK) with false.
  change (ctrlTypeLST =? ctrlTypeLIST) with false.
  change (ctrlTypeLST =? ctrlTypeLST) with true. cbv iota.
  unfold payload. rewrite unpackLST_payload; [done|lia|].
  eapply Forall_impl; [exact Hall|]. intros x Hx. cbn in Hx. lia.
Qed.

Lemma DecodeCtrl_cut_frame (t n : Z) (payload : list byte) (k : nat) :
  0 <= n <= 65535 -> len payload = n -> (6 <= k)%nat -> Z.of_nat k < 6 + n ->
  DecodeCtrl (take k (ctrlHeader t n ++ payload))
  = Ret (""%string, any_nil, Some "ctrl payload curto"%string).
Proof.
  intros Hn Hp Hk6 Hk. unfold DecodeCtrl.
  rewrite take_app_ge by (rewrite ctrlHeader_layout; cbn; lia).
  rewrite parseCtrl_short_payload; [done|].
  rewrite uint16_small by lia. unfold len in *. rewrite length_take.
  rewrite ctrlHeader_layout. cbn [length app binary.be16]. lia.
Qed.

Lemma IsCtrl_take_frame (t n : Z) (payload : list byte) (k : nat) :
  (2 <= k)%nat -> IsCtrl (take k (ctrlHeader t n ++ payload)) = true.
Proof.
  intros Hk. destruct k as [|[|k]]; try lia.
  rewrite ctrlHeader_layout. cbn [app take binary.be16]. unfold IsCtrl.
  rewrite !len_cons.
  match goal with |- context [len ?l] => pose proof (len_nonneg l) end.
  replace (2 <=? _) with true by lia. reflexivity.
Qed.

Section listing.
Context `{PathLib} `{FileSystem}.
Import serverudp.

(** Listing, client against server.  The server answers LIST with one LST
    frame that names the non-directory entries of its base directory.  If
    that frame has at most 4096 bytes, [ListFiles] returns exactly those
    names.  If it is longer (and its payload still fits the 16-bit length
    field), the client's 4096-byte buffer cuts it and [ListFiles] fails
    with the short-payload error: a directory whose listing needs more
    than 4096 bytes cannot be listed. *)
Theorem ListFiles_against_server (addr : string) (logging : bool) (w : World)
  (s : Server) (c : Conn) (rest : list read_result) :
  let names := map fst (filter (fun e => e.2 = false)
                          (os_ReadDir (baseDir s) w)) in
  let c' := mkConn rest [] (cancels c) (clock c) (outbox c ++ [CtrlLIST]) in
  (exists s', dispatchCtrl addr CtrlLIST logging w s = Ret (s', None)
              /\ sent s' = sent s ++ [(addr, CtrlLST names)])
  /\ (inbox c = ReadOk (CtrlLST names) :: rest -> write_errs c = [] ->
      (len (CtrlLST names) <= 4096 ->
       ListFiles c = Ret (names, None, c'))
      /\ (4096 < len (CtrlLST names) <= 65541 ->
          ListFiles c = Ret ([], Some "ctrl payload curto"%string, c'))).
Proof.
  cbn zeta. set (names := map fst _). split.
  - destruct (dispatchCtrl_cases addr CtrlLIST logging w s)
      as (s' & t & Hrun & _ & _ & _ & Ht).
    assert (DecodeCtrl CtrlLIST = Ret (TypeLIST, any_List, None)) as Hd
      by reflexivity.
    rewrite Hd in Ht. destruct t as [[a r|a n]|].
    + by destruct Ht as (_ & ? & _).
    + by destruct Ht as (_ & ? & _).
    + destruct Ht as [_ [[_ Hne]|[_ Hs]]]; [by destruct (Hne any_List)|].
      exists s'. done.
  - intros Hin Hw. rewrite len_CtrlLST.
    pose proof (len_nonneg (flat_map frames.lst_entry names)) as Hp0.
    unfold ListFiles, conn_Write, conn_Read. rewrite Hw. cbn [inbox].
    rewrite Hin. split.
    + intros Hfit. rewrite take_ge by (rewrite <- len_CtrlLST in Hfit;
                                       unfold len in Hfit; lia).
      assert (IsCtrl (CtrlLST names) = true) as ->.
      { unfold CtrlLST. rewrite packLST_layout. apply IsCtrl_ctrlHeader. }
      cbn [negb]. rewrite DecodeCtrl_CtrlLST by lia.
      cbn [mbind outcome_bind]. reflexivity.
    + intros Hbig.
      assert (IsCtrl (take (Z.to_nat 4096) (CtrlLST names)) = true) as ->.
      { unfold CtrlLST. rewrite packLST_layout. apply IsCtrl_take_frame. lia. }
      cbn [negb]. unfold CtrlLST. rewrite packLST_layout, packLST_plen_sum.
      rewrite DecodeCtrl_cut_frame; [reflexivity|lia| |lia|lia].
      len_simpl. lia.
Qed.

End listing.

(* ===================================================================== *)
(** ** The list of missing sequences and the NACK built from it           *)
(* ===================================================================== *)

Lemma StronglySorted_seqZ (m n : Z) : StronglySorted Z.lt (seqZ m n).
Proof.
  remember (Z.to_nat n) as k eqn:Hk. revert m n Hk.
  induction k as [|k IH]; intros m n Hk.
  - rewrite seqZ_nil by lia. constructor.
  - rewrite seqZ_cons by lia. constructor; [apply IH; lia|].
    apply Forall_forall. intros x Hx. apply elem_of_seqZ in Hx. lia.
Qed.

Lemma StronglySorted_filter_lt (P : Z -> Prop) `{forall x, Decision (P x)}
  (l : list Z) :
  StronglySorted Z.lt l -> StronglySorted Z.lt (filter P l).
Proof.
  induction 1 as [|x l Hs IH Hall]; [constructor|].
  rewrite filter_cons. destruct (decide (P x)); [|done].
  constructor; [done|]. apply Forall_forall. intros y Hy.
  apply list_elem_of_filter in Hy as [_ Hy].
  by apply (proj1 (Forall_forall _ _) Hall).
Qed.

Lemma computeMissing_NoDup (total : Z) (recv : gmap Z (list byte)) :
  NoDup (computeMissing total recv).
Proof. unfold computeMissing. apply NoDup_filter, NoDup_seqZ. Qed.

(** [computeMissing] lists, in strictly ascending order and without
    repetition, exactly the sequences below [total] that are not keys of
    the receive map; the list is empty exactly when every sequence below
    [total] has been stored, its entries are 32-bit values when [total]
    is, and it has as many entries as [total] exceeds the number of stored
    sequences below it. *)
Theorem computeMissing_ascending (total : Z) (recv : gmap Z (list byte)) :
  StronglySorted Z.lt (computeMissing total recv)
  /\ NoDup (computeMissing total recv)
  /\ (forall i, i ∈ computeMissing total recv
                <-> 0 <= i < total /\ recv !! i = None)
  /\ (computeMissing total recv = []
      <-> forall i, 0 <= i < total -> is_Some (recv !! i))
  /\ (total <= 2 ^ 32 -> Forall is_uint32 (computeMissing total recv))
  /\ len (computeMissing total recv)
     + len (filter (fun i => is_Some (recv !! i)) (seqZ 0 total))
     = Z.max 0 total.
Proof.
  split_and!.
  - apply StronglySorted_filter_lt, StronglySorted_seqZ.
  - apply computeMissing_NoDup.
  - apply computeMissing_spec.
  - apply computeMissing_nil.
  - intros Htot. apply Forall_forall. intros i Hi.
    apply computeMissing_spec in Hi. unfold is_uint32. lia.
  - unfold computeMissing, len.
    assert (forall l : list Z,
              (length (filter (fun i => recv !! i = None) l)
               + length (filter (fun i => is_Some (recv !! i)) l)
               = length l)%nat) as Hsplit.
    { induction l as [|x l IH]; [done|]. rewrite !filter_cons.
      destruct (recv !! x) eqn:E.
      - rewrite decide_False by done. rewrite decide_True by eauto.
        cbn [length]. lia.
      - rewrite decide_True by done.
        rewrite decide_False by (intros [? ?]; done). cbn [length]. lia. }
    specialize (Hsplit (seqZ 0 total)). rewrite length_seqZ in Hsplit. lia.
Qed.

Lemma list_inserts_middle {A : Type} (a k zs r : list A) (off : nat) :
  off = length a -> length k = length zs ->
  list_inserts off k (a ++ zs ++ r) = a ++ k ++ r.
Proof.
  intros -> Hk. rewrite <- (Nat.add_0_r (length a)).
  rewrite list_inserts_app_r. f_equal. by apply list_inserts_0_r.
Qed.

Lemma display_missing_logged (cb : Callbacks) (missing : list Z) :
  OnLog cb = true -> 20 < len missing ->
  (display_missing cb missing).2
  = take 10 missing ++ drop (length missing - 10) missing ++ drop 20 missing.
Proof.
  intros Hlog Hlen. unfold display_missing. rewrite Hlog.
  replace (20 <? len missing) with true by lia. cbn [andb snd].
  assert (missing
          = take 10 missing ++ take 10 (drop 10 missing) ++ drop 20 missing)
    as Hsplit.
  { replace (drop 20 missing) with (drop 10 (drop 10 missing))
      by (by rewrite drop_drop).
    by rewrite !take_drop. }
  transitivity
    (list_inserts 10 (drop (length missing - 10) missing)
       (take 10 missing ++ take 10 (drop 10 missing) ++ drop 20 missing)).
  { f_equal. exact Hsplit. }
  apply list_inserts_middle.
  - rewrite length_take. unfold len in Hlen. lia.
  - rewrite length_drop, length_take, length_drop. unfold len in Hlen. lia.
Qed.

(** The NACK that a round writes.  Without a log callback, or with at most
    20 missing sequences, it carries the missing list as computed.  With a
    log callback and more than 20 missing sequences it does not: building
    the displayed list overwrites entries 10 to 19 of the list with its
    last ten entries before the frame is encoded, so the frame has the
    right length but repeats those ten, and none of the sequences that
    stood at positions 10 to 19 and are not among the last ten is
    requested in this round. *)
Theorem nack_written_after_log (cb : Callbacks) (total : Z)
  (recv : gmap Z (list byte)) :
  let missing := computeMissing total recv in
  let n := length missing in
  (OnLog cb = false \/ len missing <= 20 ->
   nack_written cb missing = CtrlNACK missing)
  /\ (OnLog cb = true -> 20 < len missing ->
      nack_written cb missing
      = CtrlNACK (take 10 missing ++ drop (n - 10) missing ++ drop 20 missing)
      /\ length (take 10 missing ++ drop (n - 10) missing ++ drop 20 missing)
         = n
      /\ forall k x, (10 <= k < 20)%nat -> (k < n - 10)%nat ->
           missing !! k = Some x ->
           x ∉ take 10 missing ++ drop (n - 10) missing ++ drop 20 missing).
Proof.
  cbn zeta. set (missing := computeMissing total recv). split.
  - intros Hoff. unfold nack_written, display_missing.
    destruct Hoff as [->|Hle]; [done|].
    replace (20 <? len missing) with false by lia. by rewrite andb_false_r.
  - intros Hlog Hlen. unfold nack_written.
    rewrite display_missing_logged by done. split; [done|].
    unfold len in Hlen. split.
    { rewrite !length_app, length_take, !length_drop. lia. }
    intros k x Hk Hk' Hx Hin.
    pose proof (computeMissing_NoDup total recv) as Hnd. fold missing in Hnd.
    assert (forall j, missing !! j = Some x -> j = k) as Huniq.
    { intros j Hj. by apply (NoDup_lookup missing j k x). }
    rewrite !elem_of_app in Hin. destruct Hin as [Hin|[Hin|Hin]].
    + apply list_elem_of_lookup in Hin as [j Hj].
      pose proof (lookup_lt_Some _ _ _ Hj) as Hlt. rewrite length_take in Hlt.
      rewrite lookup_take_lt in Hj by lia. apply Huniq in Hj. lia.
    + apply list_elem_of_lookup in Hin as [j Hj].
      rewrite lookup_drop in Hj. apply Huniq in Hj. lia.
    + apply list_elem_of_lookup in Hin as [j Hj].
      rewrite lookup_drop in Hj. apply Huniq in Hj. lia.
Qed.

Example display_missing_sample :
  display_missing (mkCallbacks false false true false) (seqZ 0 25)
  = ([0; 1; 2; 3; 4; 5; 6; 7; 8; 9; 15; 16; 17; 18; 19; 20; 21; 22; 23; 24],
     [0; 1; 2; 3; 4; 5; 6; 7; 8; 9; 15; 16; 17; 18; 19; 20; 21; 22; 23; 24;
      20; 21; 22; 23; 24]).
Proof. vm_compute. reflexivity. Qed.

(* ===================================================================== *)
(** ** Client: what decides Phase 1                                       *)
(* ===================================================================== *)

Lemma parseCtrl_IsCtrl (b p : list byte) (t : Z) :
  parseCtrl b = Ret (t, p, None) -> IsCtrl b = true.
Proof.
  unfold parseCtrl, IsCtrl. destruct (len b <? 6) eqn:Hlen; [done|].
  apply Z.ltb_ge in Hlen. unfold len in *.
  destruct b as [|x0 [|x1 b]]; cbn [length] in *; try lia.
  rewrite (index_lookup (x0 :: x1 :: b) 0 x0) by first [lia | reflexivity].
  rewrite (index_lookup (x0 :: x1 :: b) 1 x1) by first [lia | reflexivity].
  cbn [mbind outcome_bind].
  destruct (Ascii.eqb x0 ctrlMagic0) eqn:E0; [|done]. cbn [negb].
  destruct (Ascii.eqb x1 ctrlMagic1) eqn:E1; [|done]. intros _.
  rewrite (proj2 (Z.leb_le 2 _)) by lia.
  unfold at_index.
  change (nth (Z.to_nat 0) (x0 :: x1 :: b) zero_byte) with x0.
  change (nth (Z.to_nat 1) (x0 :: x1 :: b) zero_byte) with x1.
  change (Ascii.eqb x0 "U") with (Ascii.eqb x0 ctrlMagic0).
  change (Ascii.eqb x1 "C") with (Ascii.eqb x1 ctrlMagic1).
  by rewrite E0, E1.
Qed.

(** What decodes without error is a control frame for [IsCtrl]. *)
Lemma DecodeCtrl_IsCtrl (b : list byte) (typ : string) (v : any) :
  DecodeCtrl b = Ret (typ, v, None) -> typ <> ""%string -> IsCtrl b = true.
Proof.
  unfold DecodeCtrl. destruct (parseCtrl b) as [[[t p] [e|]]|] eqn:Ep; try done.
  intros _ _. by apply (parseCtrl_IsCtrl _ _ _ Ep).
Qed.

(** The datagrams that the wait for META passes over. *)
Lemma awaitMeta_skips (noise : list (list byte)) (cfg : Config)
  (cb : Callbacks) (try : Z) (c : Conn) (evs : list event)
  (rest : list read_result) (fuel : nat) :
  Forall (fun d =>
            IsCtrl (take (Z.to_nat 4096) d) = false
            \/ exists typ v e,
                 DecodeCtrl (take (Z.to_nat 4096) d) = Ret (typ, v, e)
                 /\ (e = None -> typ <> TypeMETA /\ typ <> TypeERR)) noise ->
  inbox c = map ReadOk noise ++ rest -> cancels c = [] ->
  awaitMeta (length noise + fuel) cfg cb try c evs
  = awaitMeta fuel cfg cb try
      (mkConn rest (write_errs c) [] (clock c) (outbox c)) evs.
Proof.
  intros Hall. revert c. induction Hall as [|d noise Hd _ IH];
    intros c Hin Hcan.
  - cbn [length Nat.add]. f_equal. destruct c. cbn in *. by subst.
  - cbn [length Nat.add awaitMeta]. rewrite poll_Cancel_idle by done.
    unfold conn_Read. rewrite Hin. cbn [map app].
    set (c1 := mkConn _ _ _ _ _).
    assert (awaitMeta (length noise + fuel) cfg cb try c1 evs
            = awaitMeta fuel cfg cb try
                (mkConn rest (write_errs c) [] (clock c) (outbox c)) evs)
      as Hnext.
    { rewrite (IH c1); [done|done|done]. }
    destruct Hd as [->|(typ & v & e & Hd & Hty)]; [done|].
    destruct (negb _); [done|]. rewrite Hd. destruct e as [e|]; [done|].
    destruct (Hty eq_refl) as [Hm He].
    apply String.eqb_neq in Hm, He. by rewrite Hm, He.
Qed.

Lemma awaitMeta_answer (cfg : Config) (cb : Callbacks) (try : Z) (c : Conn)
  (evs : list event) (a : list byte) (rest : list read_result) (fuel : nat) :
  inbox c = ReadOk a :: rest -> cancels c = [] ->
  let c' := mkConn rest (write_errs c) [] (clock c) (outbox c) in
  (forall m,
      DecodeCtrl (take (Z.to_nat 4096) a) = Ret (TypeMETA, any_Meta m, None) ->
      awaitMeta (S fuel) cfg cb try c evs
      = Done (WaitMeta m, c', evs ++ (if OnMeta cb then [EvMeta m] else [])))
  /\ (forall msg,
        DecodeCtrl (take (Z.to_nat 4096) a)
        = Ret (TypeERR, any_ErrMsg (mkErrMsg msg), None) ->
        awaitMeta (S fuel) cfg cb try c evs
        = Done (WaitErr msg, c',
                evs ++ log cb (LogText "ERRO: Servidor respondeu ERR"))).
Proof.
  intros Hin Hcan. cbn zeta.
  split; [intros m Hd|intros msg Hd];
    cbn [awaitMeta]; rewrite poll_Cancel_idle by done;
    unfold conn_Read; rewrite Hin, Hcan;
    rewrite (DecodeCtrl_IsCtrl _ _ _ Hd) by done; cbn [negb];
    rewrite Hd; reflexivity.
Qed.

(** Phase 1 is decided by the first datagram that decodes as META or as
    ERR: datagrams before it that are not control frames, that fail to
    decode, or that decode to another type are passed over.  On META the
    result is that META with a nil error; on ERR it is the message of the
    server as the error.  In both cases exactly one REQ has been written
    and the datagrams after the answer are left unread. *)
Theorem sendREQAndGetMeta_answer (cfg : Config) (cb : Callbacks) (c : Conn)
  (evs : list event) (noise : list (list byte)) (a : list byte)
  (rest : list read_result) :
  Forall (fun d =>
            IsCtrl (take (Z.to_nat 4096) d) = false
            \/ exists typ v e,
                 DecodeCtrl (take (Z.to_nat 4096) d) = Ret (typ, v, e)
                 /\ (e = None -> typ <> TypeMETA /\ typ <> TypeERR)) noise ->
  inbox c = map ReadOk noise ++ ReadOk a :: rest ->
  write_errs c = [] -> cancels c = [] ->
  let c' := mkConn rest [] [] (clock c) (outbox c ++ [CtrlREQ (Path cfg)]) in
  let asked := (evs ++ log cb (LogText "STATUS: Solicitando META"))
               ++ log cb (LogText "STATUS: Enviando REQ") in
  (forall m,
      DecodeCtrl (take (Z.to_nat 4096) a) = Ret (TypeMETA, any_Meta m, None) ->
      sendREQAndGetMeta cfg cb c evs
      = Done (m, None, c', asked ++ (if OnMeta cb then [EvMeta m] else [])))
  /\ (forall msg,
        DecodeCtrl (take (Z.to_nat 4096) a)
        = Ret (TypeERR, any_ErrMsg (mkErrMsg msg), None) ->
        sendREQAndGetMeta cfg cb c evs
        = Done (Meta.zero, Some msg, c',
                asked ++ log cb (LogText "ERRO: Servidor respondeu ERR"))).
Proof.
  intros Hnoise Hin Hw Hcan. cbn zeta.
  pose proof (effective_retries_positive cfg) as Hpos.
  unfold sendREQAndGetMeta.
  destruct (Z.to_nat (effective_retries cfg)) as [|n] eqn:En; [lia|].
  cbn [requestLoop]. unfold conn_Write. rewrite Hw. cbn [inbox].
  rewrite Hin, length_app, length_map. cbn [length].
  replace (S (length noise + S (length rest)))
    with (length noise + S (S (length rest)))%nat by lia.
  rewrite (awaitMeta_skips noise) with (rest := ReadOk a :: rest);
    [|done|done|done].
  cbn [write_errs clock outbox].
  set (c1 := mkConn (ReadOk a :: rest) [] [] (clock c) _).
  destruct (awaitMeta_answer cfg cb 1 c1
              ((evs ++ log cb (LogText "STATUS: Solicitando META"))
               ++ log cb (LogText "STATUS: Enviando REQ"))
              a rest (S (length rest)) eq_refl eq_refl) as [Hm He].
  split; [intros m Hd; rewrite (Hm m Hd)|intros msg Hd; rewrite (He msg Hd)];
    reflexivity.
Qed.

Lemma sendREQAndGetMeta_answer_witness :
  sendREQAndGetMeta (config_with_retries 2) no_callbacks
    (mkConn [ReadOk (bytes_of_string "??"); ReadOk CtrlEOF;
             ReadOk (CtrlMETA frames.meta_sample); ReadOk CtrlEOF]
       [] [] [] []) []
  = Done (frames.meta_sample, None,
          mkConn [ReadOk CtrlEOF] [] [] []
            [CtrlREQ (Path (config_with_retries 2))], []).
Proof.
  destruct (sendREQAndGetMeta_answer (config_with_retries 2) no_callbacks
              (mkConn [ReadOk (bytes_of_string "??"); ReadOk CtrlEOF;
                       ReadOk (CtrlMETA frames.meta_sample); ReadOk CtrlEOF]
                 [] [] [] []) []
              [bytes_of_string "??"; CtrlEOF] (CtrlMETA frames.meta_sample)
              [ReadOk CtrlEOF]) as [Hm _].
  - constructor; [left; vm_compute; reflexivity|].
    constructor; [|constructor].
    right. exists TypeEOF, any_EOFMsg, None.
    split; [vm_compute; reflexivity|]. intros _. split; discriminate.
  - reflexivity.
  - reflexivity.
  - reflexivity.
  - apply (Hm frames.meta_sample). vm_compute. reflexivity.
Defined.


(* ===================================================================== *)
(** ** Client: what [RunTransfer] reports                                 *)
(* ===================================================================== *)

Section report.
Context `{RandSource} `{PathLib} `{FileSystem}.

Lemma assembleAndVerify_ok_nil (meta : Meta.t) (recv : gmap Z (list byte))
  (outputPath : string) (w : World) :
  (assembleAndVerify meta recv outputPath w).1.1.2 = true ->
  (assembleAndVerify meta recv outputPath w).1.2 = None.
Proof.
  unfold assembleAndVerify. cbv zeta.
  destruct (0 <? len (computeMissing (Meta.Total meta) recv)); [done|].
  destruct (os_MkdirAll _ w) as [[e0|] w0]; [done|].
  destruct (os_Create _ w0) as [[e1|] w1]; [done|].
  destruct (write_chunks _ _ w1) as [[e2|] w2]; [done|].
  by destruct (String.eqb _ _).
Qed.

Lemma transferOnce_returns (cfg : Config) (dp : option DropPolicy)
  (cb : Callbacks) (net : dialed) (w : World) :
  transferOnce cfg dp cb net w <> OutOfFuel
  /\ forall t, transferOnce cfg dp cb net w = Done t ->
       ok t = true -> err t = None.
Proof.
  unfold transferOnce. destruct net as [e|c]; [split; [done|]|].
  { by intros t [= <-]. }
  unfold sendREQAndGetMeta.
  destruct (requestLoop_bound (Z.to_nat (effective_retries cfg)) cfg cb 1 c
              (log cb (LogText "STATUS: Solicitando META")))
    as (m & e & c' & evs' & k & Hreq & _ & _).
  cbn [app]. rewrite Hreq. destruct e as [e|]; [split; [done|]|].
  { by intros t [= <-]. }
  destruct (receiveData_budget m cfg cb c' dp evs') as [Hfuel _].
  destruct (receiveData m cfg cb c' dp evs') as [[[e|] cl]| |];
    [split; [done|by intros t [= <-]]| |by split|done].
  pose proof (assembleAndVerify_ok_nil m (recv (rst cl)) (OutputPath cfg) w)
    as Hok.
  destruct (assembleAndVerify m (recv (rst cl)) (OutputPath cfg) w)
    as [[[o b] e] w'].
  split; [done|]. intros t [= <-]. exact Hok.
Qed.

(** On any finite script of network results [RunTransfer] returns or
    faults; it does not wait forever.  When it returns,
    a transfer reported as verified carries no error; the events end with
    the line "SUCCESS: Transferência finalizada" (when a log callback is
    set) followed by the done event (when a done callback is set), whether
    or not the transfer failed; and a failure is logged before them as
    "ERRO: " followed by the error. *)
Theorem RunTransfer_reports (cfg : Config) (dp : option DropPolicy)
  (cb : Callbacks) (net : dialed) (w : World) :
  RunTransfer cfg dp cb net w <> OutOfFuel
  /\ forall r, RunTransfer cfg dp cb net w = Done r ->
       (ok r = true -> err r = None)
       /\ (exists before,
             seen r
             = before
               ++ log cb (LogText "SUCCESS: Transferência finalizada")
               ++ (if OnDone cb then [EvDone (out r) (ok r)] else []))
       /\ (forall e, err r = Some e -> OnLog cb = true ->
             EvLog (LogText ("ERRO: " +:+ e)) ∈ seen r).
Proof.
  destruct (transferOnce_returns cfg dp cb net w) as [Hfuel Hok].
  unfold RunTransfer.
  destruct (transferOnce cfg dp cb net w) as [t| |]; [|by split|done].
  split; [done|]. intros r [= <-]. cbn [ok err out seen world].
  split; [by apply Hok|]. split.
  - eexists. rewrite <- app_assoc. reflexivity.
  - intros e He Hlog. rewrite He. unfold log. rewrite Hlog.
    cbn [andb].
    destruct (negb _); [destruct (os_Stat _ _)|];
      rewrite ?elem_of_app, ?list_elem_of_singleton; tauto.
Qed.

End report.


(* ===================================================================== *)
(** ** The target of a transfer                                           *)
(* ===================================================================== *)

Lemma append_nil_l (s : string) : "" +:+ s = s.
Proof. reflexivity. Qed.

Lemma append_cons (c : ascii) (a b : string) :
  String c a +:+ b = String c (a +:+ b).
Proof. reflexivity. Qed.

Lemma append_assoc (a b c : string) : (a +:+ b) +:+ c = a +:+ b +:+ c.
Proof.
  induction a as [|x a IH]; [done|]. by rewrite !append_cons, IH.
Qed.

Lemma strings_Cut_absent (s : string) (sep : ascii) :
  strings_Count s sep = 0%nat -> strings_Cut s sep = None.
Proof.
  induction s as [|c s IH]; [done|]. cbn [strings_Count strings_Cut].
  destruct (Ascii.eqb c sep); [done|]. intros Hs. by rewrite IH.
Qed.

Lemma strings_Cut_first (a b : string) (sep : ascii) :
  strings_Count a sep = 0%nat ->
  strings_Cut (a +:+ String sep b) sep = Some (a, b).
Proof.
  induction a as [|c a IH];
    rewrite ?append_nil_l, ?append_cons; cbn [strings_Count strings_Cut].
  - by rewrite Ascii.eqb_refl.
  - destruct (Ascii.eqb c sep); [done|]. intros Ha. by rewrite IH.
Qed.

Lemma strings_Count_app (a b : string) (sep : ascii) :
  strings_Count (a +:+ b) sep
  = (strings_Count a sep + strings_Count b sep)%nat.
Proof.
  induction a as [|c a IH];
    rewrite ?append_nil_l, ?append_cons; cbn [strings_Count]; [done|].
  destruct (Ascii.eqb c sep); lia.
Qed.

Lemma strings_Cut_present (s : string) (sep : ascii) :
  strings_Count s sep <> 0%nat ->
  exists a b, s = a +:+ String sep b /\ strings_Count a sep = 0%nat
              /\ strings_Cut s sep = Some (a, b).
Proof.
  induction s as [|c s IH]; [done|]. cbn [strings_Count strings_Cut].
  destruct (Ascii.eqb c sep) eqn:Ec.
  - intros _. apply Ascii.eqb_eq in Ec. subst c. by exists EmptyString, s.
  - intros Hs. destruct (IH Hs) as (a & b & -> & Ha & Hcut).
    exists (String c a), b. rewrite append_cons. cbn [strings_Count].
    by rewrite Ec, Hcut.
Qed.

Lemma length_genSplit (k : nat) (s : string) (sep : ascii) :
  length (genSplit k s sep) = S (Nat.min k (strings_Count s sep)).
Proof.
  revert s. induction k as [|k IH]; intros s; [done|]. cbn [genSplit].
  destruct (Nat.eq_dec (strings_Count s sep) 0%nat) as [Hz|Hnz].
  - rewrite strings_Cut_absent, Hz by done. cbn [length]. lia.
  - destruct (strings_Cut_present s sep Hnz) as (a & b & -> & Ha & ->).
    cbn [length]. rewrite IH, strings_Count_app, Ha.
    cbn [strings_Count]. rewrite Ascii.eqb_refl. lia.
Qed.

(** The two pieces of a text with one separator. *)
Lemma strings_Split_pair (a b : string) (sep : ascii) :
  strings_Count a sep = 0%nat -> strings_Count b sep = 0%nat ->
  strings_Split (a +:+ String sep b) sep = [a; b].
Proof.
  intros Ha Hb. unfold strings_Split, strings_SplitN.
  change (-1 =? 0) with false. change (-1 <? 0) with true. cbv iota.
  rewrite strings_Count_app, Ha. cbn [strings_Count Nat.add].
  rewrite Ascii.eqb_refl, Hb. cbn [genSplit].
  by rewrite strings_Cut_first.
Qed.

Lemma strings_SplitN_two (a b : string) (sep : ascii) :
  strings_Count a sep = 0%nat ->
  strings_SplitN (a +:+ String sep b) sep 2 = [a; b].
Proof.
  intros Ha. unfold strings_SplitN.
  change (2 =? 0) with false. change (2 <? 0) with false. cbv iota.
  change (Z.to_nat (2 - 1)) with 1%nat. cbn [genSplit].
  by rewrite strings_Cut_first.
Qed.

Lemma strings_HasPrefix_at (s : string) :
  strings_HasPrefix (String "@" s) "@" = true.
Proof.
  unfold strings_HasPrefix. cbn [String.prefix].
  destruct (ascii_dec "@" "@"); [by destruct s|done].
Qed.

Lemma strings_HasPrefix_head (c : ascii) (a b : string) :
  strings_HasPrefix (String c a) "@" = strings_HasPrefix (String c b) "@".
Proof.
  unfold strings_HasPrefix. cbn [String.prefix].
  destruct (ascii_dec "@" c); [by destruct a, b|done].
Qed.

Section target_facts.
Context `{StrConv}.
Import target.

Lemma ParseTarget_stripped (host portText path : string) :
  strings_Count host "/" = 0%nat -> strings_Count portText "/" = 0%nat ->
  strings_Count host ":" = 0%nat -> strings_Count portText ":" = 0%nat ->
  match strings_SplitN (host +:+ String ":" portText +:+ String "/" path)
          "/" 2 with
  | [ipPort; path] =>
      match strings_Split ipPort ":" with
      | [host; portText] =>
          match strconv_Atoi portText with
          | (_, Some e) => (""%string, 0, ""%string, Some e)
          | (p, None) => (host, p, path, None)
          end
      | _ => (""%string, 0, ""%string, Some err_no_port)
      end
  | _ => (""%string, 0, ""%string, Some err_format)
  end
  = match strconv_Atoi portText with
    | (_, Some e) => (""%string, 0, ""%string, Some e)
    | (p, None) => (host, p, path, None)
    end.
Proof.
  intros Hh Hp Hh' Hp'.
  replace (host +:+ String ":" portText +:+ String "/" path)
    with ((host +:+ String ":" portText) +:+ String "/" path).
  2:{ by rewrite append_assoc. }
  rewrite strings_SplitN_two.
  2:{ rewrite strings_Count_app, Hh. cbn [strings_Count Nat.add].
      by rewrite (proj2 (Ascii.eqb_neq ":" "/")). }
  by rewrite strings_Split_pair.
Qed.

(** A target "host:port/path" whose host and port text hold neither a slash
    nor a colon parses to that host, the number [strconv.Atoi] reads from
    the port text and the path, which may hold any byte; the error of
    [strconv.Atoi], if any, is the result.  A leading "@" is dropped, so
    the same holds with "@" in front; without it the host must not itself
    begin with "@". *)
Theorem ParseTarget_endpoint (host portText path : string) :
  strings_Count host "/" = 0%nat -> strings_Count portText "/" = 0%nat ->
  strings_Count host ":" = 0%nat -> strings_Count portText ":" = 0%nat ->
  let r := match strconv_Atoi portText with
           | (_, Some e) => (""%string, 0, ""%string, Some e)
           | (p, None) => (host, p, path, None)
           end in
  ParseTarget ("@" +:+ host +:+ ":" +:+ portText +:+ "/" +:+ path) = r
  /\ (strings_HasPrefix host "@" = false ->
      ParseTarget (host +:+ ":" +:+ portText +:+ "/" +:+ path) = r).
Proof.
  intros Hh Hp Hh' Hp'. cbn zeta. split.
  - unfold ParseTarget, strip_at. rewrite append_cons, append_nil_l.
    rewrite strings_HasPrefix_at.
    rewrite append_cons, append_nil_l, append_cons, append_nil_l.
    by apply ParseTarget_stripped.
  - intros Hat. unfold ParseTarget, strip_at.
    rewrite append_cons, append_nil_l, append_cons, append_nil_l.
    replace (strings_HasPrefix
               (host +:+ String ":" (portText +:+ String "/" path)) "@")
      with false.
    + by apply ParseTarget_stripped.
    + destruct host as [|c host]; [done|]. rewrite append_cons.
      etrans; [exact (eq_sym Hat)|apply strings_HasPrefix_head].
Qed.

(** What [ParseTarget] refuses, on the target without its leading "@":
    a target with no slash is a format error, and a target whose part
    before the first slash does not hold exactly one colon (no port, or a
    bracketed IPv6 address) is refused as having no port. *)
Theorem ParseTarget_rejects (t : string) :
  (strings_Count (strip_at t) "/" = 0%nat ->
   ParseTarget t = (""%string, 0, ""%string, Some err_format))
  /\ (forall ep path,
        strip_at t = ep +:+ String "/" path ->
        strings_Count ep "/" = 0%nat -> strings_Count ep ":" <> 1%nat ->
        ParseTarget t = (""%string, 0, ""%string, Some err_no_port)).
Proof.
  unfold ParseTarget. split.
  - intros Hs. unfold strings_SplitN.
    change (2 =? 0) with false. change (2 <? 0) with false. cbv iota.
    change (Z.to_nat (2 - 1)) with 1%nat. cbn [genSplit].
    by rewrite strings_Cut_absent.
  - intros ep path -> Hep Hcolon. rewrite strings_SplitN_two by done.
    pose proof (length_genSplit (strings_Count ep ":") ep ":") as Hlen.
    unfold strings_Split, strings_SplitN.
    change (-1 =? 0) with false. change (-1 <? 0) with true. cbv iota.
    destruct (genSplit (strings_Count ep ":") ep ":") as [|a [|b [|c l]]];
      cbn [length] in Hlen; try done.
    lia.
Qed.

End target_facts.

Lemma ParseTarget_endpoint_witness :
  @target.ParseTarget decimalStrConv "@127.0.0.1:9000/docs/a:b.txt"
  = ("127.0.0.1"%string, 9000, "docs/a:b.txt"%string, None).
Proof.
  destruct (@ParseTarget_endpoint decimalStrConv "127.0.0.1" "9000"
              "docs/a:b.txt") as [Hat _]; [reflexivity..|].
  exact Hat.
Defined.

Example ParseTarget_bracketed_address :
  @target.ParseTarget decimalStrConv "[::1]:9000/a.txt"
  = (""%string, 0, ""%string, Some target.err_no_port).
Proof. reflexivity. Qed.


(* ===================================================================== *)
(** ** Client and server: a NACK round that recovers the losses           *)
(* ===================================================================== *)

Section recovery.
Context `{RandSource}.
Import serverudp.





End recovery.

